(** * bullets: an Entity-Component-System arcade core (src/index.js)

    A shallow embedding of the World, the components, the entities and the
    per-tick systems of [src/index.js], with the properties of the
    systems proved over it.

    Modelling choices.
    - A JavaScript number held in a component (coordinates, sizes,
      velocities) is an exact rational [Q]; timestamps and the spawn
      counter, which the program only ever fills with integers, are [Z].
      Rounding of IEEE doubles, [NaN] and the infinities are outside the
      model.
    - An entity is a heap object: the slot array holds references ([ref])
      and the heap maps a reference to the entity's [components] array.
      Identity tests ([===], [Array.prototype.includes]) compare
      references.  A component object belongs to the entity that holds it.
    - The slot array [entities] is one mutable array: every read during an
      iteration sees the writes made earlier in the same pass.
    - A callback either completes normally or throws; the state reached at
      that point is kept in both cases. *)

From Stdlib Require Import ZArith QArith Lqa.
From stdpp Require Import base option list gmap strings.

Open Scope Q_scope.

(** ** Numbers *)

(** [a < b] on JavaScript numbers, as a boolean. [a > b] is written
    [Qltb b a]. *)
Definition Qltb (a b : Q) : bool :=
  match a ?= b with
  | Lt => true
  | _ => false
  end.

(** ** Components *)

(** Object identity of an entity. *)
Definition ref := nat.

(** The component classes, as the argument of [getComponent]. *)
Inductive ComponentName :=
  | PositionComponent
  | VelocityComponent
  | RenderableComponent
  | RectangleComponent
  | InteractableComponent
  | BlasterComponent
  | WhitelistComponent
  | BoundaryComponent
  | RemovableAtBoundaryComponent
  | SpawnComponent
  | CounterComponent
  | UserCharacterComponent.

(** Component instances, one constructor per class, with the fields the
    class constructor sets. The sprite of a Renderable and the behaviour
    of an Interactable are opaque handles. *)
Inductive Component :=
  | new_PositionComponent (x y : Q)
  | new_VelocityComponent (x y : Q)
  | new_RenderableComponent (sprite : option nat)
  | new_RectangleComponent (width height : Q)
  | new_InteractableComponent (doFn : nat)
  | new_BlasterComponent (lastFired : Z)
  | new_WhitelistComponent (whitelist : list ref)
  | new_BoundaryComponent (x y width height : Q)
  | new_RemovableAtBoundaryComponent
  | new_SpawnComponent (lastSpawn : Z)
  | new_CounterComponent (count : Z)
  | new_UserCharacterComponent.

(** [component instanceof componentName] *)
Definition instanceof (component : Component) (componentName : ComponentName) : bool :=
  match component, componentName with
  | new_PositionComponent _ _, PositionComponent => true
  | new_VelocityComponent _ _, VelocityComponent => true
  | new_RenderableComponent _, RenderableComponent => true
  | new_RectangleComponent _ _, RectangleComponent => true
  | new_InteractableComponent _, InteractableComponent => true
  | new_BlasterComponent _, BlasterComponent => true
  | new_WhitelistComponent _, WhitelistComponent => true
  | new_BoundaryComponent _ _ _ _, BoundaryComponent => true
  | new_RemovableAtBoundaryComponent, RemovableAtBoundaryComponent => true
  | new_SpawnComponent _, SpawnComponent => true
  | new_CounterComponent _, CounterComponent => true
  | new_UserCharacterComponent, UserCharacterComponent => true
  | _, _ => false
  end.

(** Field reads. A field is only ever read from a component obtained by
    [getComponent] for a class that has it; the value given for the other
    classes is never used. *)
Definition x (c : Component) : Q :=
  match c with
  | new_PositionComponent x _ | new_VelocityComponent x _
  | new_BoundaryComponent x _ _ _ => x
  | _ => 0
  end.

Definition y (c : Component) : Q :=
  match c with
  | new_PositionComponent _ y | new_VelocityComponent _ y
  | new_BoundaryComponent _ y _ _ => y
  | _ => 0
  end.

Definition width (c : Component) : Q :=
  match c with
  | new_RectangleComponent w _ | new_BoundaryComponent _ _ w _ => w
  | _ => 0
  end.

Definition height (c : Component) : Q :=
  match c with
  | new_RectangleComponent _ h | new_BoundaryComponent _ _ _ h => h
  | _ => 0
  end.

Definition whitelist (c : Component) : list ref :=
  match c with
  | new_WhitelistComponent l => l
  | _ => []
  end.

Definition lastSpawn (c : Component) : Z :=
  match c with
  | new_SpawnComponent t => t
  | _ => 0%Z
  end.

Definition count (c : Component) : Z :=
  match c with
  | new_CounterComponent n => n
  | _ => 0%Z
  end.

(** Field writes [c.x = v], [c.y = v], [c.lastSpawn = v], [c.count = v]. *)
Definition set_x (v : Q) (c : Component) : Component :=
  match c with
  | new_PositionComponent _ y => new_PositionComponent v y
  | new_VelocityComponent _ y => new_VelocityComponent v y
  | new_BoundaryComponent _ y w h => new_BoundaryComponent v y w h
  | _ => c
  end.

Definition set_y (v : Q) (c : Component) : Component :=
  match c with
  | new_PositionComponent x _ => new_PositionComponent x v
  | new_VelocityComponent x _ => new_VelocityComponent x v
  | new_BoundaryComponent x _ w h => new_BoundaryComponent x v w h
  | _ => c
  end.

Definition set_lastSpawn (v : Z) (c : Component) : Component :=
  match c with
  | new_SpawnComponent _ => new_SpawnComponent v
  | _ => c
  end.

Definition set_count (v : Z) (c : Component) : Component :=
  match c with
  | new_CounterComponent _ => new_CounterComponent v
  | _ => c
  end.

(** ** Entities *)

(** class Entity: the [components] array. *)
Record Entity := new_Entity { components : list Component }.

(** [Entity.addComponent] *)
Definition addComponent (component : Component) (entity : Entity) : Entity :=
  new_Entity (components entity ++ [component]).

(** [Entity.getComponent]: the first component that is an instance of the
    class, [None] for [undefined]. *)
Definition getComponent (entity : Entity) (componentName : ComponentName) : option Component :=
  List.find (fun component => instanceof component componentName) (components entity).

(** The object returned by [getComponent] is mutated in place: the first
    instance of the class in the [components] array takes the new field
    values. *)
Fixpoint replaceFirst (componentName : ComponentName) (c : Component)
    (cs : list Component) : list Component :=
  match cs with
  | [] => []
  | c0 :: cs' =>
      if instanceof c0 componentName then c :: cs'
      else c0 :: replaceFirst componentName c cs'
  end.

Definition setComponent (componentName : ComponentName) (c : Component)
    (entity : Entity) : Entity :=
  new_Entity (replaceFirst componentName c (components entity)).

(** ** The state: heap and slot array *)

(** [heap] holds the entity objects; [entities] is the World's slot
    array, [None] standing for a [null] slot (a tombstone). *)
Record State := mkState {
  heap : gmap ref Entity;
  entities : list (option ref)
}.

(** Dereference of an entity reference. A reference that the heap does
    not hold denotes an entity without components. *)
Definition deref (s : State) (entity : ref) : Entity :=
  default (new_Entity []) (heap s !! entity).

(** In-place mutation of an entity object. *)
Definition mutate (entity : ref) (f : Entity -> Entity) (s : State) : State :=
  mkState (alter f entity (heap s)) (entities s).

(** [entities[i] = null] *)
Definition tombstone (i : nat) (s : State) : State :=
  mkState (heap s) (<[i := None]> (entities s)).

(** How a callback or an update ends. *)
Inductive completion :=
  | Normal (s : State)
  | Throw (s : State).

(** [entities.forEach(callback)]: the length is read once, the elements
    are read when they are visited. *)
Fixpoint forEach_from (callback : option ref -> nat -> State -> completion)
    (k n : nat) (s : State) : completion :=
  match n with
  | O => Normal s
  | S n' =>
      match entities s !! k with
      | Some element =>
          match callback element k s with
          | Normal s' => forEach_from callback (S k) n' s'
          | Throw s' => Throw s'
          end
      | None => forEach_from callback (S k) n' s
      end
  end.

Definition forEach (callback : option ref -> nat -> State -> completion)
    (s : State) : completion :=
  forEach_from callback 0 (length (entities s)) s.

(** ** World *)

(** The scan of [World.addEntity] over the slot array: the first [null]
    slot takes the entity, and the entity is pushed when there is none. *)
Fixpoint addEntity (entity : ref) (slots : list (option ref)) : list (option ref) :=
  match slots with
  | [] => [Some entity]
  | None :: rest => Some entity :: rest
  | Some e :: rest => Some e :: addEntity entity rest
  end.

Definition World_addEntity (entity : ref) (s : State) : State :=
  mkState (heap s) (addEntity entity (entities s)).


(** ** Assemblages *)

(** The canvas the factories and the spawner read their sizes from. *)
Record Canvas := mkCanvas { canvas_width : Q; canvas_height : Q }.

Definition ShipAssemblage : Entity :=
  new_Entity
    [ new_PositionComponent 0 0;
      new_VelocityComponent 0 0;
      new_RenderableComponent None;
      new_RectangleComponent 32 16;
      new_BlasterComponent 0;
      new_WhitelistComponent [] ].

(** [EnemyShipAssemblage(x, y)]. [random1] and [random2] are the two
    results of [Math.random()], in the order of the calls. *)
Definition EnemyShipAssemblage (canvas : Canvas) (random1 random2 : Q)
    (x0 y0 : Q) : Entity :=
  let entity := ShipAssemblage in
  let entity :=
    match getComponent entity PositionComponent with
    | Some position =>
        setComponent PositionComponent (set_y y0 (set_x x0 position)) entity
    | None => entity
    end in
  let xVelocity := random1 * (1 # 2) in
  let entity :=
    match getComponent entity VelocityComponent with
    | Some velocity =>
        let velocity := set_y 1 velocity in
        let velocity :=
          set_x (if Qltb random2 (1 # 2) then - xVelocity else xVelocity) velocity in
        setComponent VelocityComponent velocity entity
    | None => entity
    end in
  let entity :=
    addComponent
      (new_BoundaryComponent (-100) (-100)
         (canvas_width canvas + 200) (canvas_height canvas + 200)) entity in
  addComponent new_RemovableAtBoundaryComponent entity.

Definition EnemySpawnerAssemblage : Entity :=
  new_Entity [ new_SpawnComponent 0; new_CounterComponent 0 ].

(** ** Systems *)

(** *** MovementSystem *)

Definition MovementSystem_callback (entity : option ref) (_ : nat) (s : State) : completion :=
  match entity with
  | None => Normal s
  | Some entity =>
      let position := getComponent (deref s entity) PositionComponent in
      let velocity := getComponent (deref s entity) VelocityComponent in
      match position, velocity with
      | Some position, Some velocity =>
          let position := set_x (x position + x velocity) position in
          let position := set_y (y position + y velocity) position in
          Normal (mutate entity (setComponent PositionComponent position) s)
      | _, _ => Normal s
      end
  end.

Definition MovementSystem_update (s : State) : completion :=
  forEach MovementSystem_callback s.

(** *** BoundarySystem *)

(** The four checks, in the order of the source; each one reads the
    position as the checks before it left it. *)
Definition BoundarySystem_clamp (position rectangle boundary velocity : Component)
    : Component * Component :=
  let '(position, velocity) :=
    if Qltb (x position) (x boundary)
    then (set_x 0 position, set_x 0 velocity)
    else (position, velocity) in
  let '(position, velocity) :=
    if Qltb (y position) (y boundary)
    then (set_y 0 position, set_y 0 velocity)
    else (position, velocity) in
  let '(position, velocity) :=
    if Qltb (x boundary + width boundary) (x position + width rectangle)
    then (set_x (x boundary + width boundary - width rectangle) position,
          set_x 0 velocity)
    else (position, velocity) in
  let '(position, velocity) :=
    if Qltb (y boundary + height boundary) (y position + height rectangle)
    then (set_y (y boundary + height boundary - height rectangle) position,
          set_y 0 velocity)
    else (position, velocity) in
  (position, velocity).

Definition BoundarySystem_callback (entity : option ref) (_ : nat) (s : State) : completion :=
  match entity with
  | None => Normal s
  | Some entity =>
      let position := getComponent (deref s entity) PositionComponent in
      let rectangle := getComponent (deref s entity) RectangleComponent in
      let boundary := getComponent (deref s entity) BoundaryComponent in
      let velocity := getComponent (deref s entity) VelocityComponent in
      match position, rectangle, boundary, velocity with
      | Some position, Some rectangle, Some boundary, Some velocity =>
          let '(position, velocity) :=
            BoundarySystem_clamp position rectangle boundary velocity in
          Normal
            (mutate entity
               (fun e => setComponent VelocityComponent velocity
                           (setComponent PositionComponent position e)) s)
      | _, _, _, _ => Normal s
      end
  end.

Definition BoundarySystem_update (s : State) : completion :=
  forEach BoundarySystem_callback s.

(** *** CollisionSystem *)

(** [w?.whitelist?.includes(e)] for [w] the result of [getComponent]. *)
Definition includes (w : option Component) (e : ref) : bool :=
  match w with
  | Some w => bool_decide (e ∈ whitelist w)
  | None => false
  end.

(** The rectangle test of the inner callback. *)
Definition overlap (position rectangle otherPosition otherRectangle : Component) : bool :=
  Qltb (x position) (x otherPosition + width otherRectangle)
  && Qltb (x otherPosition) (x position + width rectangle)
  && Qltb (y position) (y otherPosition + height otherRectangle)
  && Qltb (y otherPosition) (y position + height rectangle).

(** The inner callback. [entity], [position] and [rectangle] are the
    variables of the enclosing outer callback: they keep their values
    when slot [j] is written. *)
Definition CollisionSystem_inner (entity : ref) (j : nat)
    (position rectangle : Component)
    (otherEntity : option ref) (i : nat) (s : State) : completion :=
  match otherEntity with
  | None => Normal s
  | Some otherEntity =>
      if decide (entity = otherEntity) then Normal s
      else
        let entityWhitelist := getComponent (deref s entity) WhitelistComponent in
        let otherWhitelist := getComponent (deref s otherEntity) WhitelistComponent in
        if includes entityWhitelist otherEntity then Normal s
        else if includes otherWhitelist entity then Normal s
        else
          let otherPosition := getComponent (deref s otherEntity) PositionComponent in
          let otherRectangle := getComponent (deref s otherEntity) RectangleComponent in
          match otherPosition, otherRectangle with
          | Some otherPosition, Some otherRectangle =>
              if overlap position rectangle otherPosition otherRectangle
              then Normal (tombstone j (tombstone i s))
              else Normal s
          | _, _ => Normal s
          end
  end.

Definition CollisionSystem_callback (entity : option ref) (j : nat) (s : State) : completion :=
  match entity with
  | None => Normal s
  | Some entity =>
      let position := getComponent (deref s entity) PositionComponent in
      let rectangle := getComponent (deref s entity) RectangleComponent in
      match position, rectangle with
      | Some position, Some rectangle =>
          forEach (CollisionSystem_inner entity j position rectangle) s
      | _, _ => Normal s
      end
  end.

Definition CollisionSystem_update (s : State) : completion :=
  forEach CollisionSystem_callback s.

(** *** BoundaryRemovalSystem *)

(** Evaluation of an expression that may throw a TypeError: [None] is
    the throw. *)
Definition prop (o : option Component) (field : Component -> Q) : option Q :=
  field <$> o.

Definition js_add (a b : option Q) : option Q :=
  a ≫= fun a => b ≫= fun b => Some (a + b).

Definition js_lt (a b : option Q) : option bool :=
  a ≫= fun a => b ≫= fun b => Some (Qltb a b).

Definition js_gt (a b : option Q) : option bool :=
  a ≫= fun a => b ≫= fun b => Some (Qltb b a).

(** [a || b]: [b] is evaluated only when [a] is false. *)
Definition js_or (a b : option bool) : option bool :=
  match a with
  | Some true => Some true
  | Some false => b
  | None => None
  end.

Definition BoundaryRemovalSystem_callback (entity : option ref) (i : nat) (s : State) : completion :=
  match entity with
  | None => Normal s
  | Some entity =>
      let position := getComponent (deref s entity) PositionComponent in
      let rectangle := getComponent (deref s entity) RectangleComponent in
      let removable := getComponent (deref s entity) RemovableAtBoundaryComponent in
      let boundary := getComponent (deref s entity) BoundaryComponent in
      match position, removable with
      | Some _, Some _ =>
          match
            js_or (js_lt (prop position y) (prop boundary y))
              (js_or (js_gt (js_add (prop position y) (prop rectangle height))
                            (js_add (prop boundary y) (prop boundary height)))
                 (js_or (js_lt (prop position x) (prop boundary x))
                    (js_gt (js_add (prop position x) (prop rectangle width))
                           (js_add (prop boundary x) (prop boundary width)))))
          with
          | Some true => Normal (tombstone i s)
          | Some false => Normal s
          | None => Throw s
          end
      | _, _ => Normal s
      end
  end.

Definition BoundaryRemovalSystem_update (s : State) : completion :=
  forEach BoundaryRemovalSystem_callback s.

(** *** SpawnSystem *)

(** What one call of [SpawnSystem.update] reads from its environment:
    the two results of [Date.now()] (the cooldown test, then the stamp)
    and the three results of [Math.random()], in the order of the calls. *)
Record Readings := mkReadings {
  now_test : Z;
  now_stamp : Z;
  random_x : Q;
  random_speed : Q;
  random_side : Q
}.

(** The predicate of [entities.find]: [entity?.getComponent(SpawnComponent)]. *)
Definition has_spawn (s : State) (entity : option ref) : bool :=
  match entity with
  | Some entity =>
      match getComponent (deref s entity) SpawnComponent with
      | Some _ => true
      | None => false
      end
  | None => false
  end.

(** Allocation of a new entity object. *)
Definition allocate (e : Entity) (s : State) : ref * State :=
  let r := fresh (dom (heap s)) in
  (r, mkState (<[r := e]> (heap s)) (entities s)).

(** The slot scan at the end of the update is the scan of
    [World.addEntity], written out in place in the source. *)
Definition SpawnSystem_update (canvas : Canvas) (io : Readings) (s : State) : completion :=
  match List.find (has_spawn s) (entities s) with
  | Some (Some spawner) =>
      let spawn := getComponent (deref s spawner) SpawnComponent in
      let counter := getComponent (deref s spawner) CounterComponent in
      match spawn, counter with
      | Some spawn, Some counter =>
          if (now_test io - lastSpawn spawn <? 100)%Z then Normal s
          else
            let spawn := set_lastSpawn (now_stamp io) spawn in
            let counter := set_count (count counter + 1)%Z counter in
            let s :=
              mutate spawner
                (fun e => setComponent CounterComponent counter
                            (setComponent SpawnComponent spawn e)) s in
            if (Z.rem (count counter) 10 =? 0)%Z then
              let '(enemy, s) :=
                allocate
                  (EnemyShipAssemblage canvas (random_speed io) (random_side io)
                     (random_x io * canvas_width canvas) 0) s in
              Normal (mkState (heap s) (addEntity enemy (entities s)))
            else Normal s
      | _, _ => Normal s
      end
  | _ => Normal s
  end.

(** ** Auxiliary definitions for the statements *)

(** The effect on the state of visiting one slot with a callback that
    applies [g] to the entity object of a live slot. *)
Definition visit (g : Entity -> Entity) (s : State) (element : option ref) : State :=
  match element with
  | Some r => mutate r g s
  | None => s
  end.

(** Number of slots that hold the reference [r]. *)
Definition occurrences (r : ref) (l : list (option ref)) : nat :=
  length (filter (fun el => el = Some r) l).

(** What [MovementSystem]'s callback does to the entity object of a live
    slot. *)
Definition MovementSystem_entity (e : Entity) : Entity :=
  match getComponent e PositionComponent, getComponent e VelocityComponent with
  | Some position, Some velocity =>
      let position := set_x (x position + x velocity) position in
      let position := set_y (y position + y velocity) position in
      setComponent PositionComponent position e
  | _, _ => e
  end.

(** What [BoundarySystem]'s callback does to the entity object of a live
    slot. *)
Definition BoundarySystem_entity (e : Entity) : Entity :=
  match getComponent e PositionComponent, getComponent e RectangleComponent,
        getComponent e BoundaryComponent, getComponent e VelocityComponent with
  | Some position, Some rectangle, Some boundary, Some velocity =>
      let '(position, velocity) :=
        BoundarySystem_clamp position rectangle boundary velocity in
      setComponent VelocityComponent velocity
        (setComponent PositionComponent position e)
  | _, _, _, _ => e
  end.

(** The four checks of [BoundarySystem] over any arithmetic: [add],
    [sub] and [ltb] stand for the [+], the [-] and the [<] of the numbers.
    [BoundarySystem_clamp] is the instance of the exact operations. *)
Definition BoundarySystem_clamp_with (add sub : Q -> Q -> Q) (ltb : Q -> Q -> bool)
    (position rectangle boundary velocity : Component) : Component * Component :=
  let '(position, velocity) :=
    if ltb (x position) (x boundary)
    then (set_x 0 position, set_x 0 velocity)
    else (position, velocity) in
  let '(position, velocity) :=
    if ltb (y position) (y boundary)
    then (set_y 0 position, set_y 0 velocity)
    else (position, velocity) in
  let '(position, velocity) :=
    if ltb (add (x boundary) (width boundary)) (add (x position) (width rectangle))
    then (set_x (sub (add (x boundary) (width boundary)) (width rectangle)) position,
          set_x 0 velocity)
    else (position, velocity) in
  let '(position, velocity) :=
    if ltb (add (y boundary) (height boundary)) (add (y position) (height rectangle))
    then (set_y (sub (add (y boundary) (height boundary)) (height rectangle)) position,
          set_y 0 velocity)
    else (position, velocity) in
  (position, velocity).

(** One axis of these checks: the low check, then the high check on
    the position the low check left. *)
Definition axis_clamp_with (add sub : Q -> Q -> Q) (ltb : Q -> Q -> bool)
    (p lo extent size v : Q) : Q * Q :=
  let '(p, v) := if ltb p lo then (0, 0) else (p, v) in
  let '(p, v) :=
    if ltb (add lo extent) (add p size)
    then (sub (add lo extent) size, 0)
    else (p, v) in
  (p, v).

(** One axis of an entity before a tick: the way in which a second tick
    undoes the first. The high check of the first tick fires (it reads
    [p1], the position its low check left) and writes
    [lo + extent - size]; that value is below [lo], so the low check of
    the second tick writes the literal 0; and a rectangle at 0 does not
    pass the far edge, so the high check of the second tick leaves the 0.
    The three tests are the comparisons the two ticks evaluate. *)
Definition axis_unsettled_with (add sub : Q -> Q -> Q) (ltb : Q -> Q -> bool)
    (p lo extent size : Q) : bool :=
  let p1 := if ltb p lo then 0 else p in
  ltb (add lo extent) (add p1 size)
  && ltb (sub (add lo extent) size) lo
  && negb (ltb (add lo extent) (add 0 size)).

Definition axis_unsettled (p lo extent size : Q) : bool :=
  let p1 := if Qltb p lo then 0 else p in
  Qltb (lo + extent) (p1 + size)
  && Qltb (lo + extent - size) lo
  && negb (Qltb (lo + extent) (0 + size)).

(** On neither axis does a second tick undo the first. *)
Definition settles (e : Entity) : Prop :=
  forall position rectangle boundary,
    getComponent e PositionComponent = Some position ->
    getComponent e RectangleComponent = Some rectangle ->
    getComponent e BoundaryComponent = Some boundary ->
    axis_unsettled (x position) (x boundary) (width boundary) (width rectangle) = false /\
    axis_unsettled (y position) (y boundary) (height boundary) (height rectangle) = false.

(** One axis of the BoundarySystem checks, from the field values before
    the tick ([p], [v]) to the field values after it ([p'], [v']): the low
    check reads [p] and leaves [p1]; the high check reads [p1]. [lo] and
    [extent] are the boundary's origin and size on the axis, [size] the
    rectangle's. *)
Definition axis_clamped (p lo extent size v p' v' : Q) : Prop :=
  exists p1,
    (p < lo -> p1 = 0) /\
    (~ p < lo -> p1 = p) /\
    (lo + extent < p1 + size -> p' = lo + extent - size) /\
    (~ lo + extent < p1 + size -> p' = p1) /\
    (p < lo \/ lo + extent < p1 + size -> v' = 0) /\
    (~ (p < lo \/ lo + extent < p1 + size) -> v' = v).

(** The test of the inner callback of [CollisionSystem], for the
    subject [entity] (with its [position] and [rectangle]) and a live
    [otherEntity]: the two slots are tombstoned exactly when it holds. *)
Definition hits (s : State) (entity : ref) (position rectangle : Component)
    (otherEntity : ref) : bool :=
  if decide (entity = otherEntity) then false
  else if includes (getComponent (deref s entity) WhitelistComponent) otherEntity then false
  else if includes (getComponent (deref s otherEntity) WhitelistComponent) entity then false
  else
    match getComponent (deref s otherEntity) PositionComponent,
          getComponent (deref s otherEntity) RectangleComponent with
    | Some otherPosition, Some otherRectangle =>
        overlap position rectangle otherPosition otherRectangle
    | _, _ => false
    end.

(** [entity], taken as the subject of an outer iteration, collides with
    [otherEntity]: both carry Position and Rectangle, they are distinct,
    neither lists the other in its Whitelist, and the rectangles overlap. *)
Definition collides (s : State) (entity otherEntity : ref) : bool :=
  match getComponent (deref s entity) PositionComponent,
        getComponent (deref s entity) RectangleComponent with
  | Some position, Some rectangle => hits s entity position rectangle otherEntity
  | _, _ => false
  end.

(** [s'] is [s] with some live slots tombstoned and nothing else
    changed. *)
Definition decays (s s' : State) : Prop :=
  heap s' = heap s /\
  forall k,
    entities s' !! k = entities s !! k \/
    (entities s' !! k = Some None /\ exists e, entities s !! k = Some (Some e)).

(** The test of [BoundaryRemovalSystem]'s callback on an entity object:
    [Some true] when the slot is tombstoned, [Some false] when it is left,
    [None] when the evaluation throws. *)
Definition BoundaryRemovalSystem_test (e : Entity) : option bool :=
  let position := getComponent e PositionComponent in
  let rectangle := getComponent e RectangleComponent in
  let removable := getComponent e RemovableAtBoundaryComponent in
  let boundary := getComponent e BoundaryComponent in
  match position, removable with
  | Some _, Some _ =>
      js_or (js_lt (prop position y) (prop boundary y))
        (js_or (js_gt (js_add (prop position y) (prop rectangle height))
                      (js_add (prop boundary y) (prop boundary height)))
           (js_or (js_lt (prop position x) (prop boundary x))
              (js_gt (js_add (prop position x) (prop rectangle width))
                     (js_add (prop boundary x) (prop boundary width)))))
  | _, _ => Some false
  end.




(** ** Sample states *)

(** A mover at slot 0, a tombstone, and an entity without Velocity. *)
Definition movement_sample : State :=
  mkState
    (<[0%nat := new_Entity [new_PositionComponent 1 2; new_VelocityComponent 3 4]]>
       (<[1%nat := new_Entity [new_PositionComponent 5 5]]> ∅))
    [Some 0%nat; None; Some 1%nat].

(** A ship left of and below its boundary. *)
Definition boundary_sample : State :=
  mkState
    (<[0%nat := new_Entity
         [new_PositionComponent (-3) 95; new_VelocityComponent (-4) 4;
          new_RectangleComponent 32 16; new_BoundaryComponent 0 0 450 100]]> ∅)
    [Some 0%nat].

(** An entity wider than its boundary, the boundary starting right of 0. *)
Definition boundary_narrow : State :=
  mkState
    (<[0%nat := new_Entity
         [new_PositionComponent 20 0; new_VelocityComponent 1 0;
          new_RectangleComponent 8 8; new_BoundaryComponent 10 0 5 100]]> ∅)
    [Some 0%nat].

(** Two overlapping entities, the first listing the second in its
    Whitelist. *)
Definition collision_exempt : State :=
  mkState
    (<[0%nat := new_Entity
         [new_PositionComponent 0 0; new_RectangleComponent 10 10;
          new_WhitelistComponent [1%nat]]]>
       (<[1%nat := new_Entity
            [new_PositionComponent 5 5; new_RectangleComponent 10 10]]> ∅))
    [Some 0%nat; Some 1%nat].

(** The same two entities and a third one that overlaps the first and
    is on no Whitelist. *)
Definition collision_exempt_third : State :=
  mkState
    (<[2%nat := new_Entity
         [new_PositionComponent (-5) 0; new_RectangleComponent 10 10]]>
       (heap collision_exempt))
    [Some 0%nat; Some 1%nat; Some 2%nat].

(** The same two entities and a third one far from both. *)
Definition collision_exempt_far : State :=
  mkState
    (<[2%nat := new_Entity
         [new_PositionComponent 100 100; new_RectangleComponent 10 10]]>
       (heap collision_exempt))
    [Some 0%nat; Some 1%nat; Some 2%nat].

(** Rectangles [0,0,10,10] and [5,5,10,10], with a tombstone between. *)
Definition collision_overlapping : State :=
  mkState
    (<[0%nat := new_Entity
         [new_PositionComponent 0 0; new_RectangleComponent 10 10]]>
       (<[1%nat := new_Entity
            [new_PositionComponent 5 5; new_RectangleComponent 10 10]]> ∅))
    [Some 0%nat; None; Some 1%nat].

(** Rectangles [0,0,10,10] and [20,20,10,10]. *)
Definition collision_disjoint : State :=
  mkState
    (<[0%nat := new_Entity
         [new_PositionComponent 0 0; new_RectangleComponent 10 10]]>
       (<[1%nat := new_Entity
            [new_PositionComponent 20 20; new_RectangleComponent 10 10]]> ∅))
    [Some 0%nat; Some 1%nat].

(** A long entity in slot 0 that overlaps the entity of slot 1 at its
    left end and the entity of slot 2 at its right end; the entities of
    slots 1 and 2 are apart. *)
Definition collision_chain : State :=
  mkState
    (<[0%nat := new_Entity
         [new_PositionComponent 0 0; new_RectangleComponent 30 10]]>
       (<[1%nat := new_Entity
            [new_PositionComponent (-5) 0; new_RectangleComponent 10 10]]>
          (<[2%nat := new_Entity
               [new_PositionComponent 25 0; new_RectangleComponent 10 10]]> ∅)))
    [Some 0%nat; Some 1%nat; Some 2%nat].

(** Three entities in a row: the entity of slot 0 overlaps the entity
    of slot 1, which overlaps the entity of slot 2; the entities of slots
    0 and 2 are apart. *)
Definition collision_relay : State :=
  mkState
    (<[0%nat := new_Entity
         [new_PositionComponent 0 0; new_RectangleComponent 10 10]]>
       (<[1%nat := new_Entity
            [new_PositionComponent 5 0; new_RectangleComponent 10 10]]>
          (<[2%nat := new_Entity
               [new_PositionComponent 12 0; new_RectangleComponent 10 10]]> ∅)))
    [Some 0%nat; Some 1%nat; Some 2%nat].

(** A bullet half way over the left edge of its boundary. *)
Definition removal_partial : State :=
  mkState
    (<[0%nat := new_Entity
         [new_PositionComponent (-5) 10; new_RectangleComponent 10 10;
          new_BoundaryComponent 0 0 100 100; new_RemovableAtBoundaryComponent]]> ∅)
    [Some 0%nat].

(** A removable entity inside its boundary, and one entirely outside. *)
Definition removal_sample : State :=
  mkState
    (<[0%nat := new_Entity
         [new_PositionComponent 10 10; new_RectangleComponent 10 10;
          new_BoundaryComponent 0 0 100 100; new_RemovableAtBoundaryComponent]]>
       (<[1%nat := new_Entity
            [new_PositionComponent 200 10; new_RectangleComponent 10 10;
             new_BoundaryComponent 0 0 100 100; new_RemovableAtBoundaryComponent]]> ∅))
    [Some 0%nat; Some 1%nat].

(** A removable entity with a Position and no Boundary (and no
    Rectangle). *)
Definition removal_no_boundary : State :=
  mkState
    (<[0%nat := new_Entity
         [new_PositionComponent 0 0; new_RemovableAtBoundaryComponent]]> ∅)
    [Some 0%nat].

(** A removable entity with a Position and a Boundary and no Rectangle,
    its position inside the boundary. *)
Definition removal_no_rectangle : State :=
  mkState
    (<[0%nat := new_Entity
         [new_PositionComponent 10 10; new_BoundaryComponent 0 0 100 100;
          new_RemovableAtBoundaryComponent]]> ∅)
    [Some 0%nat].

(** The world after [init]: a tombstone-free array with an entity
    without Spawn component and a fresh spawner. *)
Definition spawn_sample : State :=
  mkState
    (<[0%nat := new_Entity [new_PositionComponent 0 0; new_UserCharacterComponent]]>
       (<[1%nat := EnemySpawnerAssemblage]> ∅))
    [Some 0%nat; Some 1%nat].

Definition sample_canvas : Canvas := mkCanvas 450 800.

(** Readings of a call at time [t]. *)
Definition readings_at (t : Z) : Readings := mkReadings t t (1 # 2) (1 # 2) (1 # 4).


(** ** The remaining systems *)

(** [entity?.getComponent(componentName)], taken as a condition. *)
Definition carries (s : State) (componentName : ComponentName) (entity : option ref) : bool :=
  match entity with
  | Some entity =>
      match getComponent (deref s entity) componentName with
      | Some _ => true
      | None => false
      end
  | None => false
  end.

(** [EndGameSystem.update]: [!entities.find(...)]. *)
Definition EndGameSystem_update (s : State) : bool :=
  match List.find (carries s UserCharacterComponent) (entities s) with
  | Some (Some _) => false
  | Some None => true
  | None => true
  end.

(** The counting loop of [EntitiesCounterSystem.update]. *)
Fixpoint EntitiesCounterSystem_count (slots : list (option ref)) : nat :=
  match slots with
  | [] => 0
  | None :: rest => EntitiesCounterSystem_count rest
  | Some _ :: rest => S (EntitiesCounterSystem_count rest)
  end.

(** The two numbers [EntitiesCounterSystem.update] reports: live
    entities and capacity. *)
Definition EntitiesCounterSystem_report (s : State) : nat * nat :=
  (EntitiesCounterSystem_count (entities s), length (entities s)).

(** ** The player ship *)

(** Further field reads and writes. *)
Definition lastFired (c : Component) : Z :=
  match c with
  | new_BlasterComponent t => t
  | _ => 0%Z
  end.

Definition set_lastFired (v : Z) (c : Component) : Component :=
  match c with
  | new_BlasterComponent _ => new_BlasterComponent v
  | _ => c
  end.

Definition set_width (v : Q) (c : Component) : Component :=
  match c with
  | new_RectangleComponent _ h => new_RectangleComponent v h
  | new_BoundaryComponent x y _ h => new_BoundaryComponent x y v h
  | _ => c
  end.

Definition set_height (v : Q) (c : Component) : Component :=
  match c with
  | new_RectangleComponent w _ => new_RectangleComponent w v
  | new_BoundaryComponent x y w _ => new_BoundaryComponent x y w v
  | _ => c
  end.

(** [c.whitelist.push(e)] *)
Definition whitelist_push (e : ref) (c : Component) : Component :=
  match c with
  | new_WhitelistComponent l => new_WhitelistComponent (l ++ [e])
  | _ => c
  end.

Definition BulletAssemblage (canvas : Canvas) : Entity :=
  new_Entity
    [ new_PositionComponent 0 0;
      new_VelocityComponent 0 0;
      new_RenderableComponent None;
      new_RectangleComponent 4 8;
      new_BoundaryComponent 0 0 (canvas_width canvas) (canvas_height canvas);
      new_RemovableAtBoundaryComponent;
      new_WhitelistComponent [] ].

(** [PlayerShipAssemblage]. The behaviour stored in the Interactable
    component is the closure [shipInteractable] of this ship; [doFn] is
    the handle that stands for it. *)
Definition PlayerShipAssemblage (canvas : Canvas) (doFn : nat) : Entity :=
  let ship := ShipAssemblage in
  match getComponent ship RectangleComponent, getComponent ship PositionComponent with
  | Some shipRect, Some shipPosition =>
      let shipPosition :=
        set_x (canvas_width canvas / 2 - width shipRect / 2) shipPosition in
      let shipPosition := set_y (canvas_height canvas - 32) shipPosition in
      let ship := setComponent PositionComponent shipPosition ship in
      let ship := addComponent (new_InteractableComponent doFn) ship in
      let ship :=
        addComponent
          (new_BoundaryComponent 0 0 (canvas_width canvas) (canvas_height canvas)) ship in
      addComponent new_UserCharacterComponent ship
  | _, _ => ship
  end.

(** The input state: key name to ["mousedown"] or ["mouseup"]. *)
Abbreviation Keys := (gmap string string).

(** [keys[k1] === state || keys[k2] === state || ...] *)
Definition pressed (keys : Keys) (state : string) (names : list string) : bool :=
  existsb (fun k => bool_decide (keys !! k = Some state)) names.

(** The six key tests at the head of [shipInteractable], in the order
    of the source, applied to the ship's velocity. *)
Definition steer (keys : Keys) (velocity : Component) : Component :=
  let velocity :=
    if pressed keys "mouseup" ["ArrowUp"; "k"; "w"; "ArrowDown"; "j"; "s"]
    then set_y 0 velocity else velocity in
  let velocity :=
    if pressed keys "mouseup" ["ArrowLeft"; "h"; "a"; "ArrowRight"; "l"; "d"]
    then set_x 0 velocity else velocity in
  let velocity :=
    if pressed keys "mousedown" ["ArrowUp"; "k"; "w"]
    then set_y (-4) velocity else velocity in
  let velocity :=
    if pressed keys "mousedown" ["ArrowDown"; "j"; "s"]
    then set_y 4 velocity else velocity in
  let velocity :=
    if pressed keys "mousedown" ["ArrowLeft"; "h"; "a"]
    then set_x (-4) velocity else velocity in
  let velocity :=
    if pressed keys "mousedown" ["ArrowRight"; "l"; "d"]
    then set_x 4 velocity else velocity in
  velocity.

(** The closure [shipInteractable] of [PlayerShipAssemblage] for the
    ship [ship]. [now_test] and [now_stamp] are the results of the two
    calls of [Date.now()] (the first is made only when [lastFired] is not
    0). *)
Definition shipInteractable (canvas : Canvas) (keys : Keys) (now_test now_stamp : Z)
    (ship : ref) (s : State) : completion :=
  match getComponent (deref s ship) VelocityComponent with
  | None => Normal s
  | Some velocity =>
      let velocity := steer keys velocity in
      let s := mutate ship (setComponent VelocityComponent velocity) s in
      let blaster := getComponent (deref s ship) BlasterComponent in
      if pressed keys "mousedown" [" "] then
        match blaster with
        | None => Throw s
        | Some blaster =>
            if negb (lastFired blaster =? 0)%Z && (now_test - lastFired blaster <? 100)%Z
            then Normal s
            else
              let blaster := set_lastFired now_stamp blaster in
              let s := mutate ship (setComponent BlasterComponent blaster) s in
              let '(bullet, s) := allocate (BulletAssemblage canvas) s in
              let bulletWhitelist := getComponent (deref s bullet) WhitelistComponent in
              let shipWhitelist := getComponent (deref s ship) WhitelistComponent in
              match bulletWhitelist with
              | None => Throw s
              | Some bulletWhitelist =>
                  let s :=
                    mutate bullet
                      (setComponent WhitelistComponent
                         (whitelist_push ship bulletWhitelist)) s in
                  match shipWhitelist with
                  | None => Throw s
                  | Some shipWhitelist =>
                      let s :=
                        mutate ship
                          (setComponent WhitelistComponent
                             (whitelist_push bullet shipWhitelist)) s in
                      match getComponent (deref s bullet) PositionComponent,
                            getComponent (deref s bullet) VelocityComponent,
                            getComponent (deref s bullet) RectangleComponent,
                            getComponent (deref s bullet) BoundaryComponent,
                            getComponent (deref s ship) PositionComponent,
                            getComponent (deref s ship) RectangleComponent with
                      | Some bulletPosition, Some bulletVelocity, Some bulletRectangle,
                        Some bulletBoundary, Some shipPosition, Some shipRectangle =>
                          let bulletBoundary :=
                            set_width (canvas_width canvas) bulletBoundary in
                          let bulletBoundary :=
                            set_height (canvas_height canvas) bulletBoundary in
                          let bulletPosition :=
                            set_x (x shipPosition + width shipRectangle / 2
                                   - width bulletRectangle / 2) bulletPosition in
                          let bulletPosition := set_y (y shipPosition) bulletPosition in
                          let bulletVelocity := set_y (-8) bulletVelocity in
                          let s :=
                            mutate bullet
                              (fun e =>
                                 setComponent VelocityComponent bulletVelocity
                                   (setComponent PositionComponent bulletPosition
                                      (setComponent BoundaryComponent bulletBoundary e))) s in
                          Normal (World_addEntity bullet s)
                      | _, _, _, _, _, _ => Throw s
                      end
                  end
              end
        end
      else Normal s
  end.

(** [InteractableSystem.update]. The handle of an Interactable
    component names the ship whose [shipInteractable] it holds;
    [clock i] gives the two clock readings of the call made for slot
    [i]. *)
Definition InteractableSystem_callback (canvas : Canvas) (keys : Keys)
    (clock : nat -> Z * Z) (entity : option ref) (i : nat) (s : State) : completion :=
  match entity with
  | None => Normal s
  | Some entity =>
      match getComponent (deref s entity) InteractableComponent with
      | None => Normal s
      | Some (new_InteractableComponent doFn) =>
          shipInteractable canvas keys (fst (clock i)) (snd (clock i)) doFn s
      | Some _ => Normal s
      end
  end.

Definition InteractableSystem_update (canvas : Canvas) (keys : Keys)
    (clock : nat -> Z * Z) (s : State) : completion :=
  forEach (InteractableSystem_callback canvas keys clock) s.

(** ** World: systems, update, reset *)

(** The main loop of the page, its keyboard listeners and RenderSystem
    schedule frames, fill the input state and draw; they are the
    environment of the world and are not modelled. Of the loop only the
    calls it makes are: [world.reset(init)], [world.update()] and
    [EndGameSystem.update]. *)

(** The systems that can be registered: the seven classes [init]
    registers, the base class (whose [update] throws) and an object
    without an [update] method. *)
Inductive System :=
  | BoundarySystem
  | MovementSystem
  | CollisionSystem
  | BoundaryRemovalSystem
  | InteractableSystem
  | EntitiesCounterSystem
  | SpawnSystem
  | BaseSystem
  | NoUpdate.

(** The page is taken to have its [canvas] element, as the listener
    of [DOMContentLoaded] checks before anything else runs. *)

(** What one tick reads from outside the world: the canvas, the input
    state, the clock readings of the behaviour called for each slot, the
    readings of SpawnSystem, and whether the page has the element
    [entities-count] that EntitiesCounterSystem writes to. *)
Record Env := mkEnv {
  env_canvas : Canvas;
  env_keys : Keys;
  env_clock : nat -> Z * Z;
  env_spawn : Readings;
  env_counter : bool
}.

(** [system.update(this.entities)], with the test [!system.update] of
    [World.update] for the object without the method.
    EntitiesCounterSystem only writes its report to the page, and throws
    when [getElementById] gives [null]. *)
Definition System_update (env : Env) (system : System) (s : State) : completion :=
  match system with
  | BoundarySystem => BoundarySystem_update s
  | MovementSystem => MovementSystem_update s
  | CollisionSystem => CollisionSystem_update s
  | BoundaryRemovalSystem => BoundaryRemovalSystem_update s
  | InteractableSystem =>
      InteractableSystem_update (env_canvas env) (env_keys env) (env_clock env) s
  | EntitiesCounterSystem => if env_counter env then Normal s else Throw s
  | SpawnSystem => SpawnSystem_update (env_canvas env) (env_spawn env) s
  | BaseSystem => Throw s
  | NoUpdate => Throw s
  end.

Record World := mkWorld {
  world_state : State;
  systems : list System
}.

(** [World.addSystem] *)
Definition World_addSystem (system : System) (w : World) : World :=
  mkWorld (world_state w) (systems w ++ [system]).

(** [this.systems.forEach(...)] of [World.update]: the systems run in
    the order of registration and a throw ends the tick. *)
Fixpoint run_systems (env : Env) (l : list System) (s : State) : completion :=
  match l with
  | [] => Normal s
  | system :: rest =>
      match System_update env system s with
      | Normal s' => run_systems env rest s'
      | Throw s' => Throw s'
      end
  end.

Definition World_update (env : Env) (w : World) : completion :=
  run_systems env (systems w) (world_state w).

(** [World.reset]: both arrays are emptied, then [onReset] runs. The
    entity objects of the old array stay in the heap, out of reach. *)
Definition World_reset (onReset : World -> World) (w : World) : World :=
  onReset (mkWorld (mkState (heap (world_state w)) []) []).

(** [init] of the page: the seven systems, the player ship and the
    spawner. The ship's behaviour closes over the ship itself. *)
Definition init (canvas : Canvas) (newWorld : World) : World :=
  let w := World_addSystem BoundarySystem newWorld in
  let w := World_addSystem MovementSystem w in
  let w := World_addSystem CollisionSystem w in
  let w := World_addSystem BoundaryRemovalSystem w in
  let w := World_addSystem InteractableSystem w in
  let w := World_addSystem EntitiesCounterSystem w in
  let w := World_addSystem SpawnSystem w in
  let self := fresh (dom (heap (world_state w))) in
  let '(ship, s) := allocate (PlayerShipAssemblage canvas self) (world_state w) in
  let '(spawner, s) := allocate EnemySpawnerAssemblage s in
  let s := World_addEntity ship s in
  let s := World_addEntity spawner s in
  mkWorld s (systems w).

(** [new World()], before any entity object exists. *)
Definition new_World : World := mkWorld (mkState ∅ []) [].

(** Successive calls of [world.update()], one for each element of
    [envs], as the [while] of the main loop makes them; a throw ends the
    run. *)
Fixpoint World_updates (envs : list Env) (w : World) : completion :=
  match envs with
  | [] => Normal (world_state w)
  | env :: rest =>
      match World_update env w with
      | Normal s => World_updates rest (mkWorld s (systems w))
      | Throw s => Throw s
      end
  end.

(** ** Well-built entity objects *)

(** Component classes are compared by [===]. *)
#[global] Instance ComponentName_eq_dec : EqDecision ComponentName.
Proof. solve_decision. Defined.

(** [e'] has components of the same classes as [e], and the same
    Interactable component. *)
Definition same_shape (e e' : Entity) : Prop :=
  (forall n, is_Some (getComponent e' n) <-> is_Some (getComponent e n)) /\
  getComponent e' InteractableComponent = getComponent e InteractableComponent.

(** What BoundaryRemovalSystem reads is there. *)
Definition removal_safe (e : Entity) : Prop :=
  is_Some (getComponent e PositionComponent) ->
  is_Some (getComponent e RemovableAtBoundaryComponent) ->
  is_Some (getComponent e RectangleComponent) /\
  is_Some (getComponent e BoundaryComponent).

(** What [shipInteractable] reads is there. *)
Definition fire_safe (e : Entity) : Prop :=
  is_Some (getComponent e VelocityComponent) ->
  is_Some (getComponent e BlasterComponent) /\
  is_Some (getComponent e WhitelistComponent) /\
  is_Some (getComponent e PositionComponent) /\
  is_Some (getComponent e RectangleComponent).

(** Every entity object of the heap has what BoundaryRemovalSystem
    reads, and every behaviour stored in an Interactable component belongs
    to an entity object that has what [shipInteractable] reads. *)
Definition sound (s : State) : Prop :=
  (forall r e, heap s !! r = Some e -> removal_safe e) /\
  (forall r e (doFn : ref),
     heap s !! r = Some e ->
     getComponent e InteractableComponent = Some (new_InteractableComponent doFn) ->
     exists ship, heap s !! doFn = Some ship /\ fire_safe ship).

(** From [s] to [s'] the entity objects keep their shape, and the new
    ones are removal-safe and have no behaviour. *)
Definition grows (s s' : State) : Prop :=
  forall r,
    match heap s !! r, heap s' !! r with
    | Some e, Some e' => same_shape e e'
    | None, Some e' => removal_safe e' /\ getComponent e' InteractableComponent = None
    | Some _, None => False
    | None, None => True
    end.

(** A system whose [update] does not throw by itself: it is one of the
    seven classes with an [update] method of their own, and the page has
    the element EntitiesCounterSystem writes to. *)
Definition registered (env : Env) (system : System) : Prop :=
  match system with
  | BaseSystem | NoUpdate => False
  | EntitiesCounterSystem => env_counter env = true
  | _ => True
  end.

(** The state a completion leaves, normal or not. *)
Definition state_of (c : completion) : State :=
  match c with
  | Normal s => s
  | Throw s => s
  end.

(** Whoever is on a whitelist in [s] is on it in [s']. *)
Definition exemptions_kept (s s' : State) : Prop :=
  forall a b,
    includes (getComponent (deref s a) WhitelistComponent) b = true ->
    includes (getComponent (deref s' a) WhitelistComponent) b = true.

(** ** Sample states for the further properties *)

(** A player (UserCharacter) overlapping an enemy, and a spawner. *)
Definition endgame_sample : State :=
  mkState
    (<[0%nat := new_Entity
         [new_PositionComponent 0 0; new_VelocityComponent 0 0;
          new_RectangleComponent 32 16; new_UserCharacterComponent]]>
       (<[1%nat := new_Entity
            [new_PositionComponent 10 10; new_RectangleComponent 32 16]]>
          (<[2%nat := EnemySpawnerAssemblage]> ∅)))
    [Some 0%nat; Some 1%nat; Some 2%nat].

(** The player ship of a 450 x 800 canvas in slot 0 (its behaviour
    handle names reference 0), and the spawner. *)
Definition player_sample : State :=
  mkState
    (<[0%nat := PlayerShipAssemblage sample_canvas 0%nat]>
       (<[1%nat := EnemySpawnerAssemblage]> ∅))
    [Some 0%nat; Some 1%nat].

(** A ship inside its boundary, moving right and down. *)
Definition boundary_inside : State :=
  mkState
    (<[0%nat := new_Entity
         [new_PositionComponent 10 20; new_VelocityComponent 1 1;
          new_RectangleComponent 32 16; new_BoundaryComponent 0 0 450 100]]> ∅)
    [Some 0%nat].

Definition fire_keys : Keys := <["ArrowLeft" := "mousedown"]> (<[" " := "mousedown"]> ∅).

(** Readings of one tick at time 1000, on a page with the counter
    element, the fire key and the left arrow held. *)
Definition sample_env : Env :=
  mkEnv sample_canvas fire_keys (fun _ => (1000, 1000)%Z) (readings_at 1000) true.
(** * Properties *)

(** ** Numbers *)

Lemma Qltb_true (a b : Q) : Qltb a b = true <-> a < b.
Proof.
  unfold Qltb. rewrite Qlt_alt.
  destruct (a ?= b); split; intros H; congruence.
Qed.

Lemma Qltb_false (a b : Q) : Qltb a b = false <-> b <= a.
Proof.
  rewrite <- not_true_iff_false, Qltb_true.
  split; [apply Qnot_lt_le | apply Qle_not_lt].
Qed.

Lemma Qltb_irrefl (a b : Q) : a == b -> Qltb a b = false.
Proof. intros H. apply Qltb_false. rewrite H. apply Qle_refl. Qed.

(** ** Components and entities *)

Lemma instanceof_inj (c : Component) (n m : ComponentName) :
  instanceof c n = true -> instanceof c m = true -> n = m.
Proof.
  destruct c, n; simpl; intros H1 H2; try discriminate H1;
    destruct m; simpl in H2; try discriminate H2; reflexivity.
Qed.

Lemma getComponent_instanceof (e : Entity) (n : ComponentName) (c : Component) :
  getComponent e n = Some c -> instanceof c n = true.
Proof. intros H. apply find_some in H. tauto. Qed.

Lemma replaceFirst_same (n : ComponentName) (c : Component) (cs : list Component) :
  List.find (fun c0 => instanceof c0 n) cs = Some c -> replaceFirst n c cs = cs.
Proof.
  induction cs as [|c0 cs IH]; simpl; [done|].
  destruct (instanceof c0 n); intros H.
  - by injection H as ->.
  - by rewrite IH.
Qed.

Lemma replaceFirst_absent (n : ComponentName) (c : Component) (cs : list Component) :
  List.find (fun c0 => instanceof c0 n) cs = None -> replaceFirst n c cs = cs.
Proof.
  induction cs as [|c0 cs IH]; simpl; [done|].
  destruct (instanceof c0 n); intros H; [discriminate|]. by rewrite IH.
Qed.

Lemma find_replaceFirst_same (n : ComponentName) (c c0 : Component) (cs : list Component) :
  List.find (fun c1 => instanceof c1 n) cs = Some c0 ->
  instanceof c n = true ->
  List.find (fun c1 => instanceof c1 n) (replaceFirst n c cs) = Some c.
Proof.
  induction cs as [|c1 cs IH]; simpl; [done|].
  destruct (instanceof c1 n) eqn:E; intros H Hc; simpl.
  - by rewrite Hc.
  - rewrite E. by apply IH.
Qed.

Lemma find_replaceFirst_other (n m : ComponentName) (c : Component) (cs : list Component) :
  n <> m -> instanceof c n = true ->
  List.find (fun c1 => instanceof c1 m) (replaceFirst n c cs)
  = List.find (fun c1 => instanceof c1 m) cs.
Proof.
  intros Hnm Hc. induction cs as [|c1 cs IH]; simpl; [done|].
  destruct (instanceof c1 n) eqn:E; simpl.
  - destruct (instanceof c m) eqn:E1.
    { exfalso. apply Hnm. by apply (instanceof_inj c). }
    destruct (instanceof c1 m) eqn:E2; [|done].
    exfalso. apply Hnm. by apply (instanceof_inj c1).
  - by rewrite IH.
Qed.

Lemma setComponent_same (n : ComponentName) (c : Component) (e : Entity) :
  getComponent e n = Some c -> setComponent n c e = e.
Proof.
  destruct e as [cs]. unfold getComponent, setComponent. simpl.
  intros H. by rewrite replaceFirst_same.
Qed.

Lemma setComponent_absent (n : ComponentName) (c : Component) (e : Entity) :
  getComponent e n = None -> setComponent n c e = e.
Proof.
  destruct e as [cs]. unfold getComponent, setComponent. simpl.
  intros H. by rewrite replaceFirst_absent.
Qed.

Lemma getComponent_setComponent_same (n : ComponentName) (c c0 : Component) (e : Entity) :
  getComponent e n = Some c0 -> instanceof c n = true ->
  getComponent (setComponent n c e) n = Some c.
Proof. unfold getComponent, setComponent. simpl. apply find_replaceFirst_same. Qed.

Lemma getComponent_setComponent_other (n m : ComponentName) (c : Component) (e : Entity) :
  n <> m -> instanceof c n = true ->
  getComponent (setComponent n c e) m = getComponent e m.
Proof. unfold getComponent, setComponent. simpl. apply find_replaceFirst_other. Qed.

Lemma instanceof_set_x (v : Q) (c : Component) (n : ComponentName) :
  instanceof (set_x v c) n = instanceof c n.
Proof. by destruct c. Qed.

Lemma instanceof_set_y (v : Q) (c : Component) (n : ComponentName) :
  instanceof (set_y v c) n = instanceof c n.
Proof. by destruct c. Qed.

Lemma deref_lookup (s : State) (r : ref) (e : Entity) :
  heap s !! r = Some e -> deref s r = e.
Proof. unfold deref. by intros ->. Qed.

Lemma getComponent_deref_is_Some (s : State) (r : ref) (n : ComponentName) (c : Component) :
  getComponent (deref s r) n = Some c -> heap s !! r = Some (deref s r).
Proof.
  unfold deref. destruct (heap s !! r); simpl; [done|].
  unfold getComponent. simpl. discriminate.
Qed.

(** ** forEach *)

(** A pass whose callback mutates entity objects and leaves the slot
    array alone visits the slots from left to right. *)
Section HeapPass.
Variable g : Entity -> Entity.
Variable callback : option ref -> nat -> State -> completion.

Hypothesis callback_visit :
  forall element k s, callback element k s = Normal (visit g s element).

Lemma visit_entities (s : State) (el : option ref) :
  entities (visit g s el) = entities s.
Proof. by destruct el. Qed.

Lemma foldl_visit_entities (l : list (option ref)) (s : State) :
  entities (foldl (visit g) s l) = entities s.
Proof.
  revert s. induction l as [|el l IH]; intros s; simpl; [done|].
  by rewrite IH, visit_entities.
Qed.

Lemma forEach_from_visit (n k : nat) (s : State) :
  (k + n = length (entities s))%nat ->
  forEach_from callback k n s = Normal (foldl (visit g) s (drop k (entities s))).
Proof.
  revert k s. induction n as [|n IH]; intros k s Hlen; simpl.
  - rewrite drop_ge by lia. done.
  - destruct (entities s !! k) as [el|] eqn:Hk.
    + rewrite callback_visit.
      rewrite IH by (rewrite visit_entities; lia).
      rewrite visit_entities.
      by rewrite (drop_S _ _ _ Hk).
    + apply lookup_ge_None in Hk. lia.
Qed.

Lemma forEach_visit (s : State) :
  forEach callback s = Normal (foldl (visit g) s (entities s)).
Proof. unfold forEach. by rewrite forEach_from_visit. Qed.

Lemma foldl_visit_heap (l : list (option ref)) (s : State) (r : ref) :
  heap (foldl (visit g) s l) !! r = Nat.iter (occurrences r l) g <$> heap s !! r.
Proof.
  revert s. induction l as [|el l IH]; intros s; simpl.
  - unfold occurrences. simpl. by destruct (heap s !! r).
  - rewrite IH. unfold occurrences. rewrite filter_cons.
    destruct (decide (el = Some r)) as [->|Hne]; simpl.
    + rewrite lookup_alter_eq. destruct (heap s !! r); simpl; [|done].
      f_equal. symmetry. apply (Nat.iter_succ_r _ g e).
    + destruct el as [r'|]; simpl; [|done].
      rewrite lookup_alter_ne by congruence. done.
Qed.
End HeapPass.

(** ** World.addEntity *)

Lemma addEntity_first_null (entity : ref) (slots : list (option ref)) (i : nat) :
  slots !! i = Some None ->
  (forall k, (k < i)%nat -> slots !! k <> Some None) ->
  addEntity entity slots = <[i := Some entity]> slots.
Proof.
  revert i. induction slots as [|el slots IH]; intros i Hi Hmin; [done|].
  destruct i as [|i]; simpl in *.
  - by injection Hi as ->.
  - destruct el as [e|].
    + f_equal. apply IH; [done|].
      intros k Hk. apply (Hmin (S k)). lia.
    + exfalso. apply (Hmin 0%nat); [lia|done].
Qed.

Lemma addEntity_no_null (entity : ref) (slots : list (option ref)) :
  (forall k, slots !! k <> Some None) ->
  addEntity entity slots = slots ++ [Some entity].
Proof.
  induction slots as [|el slots IH]; intros Hfull; [done|].
  destruct el as [e|]; simpl.
  - f_equal. apply IH. intros k. apply (Hfull (S k)).
  - exfalso. by apply (Hfull 0%nat).
Qed.

(** Where the scan puts the entity: at the first [null] slot, or past
    the end when there is none; no other slot changes. *)
Lemma addEntity_placed (entity : ref) (slots : list (option ref)) :
  exists i,
    addEntity entity slots !! i = Some (Some entity) /\
    (slots !! i = Some None \/ i = length slots) /\
    (forall k, (k < i)%nat -> slots !! k <> Some None) /\
    (forall k, k <> i -> addEntity entity slots !! k = slots !! k).
Proof.
  induction slots as [|[e0|] slots IH]; simpl.
  - exists 0%nat. split; [done|]. split; [by right|]. split; [intros k Hk; lia|].
    intros k Hk. by destruct k.
  - destruct IH as (i & H1 & H2 & H3 & H4). exists (S i). split; [done|].
    split; [destruct H2 as [H2 | ->]; [by left|by right]|]. split.
    + intros k Hk. destruct k as [|k]; simpl; [discriminate|]. apply H3. lia.
    + intros k Hk. destruct k as [|k]; simpl; [done|]. apply H4. lia.
  - exists 0%nat. split; [done|]. split; [by left|]. split; [intros k Hk; lia|].
    intros k Hk. by destruct k.
Qed.

(** C9. [World.addEntity(e)] writes [e] into the lowest-indexed [null]
    slot and leaves every other slot (and the heap) as it was; when no
    slot is [null] it appends [e].  With exactly one tombstone among the
    [N] slots, [e] ends up at the tombstone's index and the array still
    has [N] slots. *)
Theorem World_addEntity_spec (entity : ref) (s : State) :
  heap (World_addEntity entity s) = heap s /\
  (forall i,
     entities s !! i = Some None ->
     (forall k, (k < i)%nat -> entities s !! k <> Some None) ->
     entities (World_addEntity entity s) = <[i := Some entity]> (entities s)) /\
  ((forall k, entities s !! k <> Some None) ->
     entities (World_addEntity entity s) = entities s ++ [Some entity]) /\
  (forall i,
     entities s !! i = Some None ->
     (forall k, entities s !! k = Some None -> k = i) ->
     entities (World_addEntity entity s) !! i = Some (Some entity) /\
     length (entities (World_addEntity entity s)) = length (entities s)).
Proof.
  split; [done|]. split; [|split].
  - intros i Hi Hmin. by apply addEntity_first_null.
  - intros Hfull. by apply addEntity_no_null.
  - intros i Hi Huniq. simpl.
    rewrite (addEntity_first_null entity (entities s) i Hi).
    + rewrite length_insert. split; [|done].
      apply list_lookup_insert_eq. by apply lookup_lt_Some in Hi.
    + intros k Hk Hnull. apply Huniq in Hnull. lia.
Qed.

Lemma World_addEntity_spec_witness :
  entities (World_addEntity 7%nat (mkState ∅ [Some 1%nat; None; Some 2%nat]))
  = [Some 1%nat; Some 7%nat; Some 2%nat]
  /\ entities (World_addEntity 7%nat (mkState ∅ [Some 1%nat; Some 2%nat]))
     = [Some 1%nat; Some 2%nat; Some 7%nat].
Proof.
  split.
  - apply (proj1 (proj2 (World_addEntity_spec 7%nat
             (mkState ∅ [Some 1%nat; None; Some 2%nat]))) 1%nat).
    + reflexivity.
    + intros k Hk. destruct k as [|k]; [discriminate|lia].
  - apply (proj1 (proj2 (proj2 (World_addEntity_spec 7%nat
             (mkState ∅ [Some 1%nat; Some 2%nat]))))).
    intros k. destruct k as [|[|k]]; discriminate.
Defined.

(** ** Mutation of entity objects *)

Lemma mutate_id (r : ref) (g : Entity -> Entity) (s : State) :
  (forall e, heap s !! r = Some e -> g e = e) -> mutate r g s = s.
Proof.
  intros H. destruct s as [h l]. unfold mutate. simpl in *.
  f_equal. by apply alter_id.
Qed.

Lemma mutate_ext (r : ref) (f g : Entity -> Entity) (s : State) :
  (forall e, heap s !! r = Some e -> f e = g e) -> mutate r f s = mutate r g s.
Proof.
  intros H. unfold mutate. f_equal. by apply alter_ext.
Qed.

Lemma deref_None (s : State) (r : ref) (n : ComponentName) :
  heap s !! r = None -> getComponent (deref s r) n = None.
Proof. unfold deref. by intros ->. Qed.

Lemma occurrences_0 (r : ref) (l : list (option ref)) :
  (forall k, l !! k <> Some (Some r)) -> occurrences r l = 0%nat.
Proof.
  unfold occurrences. induction l as [|el l IH]; intros H; [done|].
  rewrite filter_cons. destruct (decide (el = Some r)) as [->|Hne].
  - exfalso. by apply (H 0%nat).
  - apply IH. intros k. apply (H (S k)).
Qed.

Lemma occurrences_1 (r : ref) (l : list (option ref)) (i : nat) :
  l !! i = Some (Some r) ->
  (forall k, l !! k = Some (Some r) -> k = i) ->
  occurrences r l = 1%nat.
Proof.
  unfold occurrences. revert i. induction l as [|el l IH]; intros i Hi Huniq; [done|].
  rewrite filter_cons. destruct i as [|i]; simpl in Hi.
  - injection Hi as ->. rewrite decide_True by done. simpl. f_equal.
    apply occurrences_0. intros k Hk. by specialize (Huniq (S k) Hk).
  - destruct (decide (el = Some r)) as [->|Hne].
    + by specialize (Huniq 0%nat eq_refl).
    + apply (IH i Hi). intros k Hk. specialize (Huniq (S k) Hk). lia.
Qed.

Lemma iter_fixpoint {A : Type} (g : A -> A) (a : A) (n : nat) :
  g a = a -> Nat.iter n g a = a.
Proof. intros H. induction n as [|n IH]; simpl; [done|]. by rewrite IH. Qed.

Lemma iter_idempotent {A : Type} (g : A -> A) (a : A) (n : nat) :
  g (g a) = g a -> Nat.iter (S n) g a = g a.
Proof. intros H. induction n as [|n IH]; [done|]. simpl in *. by rewrite IH. Qed.

(** ** MovementSystem *)

Lemma MovementSystem_callback_visit (element : option ref) (k : nat) (s : State) :
  MovementSystem_callback element k s = Normal (visit MovementSystem_entity s element).
Proof.
  destruct element as [r|]; [|done]. simpl.
  destruct (heap s !! r) as [e|] eqn:Hr.
  - rewrite (deref_lookup _ _ _ Hr).
    destruct (getComponent e PositionComponent) as [p|] eqn:Hp;
      [destruct (getComponent e VelocityComponent) as [v|] eqn:Hv|];
      f_equal.
    + apply mutate_ext. intros e' He'. assert (e' = e) as -> by congruence.
      unfold MovementSystem_entity. by rewrite Hp, Hv.
    + symmetry. apply mutate_id. intros e' He'. assert (e' = e) as -> by congruence.
      unfold MovementSystem_entity. by rewrite Hp, Hv.
    + symmetry. apply mutate_id. intros e' He'. assert (e' = e) as -> by congruence.
      unfold MovementSystem_entity. by rewrite Hp.
  - rewrite !deref_None by done. f_equal. symmetry. apply mutate_id. congruence.
Qed.

(** C8. One MovementSystem tick completes normally and leaves the slot
    array as it was; an entity that occupies one slot and carries
    Position(x,y) and Velocity(vx,vy) has its position set to
    (x+vx, y+vy), the rest of the entity being untouched; an entity
    lacking Position or lacking Velocity is unchanged. *)
Theorem MovementSystem_update_spec (s : State) :
  exists s',
    MovementSystem_update s = Normal s' /\
    entities s' = entities s /\
    (forall entity i position velocity,
       entities s !! i = Some (Some entity) ->
       (forall k, entities s !! k = Some (Some entity) -> k = i) ->
       getComponent (deref s entity) PositionComponent = Some position ->
       getComponent (deref s entity) VelocityComponent = Some velocity ->
       deref s' entity =
         setComponent PositionComponent
           (new_PositionComponent (x position + x velocity) (y position + y velocity))
           (deref s entity)) /\
    (forall entity,
       getComponent (deref s entity) PositionComponent = None \/
       getComponent (deref s entity) VelocityComponent = None ->
       heap s' !! entity = heap s !! entity).
Proof.
  unfold MovementSystem_update.
  rewrite (forEach_visit _ _ MovementSystem_callback_visit).
  eexists. split; [reflexivity|]. split; [apply foldl_visit_entities|]. split.
  - intros entity i position velocity Hi Huniq Hp Hv.
    unfold deref at 1. rewrite foldl_visit_heap.
    rewrite (occurrences_1 _ _ _ Hi Huniq).
    rewrite (getComponent_deref_is_Some _ _ _ _ Hp). simpl.
    unfold MovementSystem_entity. rewrite Hp, Hv.
    apply getComponent_instanceof in Hp. by destruct position.
  - intros entity Hlack. rewrite foldl_visit_heap.
    destruct (heap s !! entity) as [e|] eqn:He; [|done]. simpl. f_equal.
    apply iter_fixpoint. rewrite (deref_lookup _ _ _ He) in Hlack.
    unfold MovementSystem_entity.
    destruct Hlack as [-> | ->]; [done|].
    by destruct (getComponent e PositionComponent).
Qed.

Lemma MovementSystem_update_spec_witness :
  exists s',
    MovementSystem_update movement_sample = Normal s' /\
    deref s' 0%nat
      = new_Entity [new_PositionComponent (1 + 3) (2 + 4); new_VelocityComponent 3 4] /\
    heap s' !! 1%nat = Some (new_Entity [new_PositionComponent 5 5]).
Proof.
  destruct (MovementSystem_update_spec movement_sample) as (s' & Hrun & _ & Hmove & Hkeep).
  exists s'. split; [exact Hrun|]. split.
  - rewrite (Hmove 0%nat 0%nat (new_PositionComponent 1 2) (new_VelocityComponent 3 4)).
    + reflexivity.
    + reflexivity.
    + intros k Hk. destruct k as [|[|[|k]]]; try discriminate Hk; reflexivity.
    + reflexivity.
    + reflexivity.
  - transitivity (heap movement_sample !! 1%nat); [|reflexivity].
    apply (Hkeep 1%nat). right. reflexivity.
Defined.

(** ** BoundarySystem *)

Ltac reflect_Qltb :=
  repeat match goal with
    | H : Qltb _ _ = true |- _ => apply Qltb_true in H
    | H : Qltb _ _ = false |- _ => apply Qltb_false in H
    end.

Lemma BoundarySystem_callback_visit (element : option ref) (k : nat) (s : State) :
  BoundarySystem_callback element k s = Normal (visit BoundarySystem_entity s element).
Proof.
  destruct element as [r|]; [|done]. simpl.
  destruct (heap s !! r) as [e|] eqn:Hr.
  - rewrite (deref_lookup _ _ _ Hr).
    destruct (getComponent e PositionComponent) as [p|] eqn:Hp;
      [destruct (getComponent e RectangleComponent) as [rc|] eqn:Hrc;
       [destruct (getComponent e BoundaryComponent) as [b|] eqn:Hb;
        [destruct (getComponent e VelocityComponent) as [v|] eqn:Hv|]|]|].
    1: destruct (BoundarySystem_clamp p rc b v) as [p' v'] eqn:Hc.
    all: f_equal.
    1: apply mutate_ext.
    2-5: symmetry; apply mutate_id.
    all: intros e' He'; assert (e' = e) as -> by congruence.
    all: unfold BoundarySystem_entity; rewrite ?Hp, ?Hrc, ?Hb, ?Hv, ?Hc; done.
  - rewrite !deref_None by done. f_equal. symmetry. apply mutate_id. congruence.
Qed.

Lemma BoundarySystem_clamp_spec (position rectangle boundary velocity p' v' : Component) :
  instanceof position PositionComponent = true ->
  instanceof velocity VelocityComponent = true ->
  BoundarySystem_clamp position rectangle boundary velocity = (p', v') ->
  instanceof p' PositionComponent = true /\
  instanceof v' VelocityComponent = true /\
  axis_clamped (x position) (x boundary) (width boundary) (width rectangle)
    (x velocity) (x p') (x v') /\
  axis_clamped (y position) (y boundary) (height boundary) (height rectangle)
    (y velocity) (y p') (y v').
Proof.
  intros Hp Hv.
  destruct position as [px py| | | | | | | | | | |]; try discriminate Hp.
  destruct velocity as [|vx vy| | | | | | | | | |]; try discriminate Hv.
  unfold BoundarySystem_clamp. simpl.
  repeat (match goal with
          | |- context [Qltb ?a ?b] => destruct (Qltb a b) eqn:?
          end; simpl).
  all: intros [= <- <-]; simpl; split; [done|split; [done|]].
  all: reflect_Qltb.
  all: split;
    [ exists (if Qltb px (x boundary) then 0 else px)
    | exists (if Qltb py (y boundary) then 0 else py) ].
  all: match goal with
       | |- context [if Qltb ?a ?b then _ else _] =>
           let E := fresh "E" in
           destruct (Qltb a b) eqn:E; reflect_Qltb
       end.
  all: try (exfalso; lra).
  all: repeat split; intros; try reflexivity; exfalso;
         repeat match goal with
           | H : ~ (_ \/ _) |- _ => apply Decidable.not_or in H; destruct H
           | H : _ \/ _ |- _ => destruct H
           end; lra.
Qed.

(** C6. For an entity that occupies one slot and carries Position,
    Rectangle, Boundary and Velocity, one BoundarySystem tick completes
    normally and, on each axis: a position below the boundary's origin is
    set to the literal 0 (not to the origin); after that, a position whose
    rectangle passes the far edge is set to origin + extent - size; and the
    velocity on the axis is set to 0 exactly when one of the two checks
    fired. *)
Theorem BoundarySystem_update_spec (s : State) (entity : ref) (i : nat)
    (position rectangle boundary velocity : Component) :
  entities s !! i = Some (Some entity) ->
  (forall k, entities s !! k = Some (Some entity) -> k = i) ->
  getComponent (deref s entity) PositionComponent = Some position ->
  getComponent (deref s entity) RectangleComponent = Some rectangle ->
  getComponent (deref s entity) BoundaryComponent = Some boundary ->
  getComponent (deref s entity) VelocityComponent = Some velocity ->
  exists s' position' velocity',
    BoundarySystem_update s = Normal s' /\
    getComponent (deref s' entity) PositionComponent = Some position' /\
    getComponent (deref s' entity) VelocityComponent = Some velocity' /\
    axis_clamped (x position) (x boundary) (width boundary) (width rectangle)
      (x velocity) (x position') (x velocity') /\
    axis_clamped (y position) (y boundary) (height boundary) (height rectangle)
      (y velocity) (y position') (y velocity').
Proof.
  intros Hi Huniq Hp Hrc Hb Hv.
  unfold BoundarySystem_update.
  rewrite (forEach_visit _ _ BoundarySystem_callback_visit).
  destruct (BoundarySystem_clamp position rectangle boundary velocity)
    as [p' v'] eqn:Hc.
  destruct (BoundarySystem_clamp_spec _ _ _ _ _ _
              (getComponent_instanceof _ _ _ Hp)
              (getComponent_instanceof _ _ _ Hv) Hc) as (Hp' & Hv' & Hx & Hy).
  eexists; exists p', v'. split; [reflexivity|].
  assert (deref (foldl (visit BoundarySystem_entity) s (entities s)) entity
          = setComponent VelocityComponent v'
              (setComponent PositionComponent p' (deref s entity))) as ->.
  { unfold deref at 1. rewrite foldl_visit_heap.
    rewrite (occurrences_1 _ _ _ Hi Huniq).
    rewrite (getComponent_deref_is_Some _ _ _ _ Hp). simpl.
    unfold BoundarySystem_entity. by rewrite Hp, Hrc, Hb, Hv, Hc. }
  split; [|split; [|done]].
  - rewrite getComponent_setComponent_other by done.
    by apply (getComponent_setComponent_same _ _ position).
  - apply (getComponent_setComponent_same _ _ velocity); [|done].
    by rewrite getComponent_setComponent_other.
Qed.

Lemma BoundarySystem_update_spec_witness :
  exists s' position' velocity',
    BoundarySystem_update boundary_sample = Normal s' /\
    getComponent (deref s' 0%nat) PositionComponent = Some position' /\
    getComponent (deref s' 0%nat) VelocityComponent = Some velocity' /\
    axis_clamped (-3) 0 450 32 (-4) (x position') (x velocity') /\
    axis_clamped 95 0 100 16 4 (y position') (y velocity').
Proof.
  apply (BoundarySystem_update_spec boundary_sample 0%nat 0%nat
           (new_PositionComponent (-3) 95) (new_RectangleComponent 32 16)
           (new_BoundaryComponent 0 0 450 100) (new_VelocityComponent (-4) 4)).
  - reflexivity.
  - intros k Hk. destruct k as [|k]; [reflexivity|discriminate Hk].
  - reflexivity.
  - reflexivity.
  - reflexivity.
  - reflexivity.
Defined.

(** *** Running the tick twice *)

Lemma BoundarySystem_clamp_with_exact :
  BoundarySystem_clamp_with Qplus Qminus Qltb = BoundarySystem_clamp.
Proof. reflexivity. Qed.

Lemma axis_unsettled_with_exact :
  axis_unsettled_with Qplus Qminus Qltb = axis_unsettled.
Proof. reflexivity. Qed.

(** The four checks treat the two axes apart. *)
Lemma BoundarySystem_clamp_with_axes (add sub : Q -> Q -> Q) (ltb : Q -> Q -> bool)
    (px py vx vy : Q) (rectangle boundary : Component) :
  BoundarySystem_clamp_with add sub ltb
    (new_PositionComponent px py) rectangle boundary (new_VelocityComponent vx vy)
  = (new_PositionComponent
       (fst (axis_clamp_with add sub ltb px (x boundary) (width boundary)
               (width rectangle) vx))
       (fst (axis_clamp_with add sub ltb py (y boundary) (height boundary)
               (height rectangle) vy)),
     new_VelocityComponent
       (snd (axis_clamp_with add sub ltb px (x boundary) (width boundary)
               (width rectangle) vx))
       (snd (axis_clamp_with add sub ltb py (y boundary) (height boundary)
               (height rectangle) vy))).
Proof.
  unfold BoundarySystem_clamp_with, axis_clamp_with. cbn [x y].
  destruct (ltb px (x boundary)) eqn:?, (ltb py (y boundary)) eqn:?;
    cbn [x y set_x set_y fst snd];
    repeat (match goal with
            | |- context [if ?c then _ else _] => destruct c eqn:?
            end; cbn [x y set_x set_y fst snd]);
    try reflexivity; congruence.
Qed.

(** Whatever the arithmetic is, on an axis that is not unsettled a
    second run of the two checks returns what the first run returned. The
    proof follows the outcomes of the comparisons and uses no law of
    [add], [sub] or [ltb]. *)
Lemma axis_clamp_with_idempotent (add sub : Q -> Q -> Q) (ltb : Q -> Q -> bool)
    (p lo extent size v : Q) :
  axis_unsettled_with add sub ltb p lo extent size = false ->
  axis_clamp_with add sub ltb
    (fst (axis_clamp_with add sub ltb p lo extent size v)) lo extent size
    (snd (axis_clamp_with add sub ltb p lo extent size v))
  = axis_clamp_with add sub ltb p lo extent size v.
Proof.
  unfold axis_unsettled_with, axis_clamp_with.
  repeat (cbv beta iota zeta delta [fst snd andb negb];
          match goal with
          | |- context [if ?c then _ else _] => destruct c eqn:?
          end).
  all: cbv beta iota zeta delta [fst snd andb negb]; intros H;
    try reflexivity; try discriminate H; congruence.
Qed.

Lemma BoundarySystem_clamp_with_idempotent (add sub : Q -> Q -> Q) (ltb : Q -> Q -> bool)
    (position rectangle boundary velocity p' v' : Component) :
  instanceof position PositionComponent = true ->
  instanceof velocity VelocityComponent = true ->
  axis_unsettled_with add sub ltb
    (x position) (x boundary) (width boundary) (width rectangle) = false ->
  axis_unsettled_with add sub ltb
    (y position) (y boundary) (height boundary) (height rectangle) = false ->
  BoundarySystem_clamp_with add sub ltb position rectangle boundary velocity = (p', v') ->
  BoundarySystem_clamp_with add sub ltb p' rectangle boundary v' = (p', v').
Proof.
  intros Hp Hv.
  destruct position as [px py| | | | | | | | | | |]; try discriminate Hp.
  destruct velocity as [|vx vy| | | | | | | | | |]; try discriminate Hv.
  cbn [x y]. intros Hx Hy.
  rewrite BoundarySystem_clamp_with_axes. intros [= <- <-].
  rewrite BoundarySystem_clamp_with_axes.
  by rewrite (axis_clamp_with_idempotent add sub ltb px _ _ _ vx Hx),
    (axis_clamp_with_idempotent add sub ltb py _ _ _ vy Hy).
Qed.

Lemma BoundarySystem_clamp_idempotent (position rectangle boundary velocity p' v' : Component) :
  instanceof position PositionComponent = true ->
  instanceof velocity VelocityComponent = true ->
  axis_unsettled (x position) (x boundary) (width boundary) (width rectangle) = false ->
  axis_unsettled (y position) (y boundary) (height boundary) (height rectangle) = false ->
  BoundarySystem_clamp position rectangle boundary velocity = (p', v') ->
  BoundarySystem_clamp p' rectangle boundary v' = (p', v').
Proof. apply (BoundarySystem_clamp_with_idempotent Qplus Qminus Qltb). Qed.

Lemma BoundarySystem_entity_idempotent (e : Entity) :
  settles e -> BoundarySystem_entity (BoundarySystem_entity e) = BoundarySystem_entity e.
Proof.
  intros Hset.
  destruct (getComponent e PositionComponent) as [p|] eqn:Hp;
    [destruct (getComponent e RectangleComponent) as [rc|] eqn:Hrc;
     [destruct (getComponent e BoundaryComponent) as [b|] eqn:Hb;
      [destruct (getComponent e VelocityComponent) as [v|] eqn:Hv|]|]|].
  2-5: assert (BoundarySystem_entity e = e) as Hid
         by (unfold BoundarySystem_entity; rewrite ?Hp, ?Hrc, ?Hb, ?Hv; done);
       by rewrite !Hid.
  destruct (BoundarySystem_clamp p rc b v) as [p' v'] eqn:Hc.
  destruct (Hset p rc b Hp Hrc Hb) as [Hx Hy].
  pose proof (getComponent_instanceof _ _ _ Hp) as Ip.
  pose proof (getComponent_instanceof _ _ _ Hv) as Iv.
  destruct (BoundarySystem_clamp_spec _ _ _ _ _ _ Ip Iv Hc) as (Ip' & Iv' & _).
  pose proof (BoundarySystem_clamp_idempotent _ _ _ _ _ _ Ip Iv Hx Hy Hc) as Hc'.
  assert (BoundarySystem_entity e
          = setComponent VelocityComponent v' (setComponent PositionComponent p' e))
    as -> by (unfold BoundarySystem_entity; by rewrite Hp, Hrc, Hb, Hv, Hc).
  set (e' := setComponent VelocityComponent v' (setComponent PositionComponent p' e)).
  assert (getComponent e' PositionComponent = Some p') as Hp'.
  { unfold e'. rewrite getComponent_setComponent_other by done.
    by apply (getComponent_setComponent_same _ _ p). }
  assert (getComponent e' VelocityComponent = Some v') as Hv'.
  { unfold e'. apply (getComponent_setComponent_same _ _ v); [|done].
    by rewrite getComponent_setComponent_other. }
  assert (getComponent e' RectangleComponent = Some rc) as Hrc'.
  { unfold e'. by rewrite !getComponent_setComponent_other. }
  assert (getComponent e' BoundaryComponent = Some b) as Hb'.
  { unfold e'. by rewrite !getComponent_setComponent_other. }
  unfold BoundarySystem_entity. rewrite Hp', Hrc', Hb', Hv', Hc'.
  by rewrite (setComponent_same _ _ _ Hp'), (setComponent_same _ _ _ Hv').
Qed.

Lemma State_eq (a b : State) :
  heap a = heap b -> entities a = entities b -> a = b.
Proof. destruct a, b. simpl. by intros -> ->. Qed.

Lemma occurrences_pos (r : ref) (l : list (option ref)) (n : nat) :
  occurrences r l = S n -> exists i, l !! i = Some (Some r).
Proof.
  intros Hn. destruct (decide (Some r ∈ l)) as [Hin|Hnotin].
  - by apply list_elem_of_lookup in Hin.
  - rewrite occurrences_0 in Hn; [discriminate|].
    intros k Hk. apply Hnotin. apply list_elem_of_lookup. eauto.
Qed.

(** C7, as the code has it. Running BoundarySystem a second time, with
    nothing moved in between, changes nothing (the state after two ticks
    is the state after one), unless some entity in a slot is unsettled on
    an axis: the first tick's far-edge check fires there and writes
    origin + extent - size, that value compares below the origin, and a
    rectangle at 0 does not pass the far edge; the second tick then moves
    the entity to the literal 0. The three tests are the comparisons the
    two ticks evaluate, on the sums and the difference as the code
    computes them, and the proof follows their outcomes only
    ([BoundarySystem_clamp_with_idempotent]): no law of arithmetic is
    used, so the statement does not depend on the numbers being exact. *)
Theorem BoundarySystem_update_idempotent (s : State) :
  (forall i entity, entities s !! i = Some (Some entity) -> settles (deref s entity)) ->
  exists s1,
    BoundarySystem_update s = Normal s1 /\
    BoundarySystem_update s1 = Normal s1.
Proof.
  intros Hset. unfold BoundarySystem_update.
  rewrite (forEach_visit _ _ BoundarySystem_callback_visit).
  eexists. split; [reflexivity|].
  rewrite (forEach_visit _ _ BoundarySystem_callback_visit).
  f_equal. apply State_eq.
  - apply map_eq. intros r.
    repeat (rewrite foldl_visit_heap || rewrite foldl_visit_entities).
    destruct (heap s !! r) as [e|] eqn:He; [|done]. simpl. f_equal.
    destruct (occurrences r (entities s)) as [|n] eqn:Hn; [done|].
    destruct (occurrences_pos _ _ _ Hn) as [i Hi].
    pose proof (Hset i r Hi) as Hse. rewrite (deref_lookup _ _ _ He) in Hse.
    pose proof (BoundarySystem_entity_idempotent e Hse) as Hidem.
    rewrite (iter_idempotent BoundarySystem_entity e n Hidem).
    rewrite (iter_idempotent BoundarySystem_entity (BoundarySystem_entity e) n);
      by rewrite ?Hidem.
  - by rewrite !foldl_visit_entities.
Qed.

Lemma BoundarySystem_update_idempotent_witness :
  exists s1,
    BoundarySystem_update boundary_sample = Normal s1 /\
    BoundarySystem_update s1 = Normal s1.
Proof.
  apply (BoundarySystem_update_idempotent boundary_sample).
  intros i entity Hi. destruct i as [|i]; [|discriminate Hi].
  injection Hi as <-. intros position rectangle boundary Hp Hrc Hb.
  injection Hp as <-. injection Hrc as <-. injection Hb as <-.
  split; reflexivity.
Defined.

(** C7, as stated, fails: an entity at x = 20 with a rectangle of width
    8 and a boundary of width 5 starting at x = 10 is unsettled on the x
    axis. The first tick puts the position at
    boundary.x + boundary.width - rectangle.width = 7, left of boundary.x,
    and the second tick moves it to 0. *)
Lemma BoundarySystem_twice_differs :
  axis_unsettled 20 10 5 8 = true /\
  exists s1 s2,
    BoundarySystem_update boundary_narrow = Normal s1 /\
    BoundarySystem_update s1 = Normal s2 /\
    getComponent (deref s1 0%nat) PositionComponent = Some (new_PositionComponent 7 0) /\
    getComponent (deref s2 0%nat) PositionComponent = Some (new_PositionComponent 0 0) /\
    s1 <> s2.
Proof.
  split; [reflexivity|].
  eexists. eexists.
  split; [vm_compute; reflexivity|].
  split; [vm_compute; reflexivity|].
  split; [vm_compute; reflexivity|].
  split; [vm_compute; reflexivity|].
  intros H. apply (f_equal (fun s => getComponent (deref s 0%nat) PositionComponent)) in H.
  vm_compute in H. discriminate H.
Qed.

(** ** Passes that only tombstone *)

Lemma decays_refl (s : State) : decays s s.
Proof. split; [done|]. intros k. by left. Qed.

Lemma decays_trans (s1 s2 s3 : State) :
  decays s1 s2 -> decays s2 s3 -> decays s1 s3.
Proof.
  intros [Hh1 H1] [Hh2 H2]. split; [congruence|].
  intros k. destruct (H2 k) as [E2|[E2 [e He]]], (H1 k) as [E1|[E1 [e' He']]].
  - left. congruence.
  - right. split; [congruence|eauto].
  - right. split; [done|]. exists e. congruence.
  - congruence.
Qed.

Lemma decays_tombstone (i : nat) (s : State) : decays s (tombstone i s).
Proof.
  split; [done|]. intros k. simpl.
  destruct (decide (k = i)) as [->|Hne].
  - destruct (entities s !! i) as [[e|]|] eqn:Hi.
    + right. split; [|eauto].
      apply list_lookup_insert_eq. by apply lookup_lt_Some in Hi.
    + left. apply list_lookup_insert_eq. by apply lookup_lt_Some in Hi.
    + left. apply lookup_ge_None. rewrite length_insert.
      by apply lookup_ge_None.
  - left. by apply list_lookup_insert_ne.
Qed.

Lemma decays_length (s s' : State) :
  decays s s' -> length (entities s') = length (entities s).
Proof.
  intros [_ H].
  destruct (Nat.lt_trichotomy (length (entities s')) (length (entities s)))
    as [Hlt|[Heq|Hgt]]; [|done|]; exfalso.
  - destruct (H (length (entities s'))) as [E|[E _]].
    + rewrite (proj2 (lookup_ge_None _ _)) in E by lia.
      symmetry in E. apply lookup_ge_None in E. lia.
    + apply lookup_lt_Some in E. lia.
  - destruct (H (length (entities s))) as [E|[_ [e E]]].
    + rewrite (proj2 (lookup_ge_None (entities s) _)) in E by lia.
      apply lookup_ge_None in E. lia.
    + apply lookup_lt_Some in E. lia.
Qed.

Lemma decays_None (s s' : State) (k : nat) :
  decays s s' -> entities s !! k = Some None -> entities s' !! k = Some None.
Proof. intros [_ H] Hk. destruct (H k) as [E|[E _]]; congruence. Qed.

Lemma decays_live (s s' : State) (k : nat) (e : ref) :
  decays s s' -> entities s' !! k = Some (Some e) -> entities s !! k = Some (Some e).
Proof. intros [_ H] Hk. destruct (H k) as [E|[E _]]; congruence. Qed.

(** A property kept by every callback is kept by the pass, and the pass
    completes when every callback does. *)
Lemma forEach_from_invariant (callback : option ref -> nat -> State -> completion)
    (I : State -> Prop) :
  (forall element k s, I s -> entities s !! k = Some element ->
     exists s', callback element k s = Normal s' /\ I s') ->
  forall n k s, I s -> exists s', forEach_from callback k n s = Normal s' /\ I s'.
Proof.
  intros Hcb n. induction n as [|n IH]; intros k s Hs; simpl; [eauto|].
  destruct (entities s !! k) as [el|] eqn:Hk; [|by apply IH].
  destruct (Hcb el k s Hs Hk) as (s1 & -> & Hs1). by apply IH.
Qed.

Lemma forEach_from_app (callback : option ref -> nat -> State -> completion)
    (n1 n2 k : nat) (s : State) :
  forEach_from callback k (n1 + n2) s =
    match forEach_from callback k n1 s with
    | Normal s1 => forEach_from callback (k + n1) n2 s1
    | Throw s1 => Throw s1
    end.
Proof.
  revert k s. induction n1 as [|n1 IH]; intros k s; simpl.
  - by rewrite Nat.add_0_r.
  - destruct (entities s !! k) as [el|].
    + destruct (callback el k s) as [s1|s1]; [|done].
      rewrite IH. by rewrite Nat.add_succ_r.
    + rewrite IH. by rewrite Nat.add_succ_r.
Qed.

(** ** CollisionSystem *)

Lemma hits_heap (s s' : State) (entity : ref) (p r : Component) (o : ref) :
  heap s' = heap s -> hits s' entity p r o = hits s entity p r o.
Proof. intros H. unfold hits, deref. by rewrite H. Qed.

Lemma collides_heap (s s' : State) (a o : ref) :
  heap s' = heap s -> collides s' a o = collides s a o.
Proof.
  intros H. unfold collides, hits, deref. by rewrite H.
Qed.

Lemma overlap_sym (p r p' r' : Component) : overlap p r p' r' = overlap p' r' p r.
Proof.
  unfold overlap.
  destruct (Qltb (x p) (x p' + width r')), (Qltb (x p') (x p + width r)),
    (Qltb (y p) (y p' + height r')), (Qltb (y p') (y p + height r)); reflexivity.
Qed.

Lemma collides_sym (s : State) (a o : ref) : collides s a o = collides s o a.
Proof.
  unfold collides, hits.
  destruct (getComponent (deref s a) PositionComponent) as [pa|],
    (getComponent (deref s a) RectangleComponent) as [ra|],
    (getComponent (deref s o) PositionComponent) as [po|],
    (getComponent (deref s o) RectangleComponent) as [ro|],
    (includes (getComponent (deref s a) WhitelistComponent) o),
    (includes (getComponent (deref s o) WhitelistComponent) a);
    repeat case_decide; try congruence; try reflexivity.
  apply overlap_sym.
Qed.

Lemma CollisionSystem_inner_hits (entity : ref) (j : nat) (p r : Component)
    (o : ref) (i : nat) (s : State) :
  CollisionSystem_inner entity j p r (Some o) i s
  = Normal (if hits s entity p r o then tombstone j (tombstone i s) else s).
Proof.
  unfold CollisionSystem_inner, hits.
  destruct (decide (entity = o)); [done|].
  destruct (includes (getComponent (deref s entity) WhitelistComponent) o); [done|].
  destruct (includes (getComponent (deref s o) WhitelistComponent) entity); [done|].
  destruct (getComponent (deref s o) PositionComponent) as [po|]; [|done].
  destruct (getComponent (deref s o) RectangleComponent) as [ro|]; [|done].
  by destruct (overlap p r po ro).
Qed.

Lemma CollisionSystem_inner_cases (entity : ref) (j : nat) (p r : Component)
    (element : option ref) (i : nat) (s : State) :
  (CollisionSystem_inner entity j p r element i s = Normal s /\
   forall o, element = Some o -> hits s entity p r o = false) \/
  (CollisionSystem_inner entity j p r element i s = Normal (tombstone j (tombstone i s)) /\
   exists o, element = Some o /\ hits s entity p r o = true).
Proof.
  destruct element as [o|].
  - rewrite CollisionSystem_inner_hits.
    destruct (hits s entity p r o) eqn:E; [right|left]; split; eauto.
    by intros o' [= <-].
  - left. split; [done|]. discriminate.
Qed.

Lemma CollisionSystem_inner_decays (entity : ref) (j : nat) (p r : Component)
    (s0 : State) (element : option ref) (i : nat) (s : State) :
  decays s0 s ->
  exists s', CollisionSystem_inner entity j p r element i s = Normal s' /\ decays s0 s'.
Proof.
  intros Hs.
  destruct (CollisionSystem_inner_cases entity j p r element i s) as [[-> _]|[-> _]];
    eexists; (split; [reflexivity|]); [done|].
  eapply decays_trans; [exact Hs|].
  eapply decays_trans; apply decays_tombstone.
Qed.

Lemma inner_loop_decays (entity : ref) (j : nat) (p r : Component) (n k : nat) (s : State) :
  exists s',
    forEach_from (CollisionSystem_inner entity j p r) k n s = Normal s' /\ decays s s'.
Proof.
  apply (forEach_from_invariant _ (decays s)); [|apply decays_refl].
  intros element i s1 Hs1 _. by apply CollisionSystem_inner_decays.
Qed.

(** When no live slot passes the test, the inner loop writes nothing. *)
Lemma inner_loop_no_hit (entity : ref) (j : nat) (p r : Component) (n k : nat) (s : State) :
  (forall m o, entities s !! m = Some (Some o) -> hits s entity p r o = false) ->
  forEach_from (CollisionSystem_inner entity j p r) k n s = Normal s.
Proof.
  intros Hno. revert k. induction n as [|n IH]; intros k; simpl; [done|].
  destruct (entities s !! k) as [[o|]|] eqn:Hk; [|simpl; apply IH|apply IH].
  rewrite CollisionSystem_inner_hits, (Hno k o Hk). apply IH.
Qed.

(** A slot other than the subject's whose entity fails the test is kept
    by the inner loop. *)
Lemma inner_loop_keeps (entity : ref) (j : nat) (p r : Component) (m : nat) (o : ref)
    (n k : nat) (s s' : State) :
  m <> j ->
  entities s !! m = Some (Some o) ->
  hits s entity p r o = false ->
  forEach_from (CollisionSystem_inner entity j p r) k n s = Normal s' ->
  entities s' !! m = Some (Some o).
Proof.
  intros Hmj. revert k s. induction n as [|n IH]; intros k s Hm Hhit; simpl.
  { by intros [= <-]. }
  destruct (entities s !! k) as [el|] eqn:Hk; [|by apply IH].
  destruct (CollisionSystem_inner_cases entity j p r el k s)
    as [[-> _]|[-> (o' & -> & Ho')]]; [by apply IH|].
  assert (k <> m) as Hkm by (intros ->; congruence).
  apply IH.
  - simpl. rewrite !list_lookup_insert_ne by done. done.
  - by rewrite (hits_heap s).
Qed.

(** A live slot in the range of the inner loop whose entity passes the
    test is tombstoned, and so is the subject's slot, whether or not an
    earlier comparison of the same loop already tombstoned the subject. *)
Lemma inner_loop_kills (entity : ref) (j : nat) (p r : Component) (m : nat) (o : ref)
    (n k : nat) (s s' : State) :
  (j < length (entities s))%nat ->
  (k <= m < k + n)%nat ->
  entities s !! m = Some (Some o) ->
  hits s entity p r o = true ->
  forEach_from (CollisionSystem_inner entity j p r) k n s = Normal s' ->
  entities s' !! m = Some None /\ entities s' !! j = Some None.
Proof.
  revert k s. induction n as [|n IH]; intros k s Hj Hrange Hm Hhit; simpl; [lia|].
  destruct (entities s !! k) as [el|] eqn:Hk.
  2: { apply lookup_ge_None in Hk. apply lookup_lt_Some in Hm. lia. }
  destruct (CollisionSystem_inner_cases entity j p r el k s)
    as [[-> Hno]|[-> _]].
  - destruct (decide (m = k)) as [->|Hmk].
    + rewrite (Hno o) in Hhit by congruence. discriminate.
    + apply IH; [done|lia|done|done].
  - intros Hrest.
    destruct (inner_loop_decays entity j p r n (S k) (tombstone j (tombstone k s)))
      as (s1 & Hs1 & Hdec).
    rewrite Hrest in Hs1. injection Hs1 as <-.
    assert (entities (tombstone j (tombstone k s)) !! j = Some None) as Hj'.
    { simpl. apply list_lookup_insert_eq. by rewrite length_insert. }
    split; [|by apply (decays_None _ _ _ Hdec)].
    destruct (decide (m = k)) as [->|Hmk].
    + apply (decays_None _ _ _ Hdec). simpl.
      destruct (decide (k = j)) as [->|Hkj]; [done|].
      rewrite list_lookup_insert_ne by done.
      apply list_lookup_insert_eq. by apply lookup_lt_Some in Hk.
    + destruct (decide (m = j)) as [->|Hmj]; [by apply (decays_None _ _ _ Hdec)|].
      apply (IH (S k) (tombstone j (tombstone k s))); [|lia| |by rewrite (hits_heap s)|done].
      * simpl. by rewrite !length_insert.
      * simpl. by rewrite !list_lookup_insert_ne.
Qed.

Lemma collides_hits (s : State) (a o : ref) (p r : Component) :
  getComponent (deref s a) PositionComponent = Some p ->
  getComponent (deref s a) RectangleComponent = Some r ->
  hits s a p r o = collides s a o.
Proof. intros Hp Hr. unfold collides. by rewrite Hp, Hr. Qed.

Lemma collides_self (s : State) (a : ref) : collides s a a = false.
Proof.
  unfold collides, hits.
  destruct (getComponent (deref s a) PositionComponent); [|done].
  destruct (getComponent (deref s a) RectangleComponent); [|done].
  by case_decide.
Qed.

Lemma collides_exempt (s : State) (a b : ref) :
  includes (getComponent (deref s a) WhitelistComponent) b = true \/
  includes (getComponent (deref s b) WhitelistComponent) a = true ->
  collides s a b = false.
Proof.
  intros H. unfold collides, hits.
  destruct (getComponent (deref s a) PositionComponent); [|done].
  destruct (getComponent (deref s a) RectangleComponent); [|done].
  case_decide; [done|].
  destruct (includes (getComponent (deref s a) WhitelistComponent) b); [done|].
  destruct (includes (getComponent (deref s b) WhitelistComponent) a); [done|].
  by destruct H.
Qed.

Lemma collides_overlap (s : State) (a b : ref) (pa ra pb rb : Component) :
  a <> b ->
  getComponent (deref s a) PositionComponent = Some pa ->
  getComponent (deref s a) RectangleComponent = Some ra ->
  getComponent (deref s b) PositionComponent = Some pb ->
  getComponent (deref s b) RectangleComponent = Some rb ->
  includes (getComponent (deref s a) WhitelistComponent) b = false ->
  includes (getComponent (deref s b) WhitelistComponent) a = false ->
  collides s a b = overlap pa ra pb rb.
Proof.
  intros Hne Hpa Hra Hpb Hrb Hwa Hwb. unfold collides, hits.
  rewrite Hpa, Hra, Hpb, Hrb, Hwa, Hwb. by case_decide.
Qed.

Lemma overlap_true (p r p' r' : Component) :
  overlap p r p' r' = true <->
  x p < x p' + width r' /\ x p' < x p + width r /\
  y p < y p' + height r' /\ y p' < y p + height r.
Proof.
  unfold overlap. rewrite !andb_true_iff, !Qltb_true. tauto.
Qed.

Lemma CollisionSystem_callback_decays (s0 : State) (element : option ref) (j : nat) (s : State) :
  decays s0 s ->
  exists s', CollisionSystem_callback element j s = Normal s' /\ decays s0 s'.
Proof.
  intros Hs. unfold CollisionSystem_callback.
  destruct element as [e|]; [|eauto].
  destruct (getComponent (deref s e) PositionComponent) as [p|]; [|eauto].
  destruct (getComponent (deref s e) RectangleComponent) as [r|]; [|eauto].
  destruct (inner_loop_decays e j p r (length (entities s)) 0 s) as (s' & Hs' & Hdec).
  exists s'. split; [done|]. by apply (decays_trans _ s).
Qed.

Lemma CollisionSystem_update_decays (s : State) :
  exists s', CollisionSystem_update s = Normal s' /\ decays s s'.
Proof.
  apply (forEach_from_invariant _ (decays s)); [|apply decays_refl].
  intros element j s1 Hs1 _. by apply CollisionSystem_callback_decays.
Qed.

(** An entity that collides with no live entity of the pass keeps its
    slot through every outer iteration. *)
Lemma CollisionSystem_callback_keeps (a : ref) (k : nat) (s0 : State)
    (element : option ref) (j : nat) (s : State) :
  (forall m o, entities s0 !! m = Some (Some o) -> collides s0 a o = false) ->
  decays s0 s /\ entities s !! k = Some (Some a) ->
  entities s !! j = Some element ->
  exists s', CollisionSystem_callback element j s = Normal s' /\
             decays s0 s' /\ entities s' !! k = Some (Some a).
Proof.
  intros Hfree [Hdec Hk] Hj.
  assert (forall m o, entities s !! m = Some (Some o) -> collides s a o = false) as Hfree'.
  { intros m o Hm. rewrite (collides_heap s0) by apply Hdec.
    apply (Hfree m). by apply (decays_live _ _ _ _ Hdec). }
  unfold CollisionSystem_callback.
  destruct element as [e|]; [|eauto].
  destruct (getComponent (deref s e) PositionComponent) as [p|] eqn:Hp; [|eauto].
  destruct (getComponent (deref s e) RectangleComponent) as [r|] eqn:Hr; [|eauto].
  unfold forEach.
  destruct (decide (j = k)) as [->|Hjk].
  - assert (e = a) as -> by congruence.
    rewrite inner_loop_no_hit; [eauto|].
    intros m o Hm. rewrite (collides_hits _ _ _ _ _ Hp Hr). by apply (Hfree' m).
  - destruct (inner_loop_decays e j p r (length (entities s)) 0 s) as (s' & Hs' & Hdec').
    exists s'. split; [done|]. split; [by apply (decays_trans _ s)|].
    apply (inner_loop_keeps e j p r k a (length (entities s)) 0 s s'
             (not_eq_sym Hjk) Hk); [|done].
    rewrite (collides_hits _ _ _ _ _ Hp Hr), collides_sym. by apply (Hfree' j).
Qed.

Lemma CollisionSystem_update_keeps (s : State) (a : ref) (k : nat) :
  entities s !! k = Some (Some a) ->
  (forall m o, entities s !! m = Some (Some o) -> collides s a o = false) ->
  exists s', CollisionSystem_update s = Normal s' /\
             decays s s' /\ entities s' !! k = Some (Some a).
Proof.
  intros Hk Hfree.
  apply (forEach_from_invariant _
           (fun s1 => decays s s1 /\ entities s1 !! k = Some (Some a))).
  - intros element j s1 Hs1 Hj.
    by apply (CollisionSystem_callback_keeps a k s element j s1).
  - split; [apply decays_refl|done].
Qed.

(** C4, as the code has it. Two entities A and B in slots of the world,
    one of which lists the other in its Whitelist (either direction), are
    both still in their slots after one CollisionSystem tick, provided no
    other live entity collides with A or with B: the pair itself never
    tombstones either of them. *)
Theorem CollisionSystem_whitelist (s : State) (ia ib : nat) (A B : ref) :
  entities s !! ia = Some (Some A) ->
  entities s !! ib = Some (Some B) ->
  includes (getComponent (deref s A) WhitelistComponent) B = true \/
  includes (getComponent (deref s B) WhitelistComponent) A = true ->
  (forall m o, entities s !! m = Some (Some o) -> o <> A -> o <> B ->
     collides s A o = false /\ collides s B o = false) ->
  exists s',
    CollisionSystem_update s = Normal s' /\
    heap s' = heap s /\
    entities s' !! ia = Some (Some A) /\
    entities s' !! ib = Some (Some B).
Proof.
  intros Ha Hb Hex Hothers.
  assert (collides s A B = false) as HAB by by apply collides_exempt.
  assert (collides s B A = false) as HBA by by rewrite collides_sym.
  destruct (CollisionSystem_update_keeps s A ia Ha) as (s1 & Hrun1 & Hdec & Ha').
  { intros m o Hm. destruct (decide (o = A)) as [->|HoA]; [apply collides_self|].
    destruct (decide (o = B)) as [->|HoB]; [done|].
    by apply (Hothers m). }
  destruct (CollisionSystem_update_keeps s B ib Hb) as (s2 & Hrun2 & _ & Hb').
  { intros m o Hm. destruct (decide (o = B)) as [->|HoB]; [apply collides_self|].
    destruct (decide (o = A)) as [->|HoA]; [done|].
    by apply (Hothers m). }
  assert (s2 = s1) as -> by congruence.
  exists s1. split; [done|]. split; [apply Hdec|]. done.
Qed.

Lemma CollisionSystem_whitelist_witness :
  exists s',
    CollisionSystem_update collision_exempt_far = Normal s' /\
    heap s' = heap collision_exempt_far /\
    entities s' !! 0%nat = Some (Some 0%nat) /\
    entities s' !! 1%nat = Some (Some 1%nat).
Proof.
  apply (CollisionSystem_whitelist collision_exempt_far 0%nat 1%nat 0%nat 1%nat).
  - reflexivity.
  - reflexivity.
  - left. reflexivity.
  - intros m o Hm HoA HoB.
    destruct m as [|[|[|m]]]; [| | |discriminate Hm]; injection Hm as <-;
      [congruence|congruence|].
    split; reflexivity.
Defined.

(** C4, as stated, fails when a third entity is around: A lists B and
    overlaps it, and the tick tombstones A all the same, together with the
    entity C that overlaps A. *)
Lemma CollisionSystem_whitelist_third_party :
  includes (getComponent (deref collision_exempt_third 0%nat) WhitelistComponent) 1%nat = true /\
  overlap (new_PositionComponent 0 0) (new_RectangleComponent 10 10)
          (new_PositionComponent 5 5) (new_RectangleComponent 10 10) = true /\
  CollisionSystem_update collision_exempt_third
  = Normal (mkState (heap collision_exempt_third) [None; Some 1%nat; None]).
Proof. split; [|split]; vm_compute; reflexivity. Qed.

(** Outer iterations over slots that hold no entity write nothing. *)
Lemma CollisionSystem_skip_dead (n k : nat) (s : State) :
  (forall j e, (k <= j < k + n)%nat -> entities s !! j <> Some (Some e)) ->
  forEach_from CollisionSystem_callback k n s = Normal s.
Proof.
  revert k. induction n as [|n IH]; intros k Hdead; simpl; [done|].
  destruct (entities s !! k) as [[e|]|] eqn:Hk.
  - exfalso. apply (Hdead k e); [lia|done].
  - simpl. apply IH. intros j e Hj. apply Hdead. lia.
  - apply IH. intros j e Hj. apply Hdead. lia.
Qed.

(** Two live slots whose entities collide, the first one met being the
    subject: the iteration of the first tombstones both. *)
Lemma CollisionSystem_pair (s : State) (ia ib : nat) (A B : ref) :
  (ia < ib)%nat ->
  entities s !! ia = Some (Some A) ->
  entities s !! ib = Some (Some B) ->
  (forall k e, entities s !! k = Some (Some e) -> k = ia \/ k = ib) ->
  collides s A B = true ->
  CollisionSystem_update s = Normal (tombstone ia (tombstone ib s)).
Proof.
  intros Hlt Ha Hb Honly Hcol.
  pose proof (lookup_lt_Some _ _ _ Ha) as Hia.
  pose proof (lookup_lt_Some _ _ _ Hb) as Hib.
  unfold CollisionSystem_update, forEach.
  replace (length (entities s)) with (ia + (1 + (length (entities s) - ia - 1)))%nat by lia.
  rewrite forEach_from_app.
  rewrite CollisionSystem_skip_dead.
  2: { intros j e Hj Hje. destruct (Honly j e Hje); lia. }
  rewrite forEach_from_app. simpl. rewrite Ha.
  unfold CollisionSystem_callback.
  unfold collides in Hcol.
  destruct (getComponent (deref s A) PositionComponent) as [p|] eqn:Hp; [|discriminate].
  destruct (getComponent (deref s A) RectangleComponent) as [r|] eqn:Hr; [|discriminate].
  unfold forEach.
  destruct (inner_loop_decays A ia p r (length (entities s)) 0 s) as (s1 & Hs1 & Hdec).
  rewrite Hs1.
  destruct (inner_loop_kills A ia p r ib B _ _ _ _ Hia (conj (Nat.le_0_l ib) Hib) Hb Hcol Hs1)
    as [Hb1 Ha1].
  assert (s1 = tombstone ia (tombstone ib s)) as <-.
  { apply State_eq; [apply Hdec|]. simpl. apply list_eq. intros k.
    destruct (decide (k = ia)) as [->|Hka].
    { rewrite Ha1. symmetry. apply list_lookup_insert_eq. by rewrite length_insert. }
    rewrite list_lookup_insert_ne by done.
    destruct (decide (k = ib)) as [->|Hkb].
    { rewrite Hb1. symmetry. by apply list_lookup_insert_eq. }
    rewrite list_lookup_insert_ne by done.
    destruct Hdec as [_ Hdec]. destruct (Hdec k) as [E|[_ [e E]]]; [done|].
    destruct (Honly k e E); congruence. }
  apply CollisionSystem_skip_dead.
  intros j e Hj Hje.
  pose proof (decays_live _ _ _ _ Hdec Hje) as Hje0.
  destruct (Honly j e Hje0) as [-> | ->]; congruence.
Qed.

(** C5. In a world whose live slots are exactly two, holding distinct
    entities that carry Position and Rectangle and of which neither lists
    the other in its Whitelist: when the rectangles overlap under the
    strict test, one CollisionSystem tick completes and leaves [null] in
    both slots, every other slot, the length of the array and the entity
    objects being as before; when they do not, the tick changes
    nothing. *)
Theorem CollisionSystem_two_entities (s : State) (ia ib : nat) (A B : ref)
    (pA rA pB rB : Component) :
  entities s !! ia = Some (Some A) ->
  entities s !! ib = Some (Some B) ->
  A <> B ->
  (forall k e, entities s !! k = Some (Some e) -> k = ia \/ k = ib) ->
  getComponent (deref s A) PositionComponent = Some pA ->
  getComponent (deref s A) RectangleComponent = Some rA ->
  getComponent (deref s B) PositionComponent = Some pB ->
  getComponent (deref s B) RectangleComponent = Some rB ->
  includes (getComponent (deref s A) WhitelistComponent) B = false ->
  includes (getComponent (deref s B) WhitelistComponent) A = false ->
  (x pA < x pB + width rB /\ x pB < x pA + width rA /\
   y pA < y pB + height rB /\ y pB < y pA + height rA ->
   exists s',
     CollisionSystem_update s = Normal s' /\
     entities s' !! ia = Some None /\
     entities s' !! ib = Some None /\
     (forall k, k <> ia -> k <> ib -> entities s' !! k = entities s !! k) /\
     length (entities s') = length (entities s) /\
     heap s' = heap s) /\
  (~ (x pA < x pB + width rB /\ x pB < x pA + width rA /\
      y pA < y pB + height rB /\ y pB < y pA + height rA) ->
   CollisionSystem_update s = Normal s).
Proof.
  intros Ha Hb Hne Honly HpA HrA HpB HrB HwA HwB.
  assert (ia <> ib) as Hidx by (intros ->; congruence).
  pose proof (collides_overlap s A B pA rA pB rB Hne HpA HrA HpB HrB HwA HwB) as HAB.
  split.
  - intros Hov. apply overlap_true in Hov. rewrite <- HAB in Hov.
    pose proof (lookup_lt_Some _ _ _ Ha) as Hia.
    pose proof (lookup_lt_Some _ _ _ Hb) as Hib.
    assert (CollisionSystem_update s = Normal (tombstone ia (tombstone ib s))) as Hrun.
    { destruct (Nat.lt_total ia ib) as [Hlt|[Heq|Hgt]]; [|done|].
      + by apply (CollisionSystem_pair s ia ib A B).
      + rewrite (CollisionSystem_pair s ib ia B A); try done.
        * f_equal. unfold tombstone. simpl. f_equal.
          by apply list_insert_insert_ne.
        * intros k e Hk. destruct (Honly k e Hk); auto.
        * by rewrite collides_sym. }
    exists (tombstone ia (tombstone ib s)). split; [exact Hrun|]. simpl.
    split; [apply list_lookup_insert_eq; by rewrite length_insert|].
    split.
    { rewrite list_lookup_insert_ne by done. by apply list_lookup_insert_eq. }
    split; [|split; [by rewrite !length_insert|done]].
    intros k Hka Hkb. by rewrite !list_lookup_insert_ne.
  - intros Hno.
    assert (collides s A B = false) as HAB'.
    { rewrite HAB. apply not_true_is_false. by rewrite overlap_true. }
    assert (forall a o, (a = A \/ a = B) -> (o = A \/ o = B) -> collides s a o = false) as Hnone.
    { intros a o [-> | ->] [-> | ->];
        [apply collides_self|done|by rewrite collides_sym|apply collides_self]. }
    destruct (forEach_from_invariant CollisionSystem_callback (fun s1 => s1 = s))
      with (n := length (entities s)) (k := 0%nat) (s := s) as (s' & Hrun & ->);
      [|done|exact Hrun].
    intros element j s1 -> Hj. exists s. split; [|done].
    unfold CollisionSystem_callback.
    destruct element as [e|]; [|done].
    destruct (getComponent (deref s e) PositionComponent) as [p|] eqn:Hp; [|done].
    destruct (getComponent (deref s e) RectangleComponent) as [r|] eqn:Hr; [|done].
    apply inner_loop_no_hit. intros m o Hm.
    rewrite (collides_hits _ _ _ _ _ Hp Hr). apply Hnone.
    + destruct (Honly j e Hj) as [-> | ->]; [left|right]; congruence.
    + destruct (Honly m o Hm) as [-> | ->]; [left|right]; congruence.
Qed.

Lemma CollisionSystem_two_entities_witness :
  (exists s',
     CollisionSystem_update collision_overlapping = Normal s' /\
     entities s' !! 0%nat = Some None /\
     entities s' !! 1%nat = Some None /\
     entities s' !! 2%nat = Some None /\
     length (entities s') = 3%nat) /\
  CollisionSystem_update collision_disjoint = Normal collision_disjoint.
Proof.
  split.
  - destruct (proj1 (CollisionSystem_two_entities collision_overlapping
                       0%nat 2%nat 0%nat 1%nat
                       (new_PositionComponent 0 0) (new_RectangleComponent 10 10)
                       (new_PositionComponent 5 5) (new_RectangleComponent 10 10)
                       eq_refl eq_refl ltac:(discriminate)
                       ltac:(intros k e Hk;
                             destruct k as [|[|[|k]]]; try discriminate Hk; auto)
                       eq_refl eq_refl eq_refl eq_refl eq_refl eq_refl))
      as (s' & Hrun & H0 & H2 & Hrest & Hlen & _).
    + repeat split.
    + exists s'. split; [exact Hrun|]. split; [exact H0|].
      split; [|split; [exact H2|exact Hlen]].
      rewrite (Hrest 1%nat); [reflexivity|discriminate|discriminate].
  - apply (CollisionSystem_two_entities collision_disjoint 0%nat 1%nat 0%nat 1%nat
             (new_PositionComponent 0 0) (new_RectangleComponent 10 10)
             (new_PositionComponent 20 20) (new_RectangleComponent 10 10));
      try reflexivity.
    + discriminate.
    + intros k e Hk. destruct k as [|[|k]]; try discriminate Hk; auto.
    + intros (_ & H & _). vm_compute in H. discriminate H.
Defined.

(** An entity that collides with no live entity keeps its slot through
    the rest of a pass, from whatever slot the pass goes on. *)
Lemma CollisionSystem_from_keeps (s0 : State) (c : ref) (m n k : nat) (s : State) :
  (forall m' o, entities s0 !! m' = Some (Some o) -> collides s0 c o = false) ->
  decays s0 s ->
  entities s !! m = Some (Some c) ->
  exists s', forEach_from CollisionSystem_callback k n s = Normal s' /\
             decays s0 s' /\ entities s' !! m = Some (Some c).
Proof.
  intros Hfree Hdec Hm.
  apply (forEach_from_invariant _
           (fun s1 => decays s0 s1 /\ entities s1 !! m = Some (Some c))); [|done].
  intros element j s1 Hs1 Hj.
  by apply (CollisionSystem_callback_keeps c m s0 element j s1).
Qed.

(** The slots are read when they are visited. The first entity of the
    array, [a], is the subject of the first outer iteration that does
    anything: that iteration tombstones every entity that collides with
    [a]. An entity [c] apart from [a], all of whose colliders collide with
    [a] too, then survives the whole pass: when the slots of its colliders
    come up as subjects they hold [null], and when [c] itself is the
    subject the slots it is compared with hold [null]. *)
Lemma CollisionSystem_relay (s : State) (j m : nat) (a c : ref) :
  (forall k e, (k < j)%nat -> entities s !! k <> Some (Some e)) ->
  entities s !! j = Some (Some a) ->
  entities s !! m = Some (Some c) ->
  m <> j ->
  collides s a c = false ->
  (forall k o, entities s !! k = Some (Some o) ->
     collides s c o = true -> collides s a o = true) ->
  exists s',
    CollisionSystem_update s = Normal s' /\
    entities s' !! m = Some (Some c) /\
    (forall k o, entities s !! k = Some (Some o) -> collides s a o = true ->
       entities s' !! k = Some None /\ entities s' !! j = Some None).
Proof.
  intros Hdead Hj Hm Hmj Hac Hcov.
  pose proof (lookup_lt_Some _ _ _ Hj) as Hjlen.
  unfold CollisionSystem_update, forEach.
  replace (length (entities s)) with (j + (1 + (length (entities s) - j - 1)))%nat by lia.
  rewrite forEach_from_app.
  rewrite CollisionSystem_skip_dead.
  2: { intros k e Hk. apply Hdead. lia. }
  rewrite forEach_from_app. simpl. rewrite Hj.
  unfold CollisionSystem_callback.
  destruct (getComponent (deref s a) PositionComponent) as [p|] eqn:Hp.
  1: destruct (getComponent (deref s a) RectangleComponent) as [r|] eqn:Hr.
  - unfold forEach.
    destruct (inner_loop_decays a j p r (length (entities s)) 0 s) as (s1 & Hs1 & Hdec).
    rewrite Hs1.
    assert (forall k o, entities s !! k = Some (Some o) -> collides s a o = true ->
              entities s1 !! k = Some None /\ entities s1 !! j = Some None) as Hkill.
    { intros k o Hk Hcol.
      apply (inner_loop_kills a j p r k o (length (entities s)) 0 s s1); try done.
      - apply lookup_lt_Some in Hk. lia.
      - by rewrite (collides_hits _ _ _ _ _ Hp Hr). }
    assert (entities s1 !! m = Some (Some c)) as Hm1.
    { apply (inner_loop_keeps a j p r m c (length (entities s)) 0 s s1); try done.
      by rewrite (collides_hits _ _ _ _ _ Hp Hr). }
    destruct (CollisionSystem_from_keeps s1 c m (length (entities s) - j - 1)
                (j + 1) s1) as (s' & Hrun & Hdec' & Hm').
    + intros m' o Hm1' . rewrite (collides_heap s) by apply Hdec.
      destruct (collides s c o) eqn:Hco; [|done].
      pose proof (decays_live _ _ _ _ Hdec Hm1') as Hm0.
      destruct (Hkill m' o Hm0 (Hcov m' o Hm0 Hco)) as [Hnull _]. congruence.
    + apply decays_refl.
    + done.
    + exists s'. split; [exact Hrun|]. split; [done|].
      intros k o Hk Hcol. destruct (Hkill k o Hk Hcol) as [Hk1 Hj1].
      split; by apply (decays_None _ _ _ Hdec').
  - destruct (CollisionSystem_from_keeps s c m (length (entities s) - j - 1) (j + 1) s)
      as (s' & Hrun & Hdec' & Hm'); [|apply decays_refl|done|].
    + intros m' o Hm0. destruct (collides s c o) eqn:Hco; [|done].
      pose proof (Hcov m' o Hm0 Hco) as Hao. unfold collides in Hao.
      rewrite Hp, Hr in Hao. discriminate Hao.
    + exists s'. split; [exact Hrun|]. split; [done|].
      intros k o Hk Hcol. unfold collides in Hcol. rewrite Hp, Hr in Hcol.
      discriminate Hcol.
  - destruct (CollisionSystem_from_keeps s c m (length (entities s) - j - 1) (j + 1) s)
      as (s' & Hrun & Hdec' & Hm'); [|apply decays_refl|done|].
    + intros m' o Hm0. destruct (collides s c o) eqn:Hco; [|done].
      pose proof (Hcov m' o Hm0 Hco) as Hao. unfold collides in Hao.
      rewrite Hp in Hao. discriminate Hao.
    + exists s'. split; [exact Hrun|]. split; [done|].
      intros k o Hk Hcol. unfold collides in Hcol. rewrite Hp in Hcol.
      discriminate Hcol.
Qed.

(** C1, as the code has it. During one CollisionSystem pass nothing but
    [null] is written to a slot, so a tombstoned slot stays tombstoned; it
    is skipped whenever it is visited later, as the subject of an outer
    iteration or as the other of a comparison: the slots are read when
    they are visited, so when the first entity of the array, [a], has had
    its colliders tombstoned, an entity [c] that is apart from [a] and
    whose colliders all collide with [a] is still in its slot at the end
    of the pass.  The subject of the outer iteration in progress is the
    exception: it is held in the callback's variable, so it goes on being
    compared after its own slot has been tombstoned, and that iteration
    tombstones every live entity that collides with it (and the subject's
    slot as soon as there is one), leaving the other slots as they
    were. *)
Theorem CollisionSystem_live_slots (s : State) :
  (exists s', CollisionSystem_update s = Normal s' /\ decays s s') /\
  (forall j, CollisionSystem_callback None j s = Normal s) /\
  (forall entity j position rectangle i,
     CollisionSystem_inner entity j position rectangle None i s = Normal s) /\
  (forall j a m c,
     (forall k e, (k < j)%nat -> entities s !! k <> Some (Some e)) ->
     entities s !! j = Some (Some a) ->
     entities s !! m = Some (Some c) ->
     m <> j ->
     collides s a c = false ->
     (forall k o, entities s !! k = Some (Some o) ->
        collides s c o = true -> collides s a o = true) ->
     exists s',
       CollisionSystem_update s = Normal s' /\
       entities s' !! m = Some (Some c) /\
       (forall k o, entities s !! k = Some (Some o) -> collides s a o = true ->
          entities s' !! k = Some None /\ entities s' !! j = Some None)) /\
  (forall j entity position rectangle,
     entities s !! j = Some (Some entity) ->
     getComponent (deref s entity) PositionComponent = Some position ->
     getComponent (deref s entity) RectangleComponent = Some rectangle ->
     exists s',
       CollisionSystem_callback (Some entity) j s = Normal s' /\
       decays s s' /\
       (forall m o,
          entities s !! m = Some (Some o) -> collides s entity o = true ->
          entities s' !! m = Some None /\ entities s' !! j = Some None) /\
       (forall m o,
          entities s !! m = Some (Some o) -> m <> j -> collides s entity o = false ->
          entities s' !! m = Some (Some o)) /\
       ((forall m o, entities s !! m = Some (Some o) -> collides s entity o = false) ->
        s' = s)).
Proof.
  split; [apply CollisionSystem_update_decays|].
  split; [done|]. split; [done|].
  split; [intros j a m c; apply CollisionSystem_relay|].
  intros j entity p r Hj Hp Hr.
  unfold CollisionSystem_callback. rewrite Hp, Hr. unfold forEach.
  destruct (inner_loop_decays entity j p r (length (entities s)) 0 s) as (s' & Hs' & Hdec).
  exists s'. split; [done|]. split; [done|]. split; [|split].
  - intros m o Hm Hcol.
    apply (inner_loop_kills entity j p r m o (length (entities s)) 0 s s'); try done.
    + by apply lookup_lt_Some in Hj.
    + apply lookup_lt_Some in Hm. lia.
    + by rewrite (collides_hits _ _ _ _ _ Hp Hr).
  - intros m o Hm Hmj Hcol.
    apply (inner_loop_keeps entity j p r m o (length (entities s)) 0 s s'); try done.
    by rewrite (collides_hits _ _ _ _ _ Hp Hr).
  - intros Hnone. rewrite inner_loop_no_hit in Hs'; [congruence|].
    intros m o Hm. rewrite (collides_hits _ _ _ _ _ Hp Hr). by apply (Hnone m).
Qed.

Lemma CollisionSystem_live_slots_witness :
  (exists s',
     CollisionSystem_update collision_relay = Normal s' /\
     entities s' !! 0%nat = Some None /\
     entities s' !! 1%nat = Some None /\
     entities s' !! 2%nat = Some (Some 2%nat)) /\
  (exists s',
     CollisionSystem_callback (Some 0%nat) 0 collision_chain = Normal s' /\
     entities s' !! 1%nat = Some None /\
     entities s' !! 2%nat = Some None /\
     entities s' !! 0%nat = Some None).
Proof.
  split.
  - destruct (proj1 (proj2 (proj2 (proj2 (CollisionSystem_live_slots collision_relay))))
                0%nat 0%nat 2%nat 2%nat)
      as (s' & Hrun & Hkeep & Hkill); try reflexivity.
    + intros k e Hk. lia.
    + discriminate.
    + intros k o Hk Hcol.
      destruct k as [|[|[|k]]]; try discriminate Hk;
        injection Hk as <-; try reflexivity; vm_compute in Hcol; discriminate Hcol.
    + exists s'. split; [exact Hrun|].
      destruct (Hkill 1%nat 1%nat eq_refl eq_refl) as [H1 H0].
      split; [exact H0|]. split; [exact H1|exact Hkeep].
  - destruct (proj2 (proj2 (proj2 (proj2 (CollisionSystem_live_slots collision_chain))))
                0%nat 0%nat (new_PositionComponent 0 0) (new_RectangleComponent 30 10))
      as (s' & Hrun & _ & Hkill & _); try reflexivity.
    exists s'. split; [exact Hrun|].
    split; [|split].
    + apply (Hkill 1%nat 1%nat); reflexivity.
    + apply (Hkill 2%nat 2%nat); reflexivity.
    + apply (Hkill 1%nat 1%nat); reflexivity.
Defined.

(** C1, as stated, fails. The entity of slot 0 overlaps the entities of
    slots 1 and 2, which are apart from each other. The first detected
    overlap (with slot 1) tombstones slots 1 and 0; the comparison with
    slot 2 still takes place, with the entity that slot 0 held, and
    tombstones slot 2. *)
Lemma CollisionSystem_subject_outlives_tombstone :
  forEach_from
    (CollisionSystem_inner 0%nat 0 (new_PositionComponent 0 0) (new_RectangleComponent 30 10))
    0 2 collision_chain
  = Normal (mkState (heap collision_chain) [None; None; Some 2%nat]) /\
  collides collision_chain 0%nat 2%nat = true /\
  collides collision_chain 1%nat 2%nat = false /\
  collides collision_chain 2%nat 1%nat = false /\
  CollisionSystem_update collision_chain
  = Normal (mkState (heap collision_chain) [None; None; None]).
Proof. repeat split; vm_compute; reflexivity. Qed.

(** ** BoundaryRemovalSystem *)

Lemma BoundaryRemovalSystem_callback_test (r : ref) (i : nat) (s : State) :
  BoundaryRemovalSystem_callback (Some r) i s =
    match BoundaryRemovalSystem_test (deref s r) with
    | Some true => Normal (tombstone i s)
    | Some false => Normal s
    | None => Throw s
    end.
Proof.
  unfold BoundaryRemovalSystem_callback, BoundaryRemovalSystem_test.
  destruct (getComponent (deref s r) PositionComponent); [|done].
  by destruct (getComponent (deref s r) RemovableAtBoundaryComponent).
Qed.

(** The pass writes slot [k] in the iteration of slot [k] only. *)
Lemma BoundaryRemovalSystem_from_outside (n k : nat) (s s' : State) :
  forEach_from BoundaryRemovalSystem_callback k n s = Normal s' ->
  heap s' = heap s /\
  forall m, (m < k \/ k + n <= m)%nat -> entities s' !! m = entities s !! m.
Proof.
  revert k s. induction n as [|n IH]; intros k s; simpl.
  { by intros [= <-]. }
  destruct (entities s !! k) as [[r|]|] eqn:Hk.
  - rewrite BoundaryRemovalSystem_callback_test.
    destruct (BoundaryRemovalSystem_test (deref s r)) as [[|]|]; [| |done].
    + intros Hrest. destruct (IH _ _ Hrest) as [Hh Hout].
      split; [done|]. intros m Hm. rewrite Hout by lia.
      simpl. apply list_lookup_insert_ne. lia.
    + intros Hrest. destruct (IH _ _ Hrest) as [Hh Hout].
      split; [done|]. intros m Hm. apply Hout. lia.
  - simpl. intros Hrest. destruct (IH _ _ Hrest) as [Hh Hout].
    split; [done|]. intros m Hm. apply Hout. lia.
  - intros Hrest. destruct (IH _ _ Hrest) as [Hh Hout].
    split; [done|]. intros m Hm. apply Hout. lia.
Qed.

Lemma BoundaryRemovalSystem_from_spec (n k : nat) (s : State) :
  (forall j e, (k <= j)%nat -> entities s !! j = Some (Some e) ->
     BoundaryRemovalSystem_test (deref s e) <> None) ->
  exists s',
    forEach_from BoundaryRemovalSystem_callback k n s = Normal s' /\
    heap s' = heap s /\
    forall m e, (k <= m < k + n)%nat -> entities s !! m = Some (Some e) ->
      entities s' !! m =
        if decide (BoundaryRemovalSystem_test (deref s e) = Some true)
        then Some None else Some (Some e).
Proof.
  revert k s. induction n as [|n IH]; intros k s Hsafe; simpl.
  { exists s. split; [done|]. split; [done|]. intros m e Hm. lia. }
  assert (forall s1, heap s1 = heap s ->
            (forall m, (k < m)%nat -> entities s1 !! m = entities s !! m) ->
            forall j e, (S k <= j)%nat -> entities s1 !! j = Some (Some e) ->
              BoundaryRemovalSystem_test (deref s1 e) <> None) as Hsafe1.
  { intros s1 Hh Hl j e Hj Hje. unfold deref. rewrite Hh.
    apply (Hsafe j); [lia|]. rewrite <- Hl by lia. done. }
  assert (forall s1 s', heap s1 = heap s ->
            (forall m, (k < m)%nat -> entities s1 !! m = entities s !! m) ->
            heap s' = heap s1 ->
            (forall m e, (S k <= m < S k + n)%nat -> entities s1 !! m = Some (Some e) ->
               entities s' !! m =
                 if decide (BoundaryRemovalSystem_test (deref s1 e) = Some true)
                 then Some None else Some (Some e)) ->
            forall m e, (k < m < k + S n)%nat -> entities s !! m = Some (Some e) ->
              entities s' !! m =
                if decide (BoundaryRemovalSystem_test (deref s e) = Some true)
                then Some None else Some (Some e)) as Hlater.
  { intros s1 s' Hh Hl Hh' Hspec m e Hm Hme.
    rewrite (Hspec m e); [|lia|by rewrite Hl by lia].
    unfold deref. by rewrite Hh. }
  destruct (entities s !! k) as [[r|]|] eqn:Hk.
  - rewrite BoundaryRemovalSystem_callback_test.
    pose proof (Hsafe k r (Nat.le_refl k) Hk) as Hr.
    destruct (BoundaryRemovalSystem_test (deref s r)) as [[|]|] eqn:Ht; [| |done].
    + destruct (IH (S k) (tombstone k s)) as (s' & Hrun & Hh & Hspec).
      { apply Hsafe1; [done|]. intros m Hm. simpl. apply list_lookup_insert_ne. lia. }
      exists s'. split; [done|]. split; [done|].
      intros m e Hm Hme. destruct (decide (m = k)) as [->|Hmk].
      * assert (e = r) as -> by congruence. rewrite Ht, decide_True by done.
        destruct (BoundaryRemovalSystem_from_outside _ _ _ _ Hrun) as [_ Hout].
        rewrite Hout by lia. simpl.
        apply list_lookup_insert_eq. by apply lookup_lt_Some in Hk.
      * apply (Hlater (tombstone k s) s'); try done; [|lia].
        intros m' Hm'. simpl. apply list_lookup_insert_ne. lia.
    + destruct (IH (S k) s) as (s' & Hrun & Hh & Hspec).
      { by apply Hsafe1. }
      exists s'. split; [done|]. split; [done|].
      intros m e Hm Hme. destruct (decide (m = k)) as [->|Hmk].
      * assert (e = r) as -> by congruence. rewrite Ht, decide_False by done.
        destruct (BoundaryRemovalSystem_from_outside _ _ _ _ Hrun) as [_ Hout].
        rewrite Hout by lia. done.
      * apply (Hlater s s'); try done. lia.
  - simpl. destruct (IH (S k) s) as (s' & Hrun & Hh & Hspec).
    { by apply Hsafe1. }
    exists s'. split; [done|]. split; [done|].
    intros m e Hm Hme. destruct (decide (m = k)) as [->|Hmk]; [congruence|].
    apply (Hlater s s'); try done. lia.
  - destruct (IH (S k) s) as (s' & Hrun & Hh & Hspec).
    { by apply Hsafe1. }
    exists s'. split; [done|]. split; [done|].
    intros m e Hm Hme. destruct (decide (m = k)) as [->|Hmk]; [congruence|].
    apply (Hlater s s'); try done. lia.
Qed.

Lemma BoundaryRemovalSystem_test_full (e : Entity) (position rectangle removable boundary : Component) :
  getComponent e PositionComponent = Some position ->
  getComponent e RectangleComponent = Some rectangle ->
  getComponent e RemovableAtBoundaryComponent = Some removable ->
  getComponent e BoundaryComponent = Some boundary ->
  BoundaryRemovalSystem_test e =
    Some (Qltb (y position) (y boundary)
          || (Qltb (y boundary + height boundary) (y position + height rectangle)
              || (Qltb (x position) (x boundary)
                  || Qltb (x boundary + width boundary) (x position + width rectangle)))).
Proof.
  intros Hp Hr Hrm Hb. unfold BoundaryRemovalSystem_test.
  rewrite Hp, Hr, Hrm, Hb. simpl.
  destruct (Qltb (y position) (y boundary)); [done|].
  destruct (Qltb (y boundary + height boundary) (y position + height rectangle)); [done|].
  by destruct (Qltb (x position) (x boundary)).
Qed.

Lemma BoundaryRemovalSystem_test_safe (e : Entity) :
  (is_Some (getComponent e PositionComponent) ->
   is_Some (getComponent e RemovableAtBoundaryComponent) ->
   is_Some (getComponent e RectangleComponent) /\
   is_Some (getComponent e BoundaryComponent)) ->
  BoundaryRemovalSystem_test e <> None.
Proof.
  intros Hsafe.
  destruct (getComponent e PositionComponent) as [p|] eqn:Hp.
  2: { unfold BoundaryRemovalSystem_test. by rewrite Hp. }
  destruct (getComponent e RemovableAtBoundaryComponent) as [rm|] eqn:Hrm.
  2: { unfold BoundaryRemovalSystem_test. by rewrite Hp, Hrm. }
  destruct Hsafe as [[r Hr] [b Hb]]; [done..|].
  by rewrite (BoundaryRemovalSystem_test_full e p r rm b).
Qed.

(** C2, as the code has it. In a pass over a world in which every live
    entity that carries Position and RemovableAtBoundary also carries
    Rectangle and Boundary, the pass completes and an entity carrying the
    four components is tombstoned exactly when its rectangle is not
    entirely inside the boundary rectangle, that is when it passes one of
    the four edges; an entity entirely inside is kept. *)
Theorem BoundaryRemovalSystem_update_spec (s : State) (i : nat) (entity : ref)
    (position rectangle removable boundary : Component) :
  (forall j e, entities s !! j = Some (Some e) ->
     is_Some (getComponent (deref s e) PositionComponent) ->
     is_Some (getComponent (deref s e) RemovableAtBoundaryComponent) ->
     is_Some (getComponent (deref s e) RectangleComponent) /\
     is_Some (getComponent (deref s e) BoundaryComponent)) ->
  entities s !! i = Some (Some entity) ->
  getComponent (deref s entity) PositionComponent = Some position ->
  getComponent (deref s entity) RectangleComponent = Some rectangle ->
  getComponent (deref s entity) RemovableAtBoundaryComponent = Some removable ->
  getComponent (deref s entity) BoundaryComponent = Some boundary ->
  exists s',
    BoundaryRemovalSystem_update s = Normal s' /\
    heap s' = heap s /\
    (y position < y boundary \/
     y boundary + height boundary < y position + height rectangle \/
     x position < x boundary \/
     x boundary + width boundary < x position + width rectangle ->
     entities s' !! i = Some None) /\
    (~ (y position < y boundary \/
        y boundary + height boundary < y position + height rectangle \/
        x position < x boundary \/
        x boundary + width boundary < x position + width rectangle) ->
     entities s' !! i = Some (Some entity)).
Proof.
  intros Hsafe Hi Hp Hr Hrm Hb.
  destruct (BoundaryRemovalSystem_from_spec (length (entities s)) 0 s)
    as (s' & Hrun & Hh & Hspec).
  { intros j e _ Hj. apply BoundaryRemovalSystem_test_safe. by apply (Hsafe j). }
  exists s'. split; [done|]. split; [done|].
  assert (entities s' !! i =
            if decide (BoundaryRemovalSystem_test (deref s entity) = Some true)
            then Some None else Some (Some entity)) as ->.
  { apply Hspec; [|done]. apply lookup_lt_Some in Hi. lia. }
  rewrite (BoundaryRemovalSystem_test_full _ _ _ _ _ Hp Hr Hrm Hb).
  split; intros Hout.
  - rewrite decide_True; [done|]. f_equal.
    rewrite !orb_true_iff, !Qltb_true. tauto.
  - rewrite decide_False; [done|]. intros [= Ht]. apply Hout.
    revert Ht. rewrite !orb_true_iff, !Qltb_true. tauto.
Qed.

Lemma BoundaryRemovalSystem_update_spec_witness :
  exists s',
    BoundaryRemovalSystem_update removal_sample = Normal s' /\
    entities s' !! 0%nat = Some (Some 0%nat) /\
    entities s' !! 1%nat = Some None.
Proof.
  assert (forall j e, entities removal_sample !! j = Some (Some e) ->
     is_Some (getComponent (deref removal_sample e) PositionComponent) ->
     is_Some (getComponent (deref removal_sample e) RemovableAtBoundaryComponent) ->
     is_Some (getComponent (deref removal_sample e) RectangleComponent) /\
     is_Some (getComponent (deref removal_sample e) BoundaryComponent)) as Hsafe.
  { intros j e Hj _ _.
    destruct j as [|[|j]]; [| |discriminate Hj]; injection Hj as <-;
      split; eexists; reflexivity. }
  destruct (BoundaryRemovalSystem_update_spec removal_sample 0%nat 0%nat
              (new_PositionComponent 10 10) (new_RectangleComponent 10 10)
              new_RemovableAtBoundaryComponent (new_BoundaryComponent 0 0 100 100)
              Hsafe)
    as (s' & Hrun & _ & _ & Hin); try reflexivity.
  destruct (BoundaryRemovalSystem_update_spec removal_sample 1%nat 1%nat
              (new_PositionComponent 200 10) (new_RectangleComponent 10 10)
              new_RemovableAtBoundaryComponent (new_BoundaryComponent 0 0 100 100)
              Hsafe)
    as (s'' & Hrun' & _ & Hout & _); try reflexivity.
  exists s'. split; [exact Hrun|]. split.
  - apply Hin. intros [H|[H|[H|H]]]; vm_compute in H; discriminate H.
  - rewrite Hrun in Hrun'. injection Hrun' as <-.
    apply Hout. right. right. right. reflexivity.
Defined.

(** C2, as stated, fails. The rectangle [-5,10,10,10] intersects the
    boundary [0,0,100,100] and passes its left edge: the slot is
    tombstoned. *)
Lemma BoundaryRemovalSystem_partial_overlap_removed :
  (-5 < 0 + 100 /\ 0 < -5 + 10 /\ 10 < 0 + 100 /\ 0 < 10 + 10) /\
  BoundaryRemovalSystem_update removal_partial
  = Normal (mkState (heap removal_partial) [None]).
Proof. split; [repeat split|vm_compute; reflexivity]. Qed.

(** C3. The claim does not hold of BoundaryRemovalSystem: its guard
    tests Position and RemovableAtBoundary only, and the test that
    follows reads [boundary.y] and [rectangle.height]. A removable entity
    with a Position and no Boundary makes the pass throw, and so does one
    with a Boundary, no Rectangle and a position not above the
    boundary. *)
Theorem BoundaryRemovalSystem_missing_component_throws :
  BoundaryRemovalSystem_update removal_no_boundary = Throw removal_no_boundary /\
  BoundaryRemovalSystem_update removal_no_rectangle = Throw removal_no_rectangle.
Proof. split; vm_compute; reflexivity. Qed.

(** ** SpawnSystem *)

Lemma find_pointwise {A : Type} (P Q : A -> bool) (l : list A) :
  (forall a, P a = Q a) -> List.find P l = List.find Q l.
Proof.
  intros H. induction l as [|a l IH]; simpl; [done|]. by rewrite H, IH.
Qed.








(** * Further properties *)

(** ** Entity *)

(** X1. [getComponent] returns the first instance of a class: a
    component added to an entity is found under its class only when the
    entity had no instance of that class before, and it never hides an
    older component. *)
Theorem getComponent_addComponent (c : Component) (e : Entity) (n : ComponentName) :
  getComponent (addComponent c e) n =
    match getComponent e n with
    | Some c0 => Some c0
    | None => if instanceof c n then Some c else None
    end.
Proof.
  unfold getComponent, addComponent. simpl.
  induction (components e) as [|c0 cs IH]; simpl; [done|].
  by destruct (instanceof c0 n).
Qed.

(** ** World.addEntity and the entity counter *)

Lemma addEntity_count (entity : ref) (slots : list (option ref)) :
  EntitiesCounterSystem_count (addEntity entity slots)
  = S (EntitiesCounterSystem_count slots).
Proof. induction slots as [|[e|] slots IH]; simpl; [done| |done]. by rewrite IH. Qed.

Lemma addEntity_length (entity : ref) (slots : list (option ref)) :
  length (addEntity entity slots) =
    if (EntitiesCounterSystem_count slots =? length slots)%nat
    then S (length slots) else length slots.
Proof.
  induction slots as [|[e|] slots IH]; simpl; [done| |].
  - rewrite IH. by destruct (EntitiesCounterSystem_count slots =? length slots)%nat.
  - assert (EntitiesCounterSystem_count slots <= length slots)%nat as Hle.
    { clear. induction slots as [|[e|] slots IH]; simpl; lia. }
    destruct (EntitiesCounterSystem_count slots) as [|n] eqn:E; [done|].
    rewrite (proj2 (Nat.eqb_neq _ _)) by lia. done.
Qed.

(** X2. After [World.addEntity] the entity counter reports one more
    live entity, and a capacity that is one larger exactly when the array
    had no tombstone (count = capacity) and unchanged otherwise. *)
Theorem World_addEntity_report (entity : ref) (s : State) :
  EntitiesCounterSystem_report (World_addEntity entity s) =
    (S (fst (EntitiesCounterSystem_report s)),
     if (fst (EntitiesCounterSystem_report s) =? snd (EntitiesCounterSystem_report s))%nat
     then S (snd (EntitiesCounterSystem_report s))
     else snd (EntitiesCounterSystem_report s)).
Proof.
  unfold EntitiesCounterSystem_report, World_addEntity. simpl.
  by rewrite addEntity_count, addEntity_length.
Qed.

Lemma addEntity_keeps (entity : ref) (slots : list (option ref)) (i : nat) (e : ref) :
  slots !! i = Some (Some e) -> addEntity entity slots !! i = Some (Some e).
Proof.
  revert i. induction slots as [|[e0|] slots IH]; intros i; [done| |].
  - destruct i as [|i]; simpl; [done|]. apply IH.
  - destruct i as [|i]; simpl; [discriminate|done].
Qed.

Lemma addEntity_elem (entity : ref) (slots : list (option ref)) :
  exists i, addEntity entity slots !! i = Some (Some entity) /\
            (slots !! i = Some None \/ slots !! i = None).
Proof.
  induction slots as [|[e0|] slots IH]; simpl.
  - exists 0%nat. split; [done|]. by right.
  - destruct IH as (i & Hi & Hold). exists (S i). done.
  - exists 0%nat. split; [done|]. by left.
Qed.

(** X3. [World.addEntity] never overwrites a live slot: every entity
    stays at its index, and the new entity lands on an index that held a
    tombstone or lay past the end of the array. *)
Theorem World_addEntity_keeps_live (entity : ref) (s : State) :
  (forall i e, entities s !! i = Some (Some e) ->
     entities (World_addEntity entity s) !! i = Some (Some e)) /\
  (exists i, entities (World_addEntity entity s) !! i = Some (Some entity) /\
             (entities s !! i = Some None \/ entities s !! i = None)).
Proof.
  split.
  - intros i e. apply addEntity_keeps.
  - apply addEntity_elem.
Qed.

Lemma World_addEntity_keeps_live_witness :
  entities (World_addEntity 7%nat collision_overlapping) !! 2%nat = Some (Some 1%nat) /\
  entities (World_addEntity 7%nat collision_overlapping) !! 1%nat = Some (Some 7%nat).
Proof.
  split.
  - apply (proj1 (World_addEntity_keeps_live 7%nat collision_overlapping) 2%nat 1%nat).
    reflexivity.
  - reflexivity.
Defined.

(** ** EndGameSystem *)

Lemma find_live_none (P : option ref -> bool) (l : list (option ref)) :
  P None = false ->
  (match List.find P l with Some (Some _) => false | _ => true end = true <->
   forall i e, l !! i = Some (Some e) -> P (Some e) = false).
Proof.
  intros Hnull. induction l as [|[e0|] l IH]; simpl.
  - split; [|done]. intros _ i e Hi. destruct i; discriminate Hi.
  - destruct (P (Some e0)) eqn:E0.
    + split; [discriminate|]. intros H. by rewrite (H 0%nat e0 eq_refl) in E0.
    + rewrite IH. split.
      * intros H [|i] e Hi; [by injection Hi as <-|]. by apply (H i).
      * intros H i e Hi. by apply (H (S i)).
  - rewrite Hnull, IH. split.
    + intros H [|i] e Hi; [discriminate Hi|]. by apply (H i).
    + intros H i e Hi. by apply (H (S i)).
Qed.

Lemma carries_false (s : State) (n : ComponentName) (e : ref) :
  carries s n (Some e) = false <-> getComponent (deref s e) n = None.
Proof. simpl. by destruct (getComponent (deref s e) n). Qed.

Lemma EndGameSystem_update_true (s : State) :
  EndGameSystem_update s = true <->
  forall i e, entities s !! i = Some (Some e) ->
    getComponent (deref s e) UserCharacterComponent = None.
Proof.
  unfold EndGameSystem_update.
  rewrite (find_live_none (carries s UserCharacterComponent)) by done.
  split; intros H i e Hi; apply carries_false; by apply (H i).
Qed.

(** X4. [EndGameSystem.update] answers "game over" exactly when no live
    slot holds an entity that carries the UserCharacter marker; tombstones
    are passed over without error. *)
Theorem EndGameSystem_update_spec (s : State) :
  EndGameSystem_update s = true <->
  forall i e, entities s !! i = Some (Some e) ->
    getComponent (deref s e) UserCharacterComponent = None.
Proof. apply EndGameSystem_update_true. Qed.

(** A pass that rewrites entity objects without touching the instances
    of class [n] leaves the answers of [getComponent] for [n] as they
    were. *)
Lemma foldl_visit_getComponent (g : Entity -> Entity) (n : ComponentName)
    (l : list (option ref)) (s : State) (r : ref) :
  (forall e, getComponent (g e) n = getComponent e n) ->
  getComponent (deref (foldl (visit g) s l) r) n = getComponent (deref s r) n.
Proof.
  intros Hg. unfold deref. rewrite foldl_visit_heap.
  destruct (heap s !! r) as [e|]; simpl; [|done].
  induction (occurrences r l) as [|k IH]; simpl; [done|]. by rewrite Hg.
Qed.

Lemma MovementSystem_entity_getComponent (n : ComponentName) (e : Entity) :
  n <> PositionComponent ->
  getComponent (MovementSystem_entity e) n = getComponent e n.
Proof.
  intros Hn. unfold MovementSystem_entity.
  destruct (getComponent e PositionComponent) as [p|] eqn:Hp; [|done].
  destruct (getComponent e VelocityComponent) as [v|]; [|done].
  apply getComponent_setComponent_other; [done|].
  rewrite instanceof_set_y, instanceof_set_x.
  by apply getComponent_instanceof in Hp.
Qed.

Lemma BoundarySystem_entity_getComponent (n : ComponentName) (e : Entity) :
  n <> PositionComponent -> n <> VelocityComponent ->
  getComponent (BoundarySystem_entity e) n = getComponent e n.
Proof.
  intros Hn Hn'. unfold BoundarySystem_entity.
  destruct (getComponent e PositionComponent) as [p|] eqn:Hp; [|done].
  destruct (getComponent e RectangleComponent) as [rc|]; [|done].
  destruct (getComponent e BoundaryComponent) as [b|]; [|done].
  destruct (getComponent e VelocityComponent) as [v|] eqn:Hv; [|done].
  destruct (BoundarySystem_clamp p rc b v) as [p' v'] eqn:Hc.
  destruct (BoundarySystem_clamp_spec _ _ _ _ _ _
              (getComponent_instanceof _ _ _ Hp)
              (getComponent_instanceof _ _ _ Hv) Hc) as (Hp' & Hv' & _).
  rewrite getComponent_setComponent_other by done.
  by rewrite getComponent_setComponent_other.
Qed.

Lemma EndGameSystem_update_ext (s s' : State) :
  entities s' = entities s ->
  (forall r, getComponent (deref s' r) UserCharacterComponent
             = getComponent (deref s r) UserCharacterComponent) ->
  EndGameSystem_update s' = EndGameSystem_update s.
Proof.
  intros Hl Hg. unfold EndGameSystem_update. rewrite Hl.
  rewrite (find_pointwise (carries s' UserCharacterComponent)
             (carries s UserCharacterComponent)); [done|].
  intros [r|]; [|done]. simpl. by rewrite Hg.
Qed.

(** X5. One MovementSystem tick, on any world (entities may occupy
    several slots), completes normally, leaves the slot array as it was
    and changes nothing but Position components: for every entity and
    every other class [getComponent] answers as before; the verdict of
    EndGameSystem is unchanged. *)
Theorem MovementSystem_update_frame (s : State) :
  exists s',
    MovementSystem_update s = Normal s' /\
    entities s' = entities s /\
    (forall r n, n <> PositionComponent ->
       getComponent (deref s' r) n = getComponent (deref s r) n) /\
    EndGameSystem_update s' = EndGameSystem_update s.
Proof.
  unfold MovementSystem_update.
  rewrite (forEach_visit _ _ MovementSystem_callback_visit).
  eexists. split; [reflexivity|].
  assert (forall r n, n <> PositionComponent ->
            getComponent (deref (foldl (visit MovementSystem_entity) s (entities s)) r) n
            = getComponent (deref s r) n) as Hframe.
  { intros r n Hn. apply foldl_visit_getComponent.
    intros e. by apply MovementSystem_entity_getComponent. }
  split; [apply foldl_visit_entities|]. split; [done|].
  apply EndGameSystem_update_ext; [apply foldl_visit_entities|].
  intros r. by apply Hframe.
Qed.

(** X6. One BoundarySystem tick, on any world, completes normally,
    leaves the slot array as it was and changes nothing but Position and
    Velocity components; the verdict of EndGameSystem is unchanged. *)
Theorem BoundarySystem_update_frame (s : State) :
  exists s',
    BoundarySystem_update s = Normal s' /\
    entities s' = entities s /\
    (forall r n, n <> PositionComponent -> n <> VelocityComponent ->
       getComponent (deref s' r) n = getComponent (deref s r) n) /\
    EndGameSystem_update s' = EndGameSystem_update s.
Proof.
  unfold BoundarySystem_update.
  rewrite (forEach_visit _ _ BoundarySystem_callback_visit).
  eexists. split; [reflexivity|].
  assert (forall r n, n <> PositionComponent -> n <> VelocityComponent ->
            getComponent (deref (foldl (visit BoundarySystem_entity) s (entities s)) r) n
            = getComponent (deref s r) n) as Hframe.
  { intros r n Hn Hn'. apply foldl_visit_getComponent.
    intros e. by apply BoundarySystem_entity_getComponent. }
  split; [apply foldl_visit_entities|]. split; [done|].
  apply EndGameSystem_update_ext; [apply foldl_visit_entities|].
  intros r. by apply Hframe.
Qed.

Lemma EndGameSystem_update_spec_witness :
  EndGameSystem_update collision_chain = true.
Proof.
  apply (proj2 (EndGameSystem_update_spec collision_chain)).
  intros i e Hi.
  destruct i as [|[|[|i]]]; [| | |discriminate Hi]; injection Hi as <-; reflexivity.
Defined.

Lemma MovementSystem_update_frame_witness :
  exists s',
    MovementSystem_update movement_sample = Normal s' /\
    getComponent (deref s' 0%nat) VelocityComponent = Some (new_VelocityComponent 3 4).
Proof.
  destruct (MovementSystem_update_frame movement_sample) as (s' & Hrun & _ & Hframe & _).
  exists s'. split; [exact Hrun|].
  transitivity (getComponent (deref movement_sample 0%nat) VelocityComponent);
    [|reflexivity].
  apply Hframe. discriminate.
Defined.

Lemma BoundarySystem_update_frame_witness :
  exists s',
    BoundarySystem_update boundary_sample = Normal s' /\
    getComponent (deref s' 0%nat) RectangleComponent = Some (new_RectangleComponent 32 16).
Proof.
  destruct (BoundarySystem_update_frame boundary_sample) as (s' & Hrun & _ & Hframe & _).
  exists s'. split; [exact Hrun|].
  transitivity (getComponent (deref boundary_sample 0%nat) RectangleComponent);
    [|reflexivity].
  apply Hframe; discriminate.
Defined.

(** ** CollisionSystem: who survives *)

Lemma CollisionSystem_from_decays (n k : nat) (s : State) :
  exists s', forEach_from CollisionSystem_callback k n s = Normal s' /\ decays s s'.
Proof.
  apply (forEach_from_invariant _ (decays s)); [|apply decays_refl].
  intros element j s1 Hs1 _. by apply CollisionSystem_callback_decays.
Qed.

Lemma collides_lacking (s : State) (a o : ref) :
  getComponent (deref s a) PositionComponent = None \/
  getComponent (deref s a) RectangleComponent = None ->
  collides s a o = false.
Proof.
  unfold collides. intros [-> | ->]; [done|].
  by destruct (getComponent (deref s a) PositionComponent).
Qed.

(** X7. An entity that lacks a Position or a Rectangle (the spawner,
    for one) is never tombstoned by CollisionSystem, whatever the other
    entities are; nor does the tick change any entity object. *)
Theorem CollisionSystem_spares_shapeless (s : State) (k : nat) (a : ref) :
  entities s !! k = Some (Some a) ->
  getComponent (deref s a) PositionComponent = None \/
  getComponent (deref s a) RectangleComponent = None ->
  exists s',
    CollisionSystem_update s = Normal s' /\
    heap s' = heap s /\
    entities s' !! k = Some (Some a).
Proof.
  intros Hk Hlack.
  destruct (CollisionSystem_update_keeps s a k Hk) as (s' & Hrun & Hdec & Hk').
  { intros m o _. by apply collides_lacking. }
  exists s'. split; [done|]. split; [apply Hdec|done].
Qed.

Lemma CollisionSystem_spares_shapeless_witness :
  exists s',
    CollisionSystem_update endgame_sample = Normal s' /\
    heap s' = heap endgame_sample /\
    entities s' !! 2%nat = Some (Some 2%nat).
Proof.
  apply (CollisionSystem_spares_shapeless endgame_sample 2%nat 2%nat).
  - reflexivity.
  - left. reflexivity.
Defined.

(** Two entities that are both in their slots after the pass do not
    collide. *)
Lemma CollisionSystem_survivors_apart (s s' : State) (j m : nat) (a o : ref) :
  CollisionSystem_update s = Normal s' ->
  entities s' !! j = Some (Some a) ->
  entities s' !! m = Some (Some o) ->
  collides s a o = false.
Proof.
  intros Hrun Hj Hm.
  destruct (collides s a o) eqn:Hcol; [exfalso|done].
  destruct (CollisionSystem_update_decays s) as (s0 & Hrun0 & Hdec0).
  assert (s0 = s') as -> by congruence.
  pose proof (decays_length _ _ Hdec0) as Hlen.
  pose proof (lookup_lt_Some _ _ _ Hj) as Hjlt. rewrite Hlen in Hjlt.
  unfold CollisionSystem_update, forEach in Hrun.
  replace (length (entities s)) with (j + (1 + (length (entities s) - j - 1)))%nat
    in Hrun by lia.
  rewrite forEach_from_app in Hrun.
  destruct (CollisionSystem_from_decays j 0 s) as (s1 & Hrun1 & Hdec1).
  rewrite Hrun1 in Hrun. rewrite forEach_from_app in Hrun. simpl in Hrun.
  destruct (entities s1 !! j) as [el|] eqn:Hel.
  2: { apply lookup_ge_None in Hel. rewrite (decays_length _ _ Hdec1) in Hel. lia. }
  destruct (CollisionSystem_callback_decays s1 el j s1 (decays_refl s1))
    as (s2 & Hcb & Hdec2).
  rewrite Hcb in Hrun.
  destruct (CollisionSystem_from_decays (length (entities s) - j - 1) (j + 1) s2)
    as (s3 & Hrun3 & Hdec3).
  rewrite Hrun3 in Hrun. injection Hrun as ->.
  pose proof (decays_live _ _ _ _ Hdec3 Hj) as Hj2.
  pose proof (decays_live _ _ _ _ Hdec2 Hj2) as Hj1.
  pose proof (decays_live _ _ _ _ Hdec2 (decays_live _ _ _ _ Hdec3 Hm)) as Hm1.
  assert (el = Some a) as -> by congruence.
  assert (collides s1 a o = true) as Hcol1.
  { rewrite (collides_heap s); [done|apply Hdec1]. }
  unfold CollisionSystem_callback in Hcb. unfold collides in Hcol1.
  destruct (getComponent (deref s1 a) PositionComponent) as [p|]; [|discriminate].
  destruct (getComponent (deref s1 a) RectangleComponent) as [r|]; [|discriminate].
  unfold forEach in Hcb.
  destruct (inner_loop_kills a j p r m o _ _ _ _
              (lookup_lt_Some _ _ _ Hj1)
              (conj (Nat.le_0_l m) (lookup_lt_Some _ _ _ Hm1)) Hm1 Hcol1 Hcb)
    as [_ Hdead].
  congruence.
Qed.

(** X8. After one CollisionSystem pass no two entities left in the
    slot array collide, and a second pass changes nothing: the pass is
    idempotent on every world. *)
Theorem CollisionSystem_settles (s : State) :
  exists s',
    CollisionSystem_update s = Normal s' /\
    (forall j m a o,
       entities s' !! j = Some (Some a) ->
       entities s' !! m = Some (Some o) ->
       collides s' a o = false) /\
    CollisionSystem_update s' = Normal s'.
Proof.
  destruct (CollisionSystem_update_decays s) as (s' & Hrun & Hdec).
  exists s'. split; [done|].
  assert (forall j m a o,
            entities s' !! j = Some (Some a) ->
            entities s' !! m = Some (Some o) ->
            collides s' a o = false) as Hapart.
  { intros j m a o Hj Hm. rewrite (collides_heap s) by apply Hdec.
    by apply (CollisionSystem_survivors_apart s s' j m). }
  split; [done|].
  destruct (forEach_from_invariant CollisionSystem_callback (fun s1 => s1 = s'))
    with (n := length (entities s')) (k := 0%nat) (s := s') as (s'' & Hrun' & ->);
    [|done|exact Hrun'].
  intros element j s1 -> Hj. exists s'. split; [|done].
  unfold CollisionSystem_callback.
  destruct element as [e|]; [|done].
  destruct (getComponent (deref s' e) PositionComponent) as [p|] eqn:Hp; [|done].
  destruct (getComponent (deref s' e) RectangleComponent) as [r|] eqn:Hr; [|done].
  apply inner_loop_no_hit. intros m o Hm.
  rewrite (collides_hits _ _ _ _ _ Hp Hr). by apply (Hapart j m).
Qed.

Lemma CollisionSystem_settles_witness :
  exists s',
    CollisionSystem_update collision_exempt_third = Normal s' /\
    CollisionSystem_update s' = Normal s'.
Proof.
  destruct (CollisionSystem_settles collision_exempt_third) as (s' & Hrun & _ & Hagain).
  exists s'. split; assumption.
Defined.

(** X9. CollisionSystem never brings the game back: once no live slot
    holds a UserCharacter entity, that is still so after the tick. *)
Theorem CollisionSystem_game_stays_over (s : State) :
  EndGameSystem_update s = true ->
  exists s',
    CollisionSystem_update s = Normal s' /\ EndGameSystem_update s' = true.
Proof.
  intros Hover.
  destruct (CollisionSystem_update_decays s) as (s' & Hrun & Hdec).
  exists s'. split; [done|].
  apply EndGameSystem_update_true. intros i e Hi.
  unfold deref. rewrite (proj1 Hdec).
  apply (proj1 (EndGameSystem_update_true s) Hover i).
  by apply (decays_live _ _ _ _ Hdec).
Qed.

Lemma CollisionSystem_game_stays_over_witness :
  exists s',
    CollisionSystem_update collision_chain = Normal s' /\
    EndGameSystem_update s' = true.
Proof.
  apply (CollisionSystem_game_stays_over collision_chain). reflexivity.
Defined.

(** ** BoundaryRemovalSystem: what it never touches *)

Lemma BoundaryRemovalSystem_from_any (n k : nat) (s : State) :
  exists s',
    (forEach_from BoundaryRemovalSystem_callback k n s = Normal s' \/
     forEach_from BoundaryRemovalSystem_callback k n s = Throw s') /\
    heap s' = heap s /\
    forall m,
      entities s' !! m = entities s !! m \/
      (entities s' !! m = Some None /\
       exists e, entities s !! m = Some (Some e) /\
                 BoundaryRemovalSystem_test (deref s e) = Some true).
Proof.
  revert k s. induction n as [|n IH]; intros k s; simpl.
  { exists s. split; [by left|]. split; [done|]. intros m. by left. }
  destruct (entities s !! k) as [[r|]|] eqn:Hk; [|simpl; apply IH|apply IH].
  rewrite BoundaryRemovalSystem_callback_test.
  destruct (BoundaryRemovalSystem_test (deref s r)) as [[|]|] eqn:Ht.
  - destruct (IH (S k) (tombstone k s)) as (s' & Hrun & Hh & Hrel).
    exists s'. split; [done|]. split; [done|].
    intros m. destruct (decide (m = k)) as [->|Hmk].
    + right. split; [|eauto].
      destruct (Hrel k) as [E|[E _]]; [|done]. rewrite E. simpl.
      apply list_lookup_insert_eq. by apply lookup_lt_Some in Hk.
    + destruct (Hrel m) as [E|[E (e & He & Hte)]]; simpl in *;
        rewrite list_lookup_insert_ne in * by done; [by left|].
      right. split; [done|]. exists e. split; [done|].
      revert Hte. unfold deref. simpl. done.
  - apply IH.
  - exists s. split; [by right|]. split; [done|]. intros m. by left.
Qed.

Lemma BoundaryRemovalSystem_test_unmarked (e : Entity) :
  getComponent e PositionComponent = None \/
  getComponent e RemovableAtBoundaryComponent = None ->
  BoundaryRemovalSystem_test e = Some false.
Proof.
  unfold BoundaryRemovalSystem_test. intros [-> | ->]; [done|].
  by destruct (getComponent e PositionComponent).
Qed.

(** X10. Whether it completes or throws, a BoundaryRemovalSystem pass
    changes no entity object and writes nothing but [null] to the slot
    array; the slot of an entity that lacks Position or
    RemovableAtBoundary (the player ship, the spawner) is never written. *)
Theorem BoundaryRemovalSystem_spares_unmarked (s : State) :
  exists s',
    (BoundaryRemovalSystem_update s = Normal s' \/
     BoundaryRemovalSystem_update s = Throw s') /\
    decays s s' /\
    (forall k a,
       entities s !! k = Some (Some a) ->
       getComponent (deref s a) PositionComponent = None \/
       getComponent (deref s a) RemovableAtBoundaryComponent = None ->
       entities s' !! k = Some (Some a)).
Proof.
  destruct (BoundaryRemovalSystem_from_any (length (entities s)) 0 s)
    as (s' & Hrun & Hh & Hrel).
  exists s'. split; [done|]. split; [split; [done|]|].
  - intros k. destruct (Hrel k) as [E|[E (e & He & _)]]; [by left|right; eauto].
  - intros k a Hk Hlack.
    destruct (Hrel k) as [E|[_ (e & He & Hte)]]; [congruence|].
    assert (e = a) as -> by congruence.
    by rewrite (BoundaryRemovalSystem_test_unmarked _ Hlack) in Hte.
Qed.

Lemma BoundaryRemovalSystem_spares_unmarked_witness :
  exists s',
    (BoundaryRemovalSystem_update endgame_sample = Normal s' \/
     BoundaryRemovalSystem_update endgame_sample = Throw s') /\
    entities s' !! 0%nat = Some (Some 0%nat).
Proof.
  destruct (BoundaryRemovalSystem_spares_unmarked endgame_sample) as (s' & Hrun & _ & Hkeep).
  exists s'. split; [exact Hrun|].
  apply Hkeep; [reflexivity|]. right. reflexivity.
Defined.

(** X11. On a world where every live entity that carries Position and
    RemovableAtBoundary also carries Rectangle and Boundary, the pass
    completes; afterwards the rectangle of every entity left with the four
    components lies inside its boundary, and a second pass changes
    nothing. *)
Theorem BoundaryRemovalSystem_settles (s : State) :
  (forall j e, entities s !! j = Some (Some e) ->
     is_Some (getComponent (deref s e) PositionComponent) ->
     is_Some (getComponent (deref s e) RemovableAtBoundaryComponent) ->
     is_Some (getComponent (deref s e) RectangleComponent) /\
     is_Some (getComponent (deref s e) BoundaryComponent)) ->
  exists s',
    BoundaryRemovalSystem_update s = Normal s' /\
    (forall i e position rectangle removable boundary,
       entities s' !! i = Some (Some e) ->
       getComponent (deref s' e) PositionComponent = Some position ->
       getComponent (deref s' e) RectangleComponent = Some rectangle ->
       getComponent (deref s' e) RemovableAtBoundaryComponent = Some removable ->
       getComponent (deref s' e) BoundaryComponent = Some boundary ->
       y boundary <= y position /\
       y position + height rectangle <= y boundary + height boundary /\
       x boundary <= x position /\
       x position + width rectangle <= x boundary + width boundary) /\
    BoundaryRemovalSystem_update s' = Normal s'.
Proof.
  intros Hsafe.
  assert (forall s1, heap s1 = heap s ->
            (forall j e, entities s1 !! j = Some (Some e) -> entities s !! j = Some (Some e)) ->
            exists s2, BoundaryRemovalSystem_update s1 = Normal s2 /\
              heap s2 = heap s /\
              forall m, entities s2 !! m = entities s1 !! m \/
                (entities s2 !! m = Some None /\
                 exists e, entities s1 !! m = Some (Some e) /\
                           BoundaryRemovalSystem_test (deref s e) = Some true)) as Hpass.
  { intros s1 Hh Hsub.
    destruct (BoundaryRemovalSystem_from_spec (length (entities s1)) 0 s1)
      as (s2 & Hrun & _ & _).
    { intros j e _ Hj. apply BoundaryRemovalSystem_test_safe.
      unfold deref. rewrite Hh. apply (Hsafe j). by apply Hsub. }
    destruct (BoundaryRemovalSystem_from_any (length (entities s1)) 0 s1)
      as (s2' & Hrun' & Hh' & Hrel).
    assert (s2' = s2) as ->.
    { destruct Hrun' as [Hrun'|Hrun']; rewrite Hrun in Hrun'; congruence. }
    exists s2. split; [done|]. split; [congruence|].
    intros m. destruct (Hrel m) as [E|[E (e & He & Hte)]]; [by left|].
    right. split; [done|]. exists e. split; [done|].
    revert Hte. unfold deref. by rewrite Hh. }
  destruct (Hpass s eq_refl) as (s' & Hrun & Hh & Hrel); [done|].
  assert (forall i e, entities s' !! i = Some (Some e) ->
            entities s !! i = Some (Some e) /\
            BoundaryRemovalSystem_test (deref s e) = Some false) as Hleft.
  { intros i e Hi.
    destruct (Hrel i) as [E|[E _]]; [|congruence].
    rewrite E in Hi. split; [done|].
    destruct (BoundaryRemovalSystem_from_spec (length (entities s)) 0 s)
      as (s2 & Hrun2 & _ & Hspec).
    { intros j e' _ Hj. apply BoundaryRemovalSystem_test_safe. by apply (Hsafe j). }
    assert (s2 = s') as -> by (unfold BoundaryRemovalSystem_update, forEach in Hrun; congruence).
    pose proof (Hspec i e (conj (Nat.le_0_l i) (lookup_lt_Some _ _ _ Hi)) Hi) as Hi'.
    destruct (BoundaryRemovalSystem_test (deref s e)) as [[|]|] eqn:Ht.
    - rewrite decide_True in Hi' by done. congruence.
    - done.
    - exfalso. revert Ht. apply BoundaryRemovalSystem_test_safe. by apply (Hsafe i). }
  exists s'. split; [done|]. split.
  - intros i e p r rm b Hi Hp Hr Hrm Hb.
    destruct (Hleft i e Hi) as [_ Ht].
    assert (deref s' e = deref s e) as He by (unfold deref; by rewrite Hh).
    rewrite He in Hp, Hr, Hrm, Hb.
    rewrite (BoundaryRemovalSystem_test_full _ _ _ _ _ Hp Hr Hrm Hb) in Ht.
    injection Ht as Ht. rewrite !orb_false_iff, !Qltb_false in Ht.
    destruct Ht as (H1 & H2 & H3 & H4). done.
  - destruct (Hpass s' Hh) as (s'' & Hrun' & Hh' & Hrel').
    { intros j e Hj. by apply Hleft. }
    rewrite Hrun'. f_equal. apply State_eq; [congruence|].
    apply list_eq. intros m.
    destruct (Hrel' m) as [E|[_ (e & He & Hte)]]; [done|].
    destruct (Hleft m e He) as [_ Hf]. congruence.
Qed.

Lemma BoundaryRemovalSystem_settles_witness :
  exists s',
    BoundaryRemovalSystem_update removal_sample = Normal s' /\
    BoundaryRemovalSystem_update s' = Normal s'.
Proof.
  destruct (BoundaryRemovalSystem_settles removal_sample) as (s' & Hrun & _ & Hagain).
  - intros j e Hj _ _.
    destruct j as [|[|j]]; [| |discriminate Hj]; injection Hj as <-;
      split; eexists; reflexivity.
  - exists s'. split; assumption.
Defined.

(** ** BoundarySystem: entities inside their boundary *)

Lemma BoundarySystem_entity_inside (e : Entity)
    (position rectangle boundary velocity : Component) :
  getComponent e PositionComponent = Some position ->
  getComponent e RectangleComponent = Some rectangle ->
  getComponent e BoundaryComponent = Some boundary ->
  getComponent e VelocityComponent = Some velocity ->
  Qltb (x position) (x boundary) = false ->
  Qltb (y position) (y boundary) = false ->
  Qltb (x boundary + width boundary) (x position + width rectangle) = false ->
  Qltb (y boundary + height boundary) (y position + height rectangle) = false ->
  BoundarySystem_entity e = e.
Proof.
  intros Hp Hrc Hb Hv Hx0 Hy0 Hx1 Hy1.
  unfold BoundarySystem_entity. rewrite Hp, Hrc, Hb, Hv.
  unfold BoundarySystem_clamp.
  rewrite Hx0. cbv beta iota zeta. rewrite Hy0. cbv beta iota zeta.
  rewrite Hx1. cbv beta iota zeta. rewrite Hy1. cbv beta iota zeta.
  rewrite (setComponent_same _ _ _ Hp). by apply setComponent_same.
Qed.

(** X12. BoundarySystem leaves alone what is inside: an entity in a slot
    that carries Position, Rectangle, Boundary and Velocity and for which
    none of the four comparisons of the tick holds (its position is not
    below the boundary's origin, its far edge not beyond the boundary's
    far edge, on both axes) is the same entity object after the tick, with
    its position and its velocity untouched, whatever the other entities
    are and in however many slots it is held. The four hypotheses are the
    outcomes of the code's own comparisons. *)
Theorem BoundarySystem_keeps_inside (s : State) (i : nat) (entity : ref)
    (position rectangle boundary velocity : Component) :
  entities s !! i = Some (Some entity) ->
  getComponent (deref s entity) PositionComponent = Some position ->
  getComponent (deref s entity) RectangleComponent = Some rectangle ->
  getComponent (deref s entity) BoundaryComponent = Some boundary ->
  getComponent (deref s entity) VelocityComponent = Some velocity ->
  Qltb (x position) (x boundary) = false ->
  Qltb (y position) (y boundary) = false ->
  Qltb (x boundary + width boundary) (x position + width rectangle) = false ->
  Qltb (y boundary + height boundary) (y position + height rectangle) = false ->
  exists s',
    BoundarySystem_update s = Normal s' /\
    entities s' = entities s /\
    deref s' entity = deref s entity.
Proof.
  intros Hi Hp Hrc Hb Hv Hx0 Hy0 Hx1 Hy1.
  unfold BoundarySystem_update.
  rewrite (forEach_visit _ _ BoundarySystem_callback_visit).
  eexists. split; [reflexivity|]. split; [apply foldl_visit_entities|].
  unfold deref at 1. rewrite foldl_visit_heap.
  rewrite (getComponent_deref_is_Some _ _ _ _ Hp). simpl.
  apply iter_fixpoint.
  by apply (BoundarySystem_entity_inside _ position rectangle boundary velocity).
Qed.

Lemma BoundarySystem_keeps_inside_witness :
  exists s',
    BoundarySystem_update boundary_inside = Normal s' /\
    entities s' = entities boundary_inside /\
    deref s' 0%nat = deref boundary_inside 0%nat.
Proof.
  apply (BoundarySystem_keeps_inside boundary_inside 0%nat 0%nat
           (new_PositionComponent 10 20) (new_RectangleComponent 32 16)
           (new_BoundaryComponent 0 0 450 100) (new_VelocityComponent 1 1));
    reflexivity.
Defined.

(** ** SpawnSystem: what it leaves alone *)

(** X13. On any world and with any clock and random readings,
    [SpawnSystem.update] completes normally, keeps every live entity in
    its slot, and changes no existing entity object that carries no Spawn
    component. *)
Theorem SpawnSystem_update_frame (canvas : Canvas) (io : Readings) (s : State) :
  exists s',
    SpawnSystem_update canvas io s = Normal s' /\
    (forall i e, entities s !! i = Some (Some e) -> entities s' !! i = Some (Some e)) /\
    (forall r e, heap s !! r = Some e -> getComponent e SpawnComponent = None ->
       heap s' !! r = Some e).
Proof.
  unfold SpawnSystem_update.
  destruct (List.find (has_spawn s) (entities s)) as [[spawner|]|] eqn:Hfind;
    [|by eauto..].
  apply find_some in Hfind. destruct Hfind as [_ Hhas]. simpl in Hhas.
  destruct (getComponent (deref s spawner) SpawnComponent) as [spawn|] eqn:Hs;
    [|discriminate].
  destruct (getComponent (deref s spawner) CounterComponent) as [counter|]; [|by eauto].
  destruct (now_test io - lastSpawn spawn <? 100)%Z; [by eauto|].
  set (f := fun e0 => setComponent CounterComponent (set_count (count counter + 1) counter)
                        (setComponent SpawnComponent (set_lastSpawn (now_stamp io) spawn) e0)).
  set (s1 := mutate spawner f s).
  assert (forall r e, heap s !! r = Some e -> getComponent e SpawnComponent = None ->
            heap s1 !! r = Some e) as Hother.
  { intros r e Hr He. unfold s1. simpl. rewrite lookup_alter_ne; [done|].
    intros ->. rewrite (deref_lookup _ _ _ Hr) in Hs. congruence. }
  destruct (Z.rem (count (set_count (count counter + 1) counter)) 10 =? 0)%Z.
  - unfold allocate. cbn [fst snd].
    eexists. split; [reflexivity|]. split.
    + intros i e. apply addEntity_keeps.
    + intros r e Hr He. cbn [heap]. fold s1.
      pose proof (is_fresh (dom (heap s1))) as Hfresh.
      apply not_elem_of_dom in Hfresh.
      rewrite lookup_insert_ne; [by apply Hother|].
      intros Heq. rewrite Heq in Hfresh.
      rewrite (Hother r e Hr He) in Hfresh. discriminate.
  - exists s1. split; [reflexivity|]. split; [done|].
    intros r e Hr He. by apply Hother.
Qed.

Lemma SpawnSystem_update_frame_witness :
  exists s',
    SpawnSystem_update sample_canvas (readings_at 1000) spawn_sample = Normal s' /\
    entities s' !! 0%nat = Some (Some 0%nat) /\
    heap s' !! 0%nat = Some (new_Entity [new_PositionComponent 0 0; new_UserCharacterComponent]).
Proof.
  destruct (SpawnSystem_update_frame sample_canvas (readings_at 1000) spawn_sample)
    as (s' & Hrun & Hslots & Hheap).
  exists s'. split; [exact Hrun|]. split.
  - apply Hslots. reflexivity.
  - apply (Hheap 0%nat); reflexivity.
Defined.

(** ** EnemyShipAssemblage *)

(** X14. An enemy built by [EnemyShipAssemblage] at the top edge, for
    results of [Math.random()] in [0,1) and a canvas of non-negative size,
    starts inside its own removal boundary (BoundaryRemovalSystem leaves
    it), moves down by 1 per tick with a horizontal drift strictly
    between -1/2 and 1/2, and carries neither the UserCharacter marker nor
    a Spawn component. *)
Theorem EnemyShipAssemblage_spec (canvas : Canvas) (random0 random1 random2 : Q) :
  0 <= canvas_width canvas -> 0 <= canvas_height canvas ->
  0 <= random0 -> random0 < 1 -> 0 <= random1 -> random1 < 1 ->
  BoundaryRemovalSystem_test
    (EnemyShipAssemblage canvas random1 random2 (random0 * canvas_width canvas) 0)
  = Some false /\
  (exists velocity,
     getComponent
       (EnemyShipAssemblage canvas random1 random2 (random0 * canvas_width canvas) 0)
       VelocityComponent = Some velocity /\
     y velocity = 1 /\ - (1 # 2) < x velocity /\ x velocity < 1 # 2) /\
  getComponent
    (EnemyShipAssemblage canvas random1 random2 (random0 * canvas_width canvas) 0)
    UserCharacterComponent = None /\
  getComponent
    (EnemyShipAssemblage canvas random1 random2 (random0 * canvas_width canvas) 0)
    SpawnComponent = None.
Proof.
  intros Hw Hh H0 H0' H1 H1'.
  assert (0 <= random0 * canvas_width canvas) as Hpos by (apply Qmult_le_0_compat; done).
  assert (random0 * canvas_width canvas <= canvas_width canvas) as Hle.
  { apply Qle_trans with (1 * canvas_width canvas); [|lra].
    apply Qmult_le_compat_r; [|done]. by apply Qlt_le_weak. }
  split; [|split; [|split; reflexivity]].
  - rewrite (BoundaryRemovalSystem_test_full _
               (new_PositionComponent (random0 * canvas_width canvas) 0)
               (new_RectangleComponent 32 16)
               new_RemovableAtBoundaryComponent
               (new_BoundaryComponent (-100) (-100)
                  (canvas_width canvas + 200) (canvas_height canvas + 200)));
      try reflexivity.
    f_equal. cbn [x y width height].
    rewrite !orb_false_iff, !Qltb_false. repeat split; lra.
  - eexists. split; [reflexivity|]. cbn [x y set_x set_y].
    split; [reflexivity|].
    destruct (Qltb random2 (1 # 2)); lra.
Qed.

Lemma EnemyShipAssemblage_spec_witness :
  BoundaryRemovalSystem_test
    (EnemyShipAssemblage sample_canvas (1 # 2) (1 # 4) ((1 # 2) * canvas_width sample_canvas) 0)
  = Some false.
Proof.
  apply (EnemyShipAssemblage_spec sample_canvas (1 # 2) (1 # 2) (1 # 4)); discriminate || reflexivity.
Defined.

(** ** The player ship *)

Lemma deref_mutate_ne (r r' : ref) (f : Entity -> Entity) (s : State) :
  r <> r' -> deref (mutate r f s) r' = deref s r'.
Proof. intros Hne. unfold deref. simpl. by rewrite lookup_alter_ne. Qed.

Lemma deref_mutate_eq (r : ref) (f : Entity -> Entity) (s : State) (e : Entity) :
  heap s !! r = Some e -> deref (mutate r f s) r = f e.
Proof. intros Hr. unfold deref. simpl. by rewrite lookup_alter_eq, Hr. Qed.

Lemma heap_mutate_is_Some (r r' : ref) (f : Entity -> Entity) (s : State) :
  heap s !! r' = Some (deref s r') ->
  heap (mutate r f s) !! r' = Some (deref (mutate r f s) r').
Proof.
  intros Hr. unfold deref. simpl.
  destruct (decide (r = r')) as [->|Hne].
  - rewrite lookup_alter_eq, Hr. done.
  - rewrite lookup_alter_ne by done. by rewrite Hr.
Qed.

Lemma getComponent_mutate_other (r r' : ref) (n m : ComponentName) (c : Component) (s : State) :
  n <> m -> instanceof c n = true ->
  getComponent (deref (mutate r (setComponent n c) s) r') m = getComponent (deref s r') m.
Proof.
  intros Hnm Hc. destruct (decide (r = r')) as [->|Hne].
  - unfold deref. simpl. rewrite lookup_alter_eq.
    destruct (heap s !! r') as [e|]; simpl; [|done].
    by apply getComponent_setComponent_other.
  - by rewrite deref_mutate_ne.
Qed.

Lemma getComponent_mutate_same (r : ref) (n : ComponentName) (c c0 : Component) (s : State) :
  getComponent (deref s r) n = Some c0 -> instanceof c n = true ->
  getComponent (deref (mutate r (setComponent n c) s) r) n = Some c.
Proof.
  intros Hc0 Hc.
  rewrite (deref_mutate_eq _ _ _ _ (getComponent_deref_is_Some _ _ _ _ Hc0)).
  by apply (getComponent_setComponent_same _ _ c0).
Qed.

Lemma steer_spec (keys : Keys) (velocity : Component) :
  instanceof velocity VelocityComponent = true ->
  instanceof (steer keys velocity) VelocityComponent = true /\
  x (steer keys velocity) =
    (if pressed keys "mousedown" ["ArrowRight"; "l"; "d"] then 4
     else if pressed keys "mousedown" ["ArrowLeft"; "h"; "a"] then -4
     else if pressed keys "mouseup" ["ArrowLeft"; "h"; "a"; "ArrowRight"; "l"; "d"] then 0
     else x velocity) /\
  y (steer keys velocity) =
    (if pressed keys "mousedown" ["ArrowDown"; "j"; "s"] then 4
     else if pressed keys "mousedown" ["ArrowUp"; "k"; "w"] then -4
     else if pressed keys "mouseup" ["ArrowUp"; "k"; "w"; "ArrowDown"; "j"; "s"] then 0
     else y velocity).
Proof.
  intros Hv. destruct velocity as [|vx vy| | | | | | | | | |]; try discriminate Hv.
  unfold steer.
  destruct (pressed keys "mouseup" ["ArrowUp"; "k"; "w"; "ArrowDown"; "j"; "s"]),
    (pressed keys "mouseup" ["ArrowLeft"; "h"; "a"; "ArrowRight"; "l"; "d"]),
    (pressed keys "mousedown" ["ArrowUp"; "k"; "w"]),
    (pressed keys "mousedown" ["ArrowDown"; "j"; "s"]),
    (pressed keys "mousedown" ["ArrowLeft"; "h"; "a"]),
    (pressed keys "mousedown" ["ArrowRight"; "l"; "d"]); done.
Qed.

(** X15. When the fire key is not held, or the blaster fired less than
    100ms before the tested time, [shipInteractable] completes normally
    and does nothing but set the ship's velocity from the keys: on each
    axis a held key gives speed 4 (right and down win over left and up),
    else a released key of the axis gives 0, else the velocity is kept; no
    entity is added and no other component or entity object changes. *)
Theorem shipInteractable_steers (canvas : Canvas) (keys : Keys) (now_test now_stamp : Z)
    (ship : ref) (s : State) (velocity : Component) :
  getComponent (deref s ship) VelocityComponent = Some velocity ->
  pressed keys "mousedown" [" "] = false \/
  (exists blaster,
     getComponent (deref s ship) BlasterComponent = Some blaster /\
     lastFired blaster <> 0%Z /\ (now_test - lastFired blaster < 100)%Z) ->
  exists s' velocity',
    shipInteractable canvas keys now_test now_stamp ship s = Normal s' /\
    entities s' = entities s /\
    (forall r, r <> ship -> heap s' !! r = heap s !! r) /\
    (forall n, n <> VelocityComponent ->
       getComponent (deref s' ship) n = getComponent (deref s ship) n) /\
    getComponent (deref s' ship) VelocityComponent = Some velocity' /\
    x velocity' =
      (if pressed keys "mousedown" ["ArrowRight"; "l"; "d"] then 4
       else if pressed keys "mousedown" ["ArrowLeft"; "h"; "a"] then -4
       else if pressed keys "mouseup" ["ArrowLeft"; "h"; "a"; "ArrowRight"; "l"; "d"] then 0
       else x velocity) /\
    y velocity' =
      (if pressed keys "mousedown" ["ArrowDown"; "j"; "s"] then 4
       else if pressed keys "mousedown" ["ArrowUp"; "k"; "w"] then -4
       else if pressed keys "mouseup" ["ArrowUp"; "k"; "w"; "ArrowDown"; "j"; "s"] then 0
       else y velocity).
Proof.
  intros Hv Hidle.
  destruct (steer_spec keys velocity (getComponent_instanceof _ _ _ Hv)) as (Hi & Hx & Hy).
  set (s1 := mutate ship (setComponent VelocityComponent (steer keys velocity)) s).
  assert (shipInteractable canvas keys now_test now_stamp ship s = Normal s1) as Hrun.
  { unfold shipInteractable. rewrite Hv. fold s1.
    destruct Hidle as [-> | (blaster & Hb & Hnz & Hlt)]; [done|].
    destruct (pressed keys "mousedown" [" "]); [|done].
    unfold s1. rewrite getComponent_mutate_other by done. rewrite Hb.
    rewrite (proj2 (Z.eqb_neq _ _) Hnz), (proj2 (Z.ltb_lt _ _) Hlt). done. }
  exists s1, (steer keys velocity). split; [done|]. split; [done|].
  split; [|split; [|split; [|done]]].
  - intros r Hr. unfold s1. simpl. by rewrite lookup_alter_ne.
  - intros n Hn. unfold s1. by rewrite getComponent_mutate_other.
  - unfold s1. by apply (getComponent_mutate_same _ _ _ velocity).
Qed.

Lemma shipInteractable_steers_witness :
  exists s' velocity',
    shipInteractable sample_canvas (<["ArrowLeft" := "mousedown"]> ∅) 0 0 0%nat player_sample
      = Normal s' /\
    getComponent (deref s' 0%nat) VelocityComponent = Some velocity' /\
    x velocity' = -4 /\ y velocity' = 0.
Proof.
  destruct (shipInteractable_steers sample_canvas (<["ArrowLeft" := "mousedown"]> ∅) 0 0
              0%nat player_sample (new_VelocityComponent 0 0))
    as (s' & v' & Hrun & _ & _ & _ & Hv & Hx & Hy).
  - reflexivity.
  - left. reflexivity.
  - exists s', v'. split; [exact Hrun|]. split; [exact Hv|]. split; [exact Hx|exact Hy].
Defined.

Lemma whitelist_push_includes (e : ref) (w : Component) :
  instanceof w WhitelistComponent = true ->
  instanceof (whitelist_push e w) WhitelistComponent = true /\
  includes (Some (whitelist_push e w)) e = true.
Proof.
  intros Hw. destruct w; try discriminate Hw. simpl. split; [done|].
  apply bool_decide_eq_true. apply elem_of_app. right. by apply list_elem_of_singleton.
Qed.

(** X16. With the fire key held and the blaster ready ([lastFired] is 0,
    or at least 100ms before the tested time), a ship that carries
    Velocity, Blaster, Whitelist, Position and Rectangle fires: the call
    completes normally, stamps the blaster and allocates one bullet, an
    entity object that did not exist before; the slot array then holds the
    bullet at one index [i], the first index that held [null], or the
    index past the end when no slot held [null], every other slot being as
    before; the bullet is centred
    on the ship's top edge with velocity (0,-8) and the canvas as its
    boundary; ship and bullet list each other in their whitelists, so they
    do not collide. *)
Theorem shipInteractable_fires (canvas : Canvas) (keys : Keys) (now_test now_stamp : Z)
    (ship : ref) (s : State)
    (velocity blaster shipWhitelist shipPosition shipRectangle : Component) :
  getComponent (deref s ship) VelocityComponent = Some velocity ->
  getComponent (deref s ship) BlasterComponent = Some blaster ->
  getComponent (deref s ship) WhitelistComponent = Some shipWhitelist ->
  getComponent (deref s ship) PositionComponent = Some shipPosition ->
  getComponent (deref s ship) RectangleComponent = Some shipRectangle ->
  pressed keys "mousedown" [" "] = true ->
  lastFired blaster = 0%Z \/ (100 <= now_test - lastFired blaster)%Z ->
  exists s' bullet i,
    shipInteractable canvas keys now_test now_stamp ship s = Normal s' /\
    heap s !! bullet = None /\
    entities s' !! i = Some (Some bullet) /\
    (entities s !! i = Some None \/ i = length (entities s)) /\
    (forall m, (m < i)%nat -> entities s !! m <> Some None) /\
    (forall m, m <> i -> entities s' !! m = entities s !! m) /\
    entities s' = addEntity bullet (entities s) /\
    deref s' bullet =
      new_Entity
        [ new_PositionComponent
            (x shipPosition + width shipRectangle / 2 - 4 / 2) (y shipPosition);
          new_VelocityComponent 0 (-8);
          new_RenderableComponent None;
          new_RectangleComponent 4 8;
          new_BoundaryComponent 0 0 (canvas_width canvas) (canvas_height canvas);
          new_RemovableAtBoundaryComponent;
          new_WhitelistComponent [ship] ] /\
    getComponent (deref s' ship) BlasterComponent = Some (new_BlasterComponent now_stamp) /\
    getComponent (deref s' ship) WhitelistComponent
      = Some (whitelist_push bullet shipWhitelist) /\
    collides s' ship bullet = false /\
    collides s' bullet ship = false.
Proof.
  intros Hv Hb Hw Hp Hr Hspace Hready.
  pose proof (getComponent_instanceof _ _ _ Hv) as Iv.
  pose proof (getComponent_instanceof _ _ _ Hb) as Ib.
  pose proof (getComponent_instanceof _ _ _ Hw) as Iw.
  destruct (steer_spec keys velocity Iv) as (Iv' & _).
  assert (instanceof (set_lastFired now_stamp blaster) BlasterComponent = true) as Ib'
    by by destruct blaster.
  destruct (whitelist_push_includes ship (new_WhitelistComponent []) eq_refl) as [Ibw _].
  unfold shipInteractable. rewrite Hv, Hspace.
  set (s1 := mutate ship (setComponent VelocityComponent (steer keys velocity)) s).
  assert (forall n, n <> VelocityComponent ->
            getComponent (deref s1 ship) n = getComponent (deref s ship) n) as H1.
  { intros n Hn. unfold s1. by rewrite getComponent_mutate_other. }
  rewrite H1, Hb by done.
  assert (negb (lastFired blaster =? 0)%Z && (now_test - lastFired blaster <? 100)%Z
          = false) as ->.
  { destruct Hready as [-> | Hge]; [done|].
    rewrite (proj2 (Z.ltb_ge _ _) Hge). apply andb_false_r. }
  set (s2 := mutate ship (setComponent BlasterComponent (set_lastFired now_stamp blaster)) s1).
  assert (forall n, n <> VelocityComponent -> n <> BlasterComponent ->
            getComponent (deref s2 ship) n = getComponent (deref s ship) n) as H2.
  { intros n Hn Hn'. unfold s2. rewrite getComponent_mutate_other by done. by apply H1. }
  assert (getComponent (deref s2 ship) BlasterComponent
          = Some (set_lastFired now_stamp blaster)) as Hb2.
  { unfold s2. apply (getComponent_mutate_same _ _ _ blaster); [|done].
    by rewrite H1, Hb. }
  unfold allocate.
  set (bullet := fresh (dom (heap s2))).
  set (s3 := mkState (<[bullet := BulletAssemblage canvas]> (heap s2)) (entities s2)).
  cbv beta iota zeta.
  assert (heap s2 !! bullet = None) as Hfresh.
  { apply not_elem_of_dom. apply is_fresh. }
  assert (bullet <> ship) as Hne.
  { intros Heq. rewrite Heq in Hfresh.
    rewrite (getComponent_deref_is_Some _ _ _ _ Hb2) in Hfresh. discriminate. }
  assert (heap s !! bullet = None) as Hfresh0.
  { revert Hfresh. unfold s2, s1. simpl. by rewrite !lookup_alter_ne. }
  assert (deref s3 bullet = BulletAssemblage canvas) as Hd3.
  { unfold deref, s3. simpl. by rewrite lookup_insert_eq. }
  assert (deref s3 ship = deref s2 ship) as Hd3s.
  { unfold deref, s3. simpl. by rewrite lookup_insert_ne. }
  rewrite Hd3, Hd3s. rewrite H2, Hw by done.
  change (getComponent (BulletAssemblage canvas) WhitelistComponent)
    with (Some (new_WhitelistComponent [])).
  cbv beta iota.
  set (s4 := mutate bullet (setComponent WhitelistComponent
                              (whitelist_push ship (new_WhitelistComponent []))) s3).
  set (s5 := mutate ship (setComponent WhitelistComponent
                            (whitelist_push bullet shipWhitelist)) s4).
  assert (heap s3 !! bullet = Some (BulletAssemblage canvas)) as Hh3.
  { unfold s3. simpl. by rewrite lookup_insert_eq. }
  assert (deref s5 bullet =
            setComponent WhitelistComponent
              (whitelist_push ship (new_WhitelistComponent [])) (BulletAssemblage canvas))
    as Hd5.
  { unfold s5. rewrite deref_mutate_ne by done.
    unfold s4. by rewrite (deref_mutate_eq _ _ _ _ Hh3). }
  assert (forall n, n <> WhitelistComponent ->
            getComponent (deref s5 ship) n = getComponent (deref s2 ship) n) as H5.
  { intros n Hn. unfold s5. rewrite getComponent_mutate_other;
      [|done|by apply whitelist_push_includes].
    unfold s4. rewrite deref_mutate_ne by done. by rewrite Hd3s. }
  assert (getComponent (deref s5 ship) WhitelistComponent
          = Some (whitelist_push bullet shipWhitelist)) as Hw5.
  { unfold s5. apply (getComponent_mutate_same _ _ _ shipWhitelist);
      [|by apply whitelist_push_includes].
    unfold s4. rewrite deref_mutate_ne by done. rewrite Hd3s. by rewrite H2, Hw. }
  rewrite Hd5.
  rewrite (H5 PositionComponent), (H5 RectangleComponent) by done.
  rewrite !H2, Hp, Hr by done.
  set (B4 := setComponent WhitelistComponent
               (whitelist_push ship (new_WhitelistComponent [])) (BulletAssemblage canvas))
    in *.
  change (getComponent B4 PositionComponent) with (Some (new_PositionComponent 0 0)).
  change (getComponent B4 VelocityComponent) with (Some (new_VelocityComponent 0 0)).
  change (getComponent B4 RectangleComponent) with (Some (new_RectangleComponent 4 8)).
  change (getComponent B4 BoundaryComponent)
    with (Some (new_BoundaryComponent 0 0 (canvas_width canvas) (canvas_height canvas))).
  cbv beta iota.
  match goal with
  | |- context [mutate bullet ?f s5] => set (F := f); set (s6 := mutate bullet F s5)
  end.
  assert (heap s5 !! bullet = Some B4) as Hh5.
  { rewrite <- Hd5. unfold s5, s4.
    apply heap_mutate_is_Some, heap_mutate_is_Some.
    rewrite Hh3. f_equal. by rewrite Hd3. }
  assert (deref (World_addEntity bullet s6) bullet = F B4) as Hd6.
  { unfold deref at 1, World_addEntity, s6, mutate. cbn [heap].
    by rewrite lookup_alter_eq, Hh5. }
  assert (forall n, getComponent (deref (World_addEntity bullet s6) ship) n
                    = getComponent (deref s5 ship) n) as H6.
  { intros n. unfold deref at 1, World_addEntity, s6, mutate. cbn [heap].
    by rewrite lookup_alter_ne. }
  destruct (addEntity_placed bullet (entities s)) as (i & Hi & Hwhere & Hfirst & Hrest).
  exists (World_addEntity bullet s6), bullet, i.
  split; [reflexivity|]. split; [done|].
  split; [exact Hi|]. split; [exact Hwhere|]. split; [exact Hfirst|].
  split; [exact Hrest|]. split; [reflexivity|].
  split; [by rewrite Hd6|].
  split.
  { rewrite H6, H5 by done. rewrite Hb2. by destruct blaster. }
  split; [by rewrite H6|].
  assert (collides (World_addEntity bullet s6) ship bullet = false) as Hcol.
  { apply collides_exempt. left. rewrite H6, Hw5.
    by apply whitelist_push_includes. }
  split; [done|]. by rewrite collides_sym.
Qed.

Lemma shipInteractable_fires_witness :
  exists s' bullet,
    shipInteractable sample_canvas fire_keys 5 5 0%nat player_sample = Normal s' /\
    heap player_sample !! bullet = None /\
    entities s' = [Some 0%nat; Some 1%nat; Some bullet] /\
    collides s' 0%nat bullet = false.
Proof.
  destruct (shipInteractable_fires sample_canvas fire_keys 5 5 0%nat player_sample
              (new_VelocityComponent 0 0) (new_BlasterComponent 0)
              (new_WhitelistComponent [])
              (new_PositionComponent (450 / 2 - 32 / 2) (800 - 32))
              (new_RectangleComponent 32 16))
    as (s' & bullet & i & Hrun & Hfresh & Hi & Hwhere & _ & Hrest & _ & _ & _ & _ & Hcol & _);
    try reflexivity.
  - left. reflexivity.
  - exists s', bullet. split; [exact Hrun|]. split; [exact Hfresh|].
    split; [|exact Hcol].
    assert (i = 2%nat) as ->.
    { destruct Hwhere as [Hnull | ->]; [|reflexivity].
      destruct i as [|[|i]]; discriminate Hnull. }
    apply list_eq. intros m.
    destruct (decide (m = 2%nat)) as [->|Hm]; [exact Hi|].
    rewrite (Hrest m Hm). by destruct m as [|[|[|m]]].
Defined.

(** X17. With the fire key held, a ship that has a Velocity and no
    Blaster makes [shipInteractable] throw; so does a ship whose blaster is
    ready and that lacks a Whitelist, a Position or a Rectangle, and then
    the blaster has already been stamped. In both cases no bullet enters
    the slot array. *)
Theorem shipInteractable_throws (canvas : Canvas) (keys : Keys) (now_test now_stamp : Z)
    (ship : ref) (s : State) (velocity : Component) :
  getComponent (deref s ship) VelocityComponent = Some velocity ->
  pressed keys "mousedown" [" "] = true ->
  getComponent (deref s ship) BlasterComponent = None \/
  (exists blaster,
     getComponent (deref s ship) BlasterComponent = Some blaster /\
     (lastFired blaster = 0%Z \/ (100 <= now_test - lastFired blaster)%Z) /\
     (getComponent (deref s ship) WhitelistComponent = None \/
      getComponent (deref s ship) PositionComponent = None \/
      getComponent (deref s ship) RectangleComponent = None)) ->
  exists s',
    shipInteractable canvas keys now_test now_stamp ship s = Throw s' /\
    entities s' = entities s /\
    (is_Some (getComponent (deref s ship) BlasterComponent) ->
     getComponent (deref s' ship) BlasterComponent = Some (new_BlasterComponent now_stamp)).
Proof.
  intros Hv Hspace Hmiss.
  pose proof (getComponent_instanceof _ _ _ Hv) as Iv.
  destruct (steer_spec keys velocity Iv) as (Iv' & _).
  unfold shipInteractable. rewrite Hv, Hspace.
  set (s1 := mutate ship (setComponent VelocityComponent (steer keys velocity)) s).
  assert (forall n, n <> VelocityComponent ->
            getComponent (deref s1 ship) n = getComponent (deref s ship) n) as H1.
  { intros n Hn. unfold s1. by rewrite getComponent_mutate_other. }
  rewrite H1 by done.
  destruct Hmiss as [Hb | (blaster & Hb & Hready & Hlack)]; rewrite Hb.
  { exists s1. split; [done|]. split; [done|]. by intros [? ?]. }
  pose proof (getComponent_instanceof _ _ _ Hb) as Ib.
  assert (instanceof (set_lastFired now_stamp blaster) BlasterComponent = true) as Ib'
    by by destruct blaster.
  assert (negb (lastFired blaster =? 0)%Z && (now_test - lastFired blaster <? 100)%Z
          = false) as ->.
  { destruct Hready as [-> | Hge]; [done|].
    rewrite (proj2 (Z.ltb_ge _ _) Hge). apply andb_false_r. }
  set (s2 := mutate ship (setComponent BlasterComponent (set_lastFired now_stamp blaster)) s1).
  assert (forall n, n <> VelocityComponent -> n <> BlasterComponent ->
            getComponent (deref s2 ship) n = getComponent (deref s ship) n) as H2.
  { intros n Hn Hn'. unfold s2. rewrite getComponent_mutate_other by done. by apply H1. }
  assert (getComponent (deref s2 ship) BlasterComponent
          = Some (new_BlasterComponent now_stamp)) as Hb2.
  { unfold s2. rewrite (getComponent_mutate_same _ _ _ blaster); [by destruct blaster| |done].
    by rewrite H1, Hb. }
  unfold allocate.
  set (bullet := fresh (dom (heap s2))).
  set (s3 := mkState (<[bullet := BulletAssemblage canvas]> (heap s2)) (entities s2)).
  cbv beta iota zeta.
  assert (heap s2 !! bullet = None) as Hfresh.
  { apply not_elem_of_dom. apply is_fresh. }
  assert (bullet <> ship) as Hne.
  { intros Heq. rewrite Heq in Hfresh.
    rewrite (getComponent_deref_is_Some _ _ _ _ Hb2) in Hfresh. discriminate. }
  assert (deref s3 bullet = BulletAssemblage canvas) as Hd3.
  { unfold deref, s3. simpl. by rewrite lookup_insert_eq. }
  assert (deref s3 ship = deref s2 ship) as Hd3s.
  { unfold deref, s3. simpl. by rewrite lookup_insert_ne. }
  rewrite Hd3, Hd3s. rewrite H2 by done.
  change (getComponent (BulletAssemblage canvas) WhitelistComponent)
    with (Some (new_WhitelistComponent [])).
  cbv beta iota.
  set (s4 := mutate bullet (setComponent WhitelistComponent
                              (whitelist_push ship (new_WhitelistComponent []))) s3).
  assert (forall n, getComponent (deref s4 ship) n = getComponent (deref s2 ship) n) as H4.
  { intros n. unfold s4. rewrite deref_mutate_ne by done. by rewrite Hd3s. }
  destruct (getComponent (deref s ship) WhitelistComponent) as [shipWhitelist|] eqn:Hw.
  2: { exists s4. split; [done|]. split; [done|]. intros _. by rewrite H4. }
  pose proof (getComponent_instanceof _ _ _ Hw) as Iw.
  set (s5 := mutate ship (setComponent WhitelistComponent
                            (whitelist_push bullet shipWhitelist)) s4).
  assert (forall n, n <> WhitelistComponent ->
            getComponent (deref s5 ship) n = getComponent (deref s2 ship) n) as H5.
  { intros n Hn. unfold s5. rewrite getComponent_mutate_other;
      [|done|by apply whitelist_push_includes]. apply H4. }
  assert (exists c, Throw s5 = c /\
            match getComponent (deref s5 bullet) PositionComponent,
                  getComponent (deref s5 bullet) VelocityComponent,
                  getComponent (deref s5 bullet) RectangleComponent,
                  getComponent (deref s5 bullet) BoundaryComponent,
                  getComponent (deref s5 ship) PositionComponent,
                  getComponent (deref s5 ship) RectangleComponent with
            | Some _, Some _, Some _, Some _, Some _, Some _ => False
            | _, _, _, _, _, _ => True
            end) as (c & <- & Hshape).
  { eexists. split; [reflexivity|].
    rewrite (H5 PositionComponent), (H5 RectangleComponent) by done.
    rewrite !H2 by done.
    destruct Hlack as [Hl|[Hl|Hl]]; [discriminate Hl| |]; rewrite Hl;
      repeat match goal with
        | |- context [match ?o with Some _ => _ | None => _ end] => destruct o
        end; done. }
  exists s5. split.
  - revert Hshape.
    destruct (getComponent (deref s5 bullet) PositionComponent); [|done].
    destruct (getComponent (deref s5 bullet) VelocityComponent); [|done].
    destruct (getComponent (deref s5 bullet) RectangleComponent); [|done].
    destruct (getComponent (deref s5 bullet) BoundaryComponent); [|done].
    destruct (getComponent (deref s5 ship) PositionComponent); [|done].
    destruct (getComponent (deref s5 ship) RectangleComponent); [|done].
    done.
  - split; [done|]. intros _. by rewrite H5.
Qed.

Lemma shipInteractable_throws_witness :
  exists s',
    shipInteractable sample_canvas fire_keys 5 5 0%nat
      (mkState (<[0%nat := new_Entity [new_VelocityComponent 0 0]]> ∅) [Some 0%nat])
    = Throw s' /\
    entities s' = [Some 0%nat].
Proof.
  destruct (shipInteractable_throws sample_canvas fire_keys 5 5 0%nat
              (mkState (<[0%nat := new_Entity [new_VelocityComponent 0 0]]> ∅) [Some 0%nat])
              (new_VelocityComponent 0 0))
    as (s' & Hrun & Hslots & _); try reflexivity.
  - left. reflexivity.
  - exists s'. split; [exact Hrun|exact Hslots].
Defined.

(** ** World.update never throws on well-built worlds *)

Lemma same_shape_refl (e : Entity) : same_shape e e.
Proof. by split. Qed.

Lemma same_shape_trans (e1 e2 e3 : Entity) :
  same_shape e1 e2 -> same_shape e2 e3 -> same_shape e1 e3.
Proof.
  intros [H1 I1] [H2 I2]. split; [|congruence].
  intros n. by rewrite H2, H1.
Qed.

Lemma same_shape_setComponent (n : ComponentName) (c : Component) (e : Entity) :
  n <> InteractableComponent -> instanceof c n = true ->
  same_shape e (setComponent n c e).
Proof.
  intros Hn Hc. split; [|by apply getComponent_setComponent_other].
  intros m. destruct (decide (n = m)) as [<-|Hnm].
  - destruct (getComponent e n) as [c0|] eqn:E.
    + by rewrite (getComponent_setComponent_same _ _ _ _ E Hc).
    + by rewrite (setComponent_absent _ _ _ E), E.
  - by rewrite getComponent_setComponent_other.
Qed.

Lemma same_shape_removal_safe (e e' : Entity) :
  same_shape e e' -> removal_safe e -> removal_safe e'.
Proof.
  intros [H _] Hs. unfold removal_safe. rewrite !H. exact Hs.
Qed.

Lemma same_shape_fire_safe (e e' : Entity) :
  same_shape e e' -> fire_safe e -> fire_safe e'.
Proof.
  intros [H _] Hs. unfold fire_safe. rewrite !H. exact Hs.
Qed.

Lemma grows_refl (s : State) : grows s s.
Proof. intros r. destruct (heap s !! r); [apply same_shape_refl|done]. Qed.

Lemma grows_heap (s s' : State) : heap s' = heap s -> grows s s'.
Proof. intros H r. rewrite H. destruct (heap s !! r); [apply same_shape_refl|done]. Qed.

Lemma grows_trans (s1 s2 s3 : State) : grows s1 s2 -> grows s2 s3 -> grows s1 s3.
Proof.
  intros H12 H23 r. specialize (H12 r). specialize (H23 r).
  destruct (heap s1 !! r) as [e1|], (heap s2 !! r) as [e2|], (heap s3 !! r) as [e3|];
    try done.
  - by apply (same_shape_trans _ e2).
  - destruct H12 as [Hs Hi]. destruct H23 as [H23 Hi']. split.
    + by apply (same_shape_removal_safe e2).
    + congruence.
Qed.

Lemma grows_mutate (r : ref) (f : Entity -> Entity) (s : State) :
  (forall e, same_shape e (f e)) -> grows s (mutate r f s).
Proof.
  intros Hf r'. simpl. destruct (decide (r = r')) as [->|Hne].
  - rewrite lookup_alter_eq. destruct (heap s !! r'); simpl; [apply Hf|done].
  - rewrite lookup_alter_ne by done.
    destruct (heap s !! r'); [apply same_shape_refl|done].
Qed.

Lemma grows_allocate (e0 : Entity) (s : State) :
  removal_safe e0 -> getComponent e0 InteractableComponent = None ->
  grows s (snd (allocate e0 s)).
Proof.
  intros Hs Hi r. unfold allocate. simpl.
  destruct (decide (fresh (dom (heap s)) = r)) as [<-|Hne].
  - rewrite lookup_insert_eq.
    rewrite (proj1 (not_elem_of_dom _ _) (is_fresh (dom (heap s)))). done.
  - rewrite lookup_insert_ne by done.
    destruct (heap s !! r); [apply same_shape_refl|done].
Qed.

Lemma grows_sound (s s' : State) : grows s s' -> sound s -> sound s'.
Proof.
  intros Hg [Hrem Hfire]. split.
  - intros r e' Hr. specialize (Hg r). rewrite Hr in Hg.
    destruct (heap s !! r) as [e|] eqn:E; [|by destruct Hg].
    apply (same_shape_removal_safe e); [done|]. by apply (Hrem r).
  - intros r e' doFn Hr Hdo. pose proof (Hg r) as Hgr. rewrite Hr in Hgr.
    destruct (heap s !! r) as [e|] eqn:E; [|destruct Hgr; congruence].
    destruct Hgr as [_ Hi]. rewrite Hdo in Hi.
    destruct (Hfire r e doFn E (eq_sym Hi)) as (ship & Hship & Hsafe).
    specialize (Hg doFn). rewrite Hship in Hg.
    destruct (heap s' !! doFn) as [ship'|]; [|done].
    exists ship'. split; [done|]. by apply (same_shape_fire_safe ship).
Qed.

Lemma foldl_visit_grows (g : Entity -> Entity) (l : list (option ref)) (s : State) :
  (forall e, same_shape e (g e)) -> grows s (foldl (visit g) s l).
Proof.
  intros Hg r. rewrite foldl_visit_heap.
  destruct (heap s !! r) as [e|]; simpl; [|done].
  induction (occurrences r l) as [|n IH]; simpl; [apply same_shape_refl|].
  by apply (same_shape_trans _ (Nat.iter n g e)).
Qed.

Lemma MovementSystem_entity_shape (e : Entity) : same_shape e (MovementSystem_entity e).
Proof.
  unfold MovementSystem_entity.
  destruct (getComponent e PositionComponent) as [p|] eqn:Hp; [|apply same_shape_refl].
  destruct (getComponent e VelocityComponent) as [v|]; [|apply same_shape_refl].
  apply same_shape_setComponent; [done|].
  rewrite instanceof_set_y, instanceof_set_x. by apply getComponent_instanceof in Hp.
Qed.

Lemma BoundarySystem_entity_shape (e : Entity) : same_shape e (BoundarySystem_entity e).
Proof.
  unfold BoundarySystem_entity.
  destruct (getComponent e PositionComponent) as [p|] eqn:Hp; [|apply same_shape_refl].
  destruct (getComponent e RectangleComponent) as [rc|]; [|apply same_shape_refl].
  destruct (getComponent e BoundaryComponent) as [b|]; [|apply same_shape_refl].
  destruct (getComponent e VelocityComponent) as [v|] eqn:Hv; [|apply same_shape_refl].
  destruct (BoundarySystem_clamp p rc b v) as [p' v'] eqn:Hc.
  destruct (BoundarySystem_clamp_spec _ _ _ _ _ _
              (getComponent_instanceof _ _ _ Hp)
              (getComponent_instanceof _ _ _ Hv) Hc) as (Hp' & Hv' & _).
  apply (same_shape_trans _ (setComponent PositionComponent p' e));
    by apply same_shape_setComponent.
Qed.

Lemma removal_safe_deref (s : State) (r : ref) :
  sound s -> removal_safe (deref s r).
Proof.
  intros [Hrem _]. unfold deref. destruct (heap s !! r) as [e|] eqn:E; simpl.
  - by apply (Hrem r).
  - intros [? H]. discriminate H.
Qed.

Lemma BoundaryRemovalSystem_update_sound (s : State) :
  sound s ->
  exists s', BoundaryRemovalSystem_update s = Normal s' /\ heap s' = heap s.
Proof.
  intros Hs.
  destruct (BoundaryRemovalSystem_from_spec (length (entities s)) 0 s)
    as (s' & Hrun & Hh & _).
  { intros j e _ _. apply BoundaryRemovalSystem_test_safe. by apply removal_safe_deref. }
  by exists s'.
Qed.

Lemma EnemyShipAssemblage_shape (canvas : Canvas) (r1 r2 x0 y0 : Q) :
  removal_safe (EnemyShipAssemblage canvas r1 r2 x0 y0) /\
  getComponent (EnemyShipAssemblage canvas r1 r2 x0 y0) InteractableComponent = None.
Proof. split; [|reflexivity]. intros _ _. split; eexists; reflexivity. Qed.

Lemma BulletAssemblage_shape (canvas : Canvas) :
  removal_safe (BulletAssemblage canvas) /\
  getComponent (BulletAssemblage canvas) InteractableComponent = None.
Proof. split; [|reflexivity]. intros _ _. split; eexists; reflexivity. Qed.

Lemma SpawnSystem_update_grows (canvas : Canvas) (io : Readings) (s : State) :
  exists s', SpawnSystem_update canvas io s = Normal s' /\ grows s s'.
Proof.
  unfold SpawnSystem_update.
  destruct (List.find (has_spawn s) (entities s)) as [[spawner|]|];
    [|exists s; split; [done|apply grows_refl]..].
  destruct (getComponent (deref s spawner) SpawnComponent) as [spawn|] eqn:Hs;
    [|exists s; split; [done|apply grows_refl]].
  destruct (getComponent (deref s spawner) CounterComponent) as [counter|] eqn:Hc;
    [|exists s; split; [done|apply grows_refl]].
  destruct (now_test io - lastSpawn spawn <? 100)%Z;
    [exists s; split; [done|apply grows_refl]|].
  set (f := fun e0 => setComponent CounterComponent (set_count (count counter + 1) counter)
                        (setComponent SpawnComponent (set_lastSpawn (now_stamp io) spawn) e0)).
  assert (grows s (mutate spawner f s)) as Hg1.
  { apply grows_mutate. intros e. unfold f.
    apply (same_shape_trans _
             (setComponent SpawnComponent (set_lastSpawn (now_stamp io) spawn) e));
      apply same_shape_setComponent; try done.
    - apply getComponent_instanceof in Hs. by destruct spawn.
    - apply getComponent_instanceof in Hc. by destruct counter. }
  destruct (Z.rem (count (set_count (count counter + 1) counter)) 10 =? 0)%Z.
  - pose proof (grows_allocate
                  (EnemyShipAssemblage canvas (random_speed io) (random_side io)
                     (random_x io * canvas_width canvas) 0) (mutate spawner f s)
                  (proj1 (EnemyShipAssemblage_shape _ _ _ _ _))
                  (proj2 (EnemyShipAssemblage_shape _ _ _ _ _))) as Hg2.
    unfold allocate in *. cbn [fst snd] in *.
    eexists. split; [reflexivity|].
    apply (grows_trans _ _ _ Hg1). intros r. apply (Hg2 r).
  - exists (mutate spawner f s). by split.
Qed.

Lemma shipInteractable_grows (canvas : Canvas) (keys : Keys) (now_test now_stamp : Z)
    (ship : ref) (s : State) :
  (forall e, heap s !! ship = Some e -> fire_safe e) ->
  exists s', shipInteractable canvas keys now_test now_stamp ship s = Normal s' /\
             grows s s'.
Proof.
  intros Hsafe. unfold shipInteractable.
  destruct (getComponent (deref s ship) VelocityComponent) as [velocity|] eqn:Hv;
    [|exists s; split; [done|apply grows_refl]].
  pose proof (getComponent_deref_is_Some _ _ _ _ Hv) as Hh.
  destruct (Hsafe _ Hh) as ([blaster Hb] & [shipWhitelist Hw] & [shipPosition Hp]
                            & [shipRectangle Hr]); [by eexists|].
  pose proof (getComponent_instanceof _ _ _ Hv) as Iv.
  pose proof (getComponent_instanceof _ _ _ Hb) as Ib.
  pose proof (getComponent_instanceof _ _ _ Hw) as Iw.
  destruct (steer_spec keys velocity Iv) as (Iv' & _).
  assert (instanceof (set_lastFired now_stamp blaster) BlasterComponent = true) as Ib'
    by by destruct blaster.
  destruct (whitelist_push_includes ship (new_WhitelistComponent []) eq_refl) as [Ibw _].
  set (s1 := mutate ship (setComponent VelocityComponent (steer keys velocity)) s).
  assert (grows s s1) as G1.
  { apply grows_mutate. intros e. by apply same_shape_setComponent. }
  destruct (pressed keys "mousedown" [" "]); [|by exists s1].
  assert (forall n, n <> VelocityComponent ->
            getComponent (deref s1 ship) n = getComponent (deref s ship) n) as H1.
  { intros n Hn. unfold s1. by rewrite getComponent_mutate_other. }
  rewrite H1, Hb by done.
  destruct (negb (lastFired blaster =? 0)%Z && (now_test - lastFired blaster <? 100)%Z);
    [by exists s1|].
  set (s2 := mutate ship (setComponent BlasterComponent (set_lastFired now_stamp blaster)) s1).
  assert (grows s1 s2) as G2.
  { apply grows_mutate. intros e. by apply same_shape_setComponent. }
  assert (forall n, n <> VelocityComponent -> n <> BlasterComponent ->
            getComponent (deref s2 ship) n = getComponent (deref s ship) n) as H2.
  { intros n Hn Hn'. unfold s2. rewrite getComponent_mutate_other by done. by apply H1. }
  assert (getComponent (deref s2 ship) BlasterComponent
          = Some (set_lastFired now_stamp blaster)) as Hb2.
  { unfold s2. apply (getComponent_mutate_same _ _ _ blaster); [|done].
    by rewrite H1, Hb. }
  pose proof (grows_allocate (BulletAssemblage canvas) s2
                (proj1 (BulletAssemblage_shape canvas))
                (proj2 (BulletAssemblage_shape canvas))) as G3.
  unfold allocate in *.
  set (bullet := fresh (dom (heap s2))) in *.
  set (s3 := mkState (<[bullet := BulletAssemblage canvas]> (heap s2)) (entities s2)) in *.
  cbv beta iota zeta. cbn [snd] in G3.
  assert (heap s2 !! bullet = None) as Hfresh.
  { apply not_elem_of_dom. apply is_fresh. }
  assert (bullet <> ship) as Hne.
  { intros Heq. rewrite Heq in Hfresh.
    rewrite (getComponent_deref_is_Some _ _ _ _ Hb2) in Hfresh. discriminate. }
  assert (deref s3 bullet = BulletAssemblage canvas) as Hd3.
  { unfold deref, s3. simpl. by rewrite lookup_insert_eq. }
  assert (deref s3 ship = deref s2 ship) as Hd3s.
  { unfold deref, s3. simpl. by rewrite lookup_insert_ne. }
  rewrite Hd3, Hd3s. rewrite H2, Hw by done.
  change (getComponent (BulletAssemblage canvas) WhitelistComponent)
    with (Some (new_WhitelistComponent [])).
  cbv beta iota.
  set (s4 := mutate bullet (setComponent WhitelistComponent
                              (whitelist_push ship (new_WhitelistComponent []))) s3).
  set (s5 := mutate ship (setComponent WhitelistComponent
                            (whitelist_push bullet shipWhitelist)) s4).
  assert (grows s3 s4) as G4.
  { apply grows_mutate. intros e. by apply same_shape_setComponent. }
  assert (grows s4 s5) as G5.
  { apply grows_mutate. intros e. apply same_shape_setComponent; [done|].
    by apply whitelist_push_includes. }
  assert (heap s3 !! bullet = Some (BulletAssemblage canvas)) as Hh3.
  { unfold s3. simpl. by rewrite lookup_insert_eq. }
  assert (deref s5 bullet =
            setComponent WhitelistComponent
              (whitelist_push ship (new_WhitelistComponent [])) (BulletAssemblage canvas))
    as Hd5.
  { unfold s5. rewrite deref_mutate_ne by done.
    unfold s4. by rewrite (deref_mutate_eq _ _ _ _ Hh3). }
  assert (forall n, n <> WhitelistComponent ->
            getComponent (deref s5 ship) n = getComponent (deref s2 ship) n) as H5.
  { intros n Hn. unfold s5. rewrite getComponent_mutate_other;
      [|done|by apply whitelist_push_includes].
    unfold s4. rewrite deref_mutate_ne by done. by rewrite Hd3s. }
  rewrite Hd5.
  rewrite (H5 PositionComponent), (H5 RectangleComponent) by done.
  rewrite !H2, Hp, Hr by done.
  set (B4 := setComponent WhitelistComponent
               (whitelist_push ship (new_WhitelistComponent [])) (BulletAssemblage canvas))
    in *.
  change (getComponent B4 PositionComponent) with (Some (new_PositionComponent 0 0)).
  change (getComponent B4 VelocityComponent) with (Some (new_VelocityComponent 0 0)).
  change (getComponent B4 RectangleComponent) with (Some (new_RectangleComponent 4 8)).
  change (getComponent B4 BoundaryComponent)
    with (Some (new_BoundaryComponent 0 0 (canvas_width canvas) (canvas_height canvas))).
  cbv beta iota.
  match goal with
  | |- context [mutate bullet ?f s5] => set (F := f); set (s6 := mutate bullet F s5)
  end.
  assert (grows s5 s6) as G6.
  { apply grows_mutate. intros e. unfold F.
    eapply same_shape_trans; [|by apply same_shape_setComponent].
    eapply same_shape_trans; by apply same_shape_setComponent. }
  exists (World_addEntity bullet s6). split; [reflexivity|].
  apply (grows_trans _ s6); [|by apply grows_heap].
  apply (grows_trans _ s5); [|done].
  apply (grows_trans _ s4); [|done].
  apply (grows_trans _ s3); [|done].
  apply (grows_trans _ s2); [|done].
  by apply (grows_trans _ s1).
Qed.

Lemma InteractableSystem_update_sound (canvas : Canvas) (keys : Keys)
    (clock : nat -> Z * Z) (s : State) :
  sound s ->
  exists s', InteractableSystem_update canvas keys clock s = Normal s' /\ grows s s'.
Proof.
  intros Hs. unfold InteractableSystem_update, forEach.
  assert (forall n k s1, grows s s1 ->
            exists s', forEach_from (InteractableSystem_callback canvas keys clock) k n s1
                       = Normal s' /\ grows s s') as Hloop.
  { induction n as [|n IH]; intros k s1 Hg; simpl; [by exists s1|].
    destruct (entities s1 !! k) as [element|]; [|by apply IH].
    assert (exists s2, InteractableSystem_callback canvas keys clock
                         element k s1 = Normal s2 /\ grows s1 s2) as (s2 & -> & Hg2).
    { unfold InteractableSystem_callback.
      destruct element as [entity|]; [|exists s1; split; [done|apply grows_refl]].
      destruct (getComponent (deref s1 entity) InteractableComponent) as [c|] eqn:Hc;
        [|exists s1; split; [done|apply grows_refl]].
      destruct c; try (exists s1; split; [done|apply grows_refl]).
      apply shipInteractable_grows. intros e He.
      destruct (grows_sound _ _ Hg Hs) as [_ Hint].
      destruct (Hint _ _ _ (getComponent_deref_is_Some _ _ _ _ Hc) Hc)
        as (ship & Hship & Hsafe).
      rewrite Hship in He. by injection He as <-. }
    apply IH. by apply (grows_trans _ s1). }
  apply Hloop, grows_refl.
Qed.

Lemma System_update_sound (env : Env) (system : System) (s : State) :
  sound s -> registered env system ->
  exists s', System_update env system s = Normal s' /\ sound s'.
Proof.
  intros Hs Hreg.
  assert (forall c, (exists s', c = Normal s' /\ grows s s') ->
                    exists s', c = Normal s' /\ sound s') as Hup.
  { intros c (s' & -> & Hg). exists s'. split; [done|]. by apply (grows_sound s). }
  destruct system; simpl; try done; apply Hup.
  - unfold BoundarySystem_update.
    rewrite (forEach_visit _ _ BoundarySystem_callback_visit). eexists. split; [reflexivity|].
    apply foldl_visit_grows, BoundarySystem_entity_shape.
  - unfold MovementSystem_update.
    rewrite (forEach_visit _ _ MovementSystem_callback_visit). eexists. split; [reflexivity|].
    apply foldl_visit_grows, MovementSystem_entity_shape.
  - destruct (CollisionSystem_update_decays s) as (s' & -> & Hd).
    exists s'. split; [done|]. apply grows_heap. apply Hd.
  - destruct (BoundaryRemovalSystem_update_sound s Hs) as (s' & -> & Hh).
    exists s'. split; [done|]. by apply grows_heap.
  - by apply InteractableSystem_update_sound.
  - simpl in Hreg. rewrite Hreg. exists s. split; [done|apply grows_refl].
  - apply SpawnSystem_update_grows.
Qed.

Lemma run_systems_sound (env : Env) (l : list System) (s : State) :
  sound s -> Forall (registered env) l ->
  exists s', run_systems env l s = Normal s' /\ sound s'.
Proof.
  intros Hs Hl. revert s Hs. induction Hl as [|system l Hreg _ IH]; intros s Hs; simpl.
  - by exists s.
  - destruct (System_update_sound env system s Hs Hreg) as (s1 & -> & Hs1).
    by apply IH.
Qed.

Lemma PlayerShipAssemblage_shape (canvas : Canvas) (doFn : ref) :
  removal_safe (PlayerShipAssemblage canvas doFn) /\
  fire_safe (PlayerShipAssemblage canvas doFn) /\
  getComponent (PlayerShipAssemblage canvas doFn) InteractableComponent
    = Some (new_InteractableComponent doFn) /\
  getComponent (PlayerShipAssemblage canvas doFn) UserCharacterComponent
    = Some new_UserCharacterComponent.
Proof.
  split; [|split; [|split; reflexivity]].
  - intros _ [c Hc]. discriminate Hc.
  - intros _. repeat split; eexists; reflexivity.
Qed.

Lemma init_sound (canvas : Canvas) (w : World) :
  sound (world_state w) -> sound (world_state (World_reset (init canvas) w)).
Proof.
  intros [Hrem Hint]. unfold World_reset, init, World_addSystem, allocate, World_addEntity.
  cbn [world_state systems heap entities].
  set (h := heap (world_state w)).
  set (ship := fresh (dom h)).
  set (P := PlayerShipAssemblage canvas ship).
  set (spawner := fresh (dom (<[ship := P]> h))).
  assert (h !! ship = None) as Hship by apply not_elem_of_dom, is_fresh.
  assert (<[ship := P]> h !! spawner = None) as Hsp by apply not_elem_of_dom, is_fresh.
  assert (spawner <> ship) as Hne.
  { intros Heq. rewrite Heq, lookup_insert_eq in Hsp. discriminate Hsp. }
  rewrite lookup_insert_ne in Hsp by done.
  destruct (PlayerShipAssemblage_shape canvas ship) as (Prem & Pfire & Pint & _).
  assert (<[spawner := EnemySpawnerAssemblage]> (<[ship := P]> h) !! ship = Some P) as HP.
  { rewrite lookup_insert_ne by done. by rewrite lookup_insert_eq. }
  split; cbn [heap].
  - intros r e. destruct (decide (spawner = r)) as [<-|Hr1].
    { rewrite lookup_insert_eq. intros [= <-]. intros [c Hc]. discriminate Hc. }
    rewrite lookup_insert_ne by done.
    destruct (decide (ship = r)) as [<-|Hr2].
    { rewrite lookup_insert_eq. by intros [= <-]. }
    rewrite lookup_insert_ne by done. apply Hrem.
  - intros r e doFn. destruct (decide (spawner = r)) as [<-|Hr1].
    { rewrite lookup_insert_eq. intros [= <-]. intros Hc. discriminate Hc. }
    rewrite lookup_insert_ne by done.
    destruct (decide (ship = r)) as [<-|Hr2].
    { rewrite lookup_insert_eq. intros [= <-]. fold P in Pint. rewrite Pint.
      intros [= <-]. by exists P. }
    rewrite lookup_insert_ne by done. intros He Hc.
    destruct (Hint r e doFn He Hc) as (e' & He' & Hsafe). exists e'. split; [|done].
    assert (doFn <> spawner) by (intros ->; fold h in He'; congruence).
    assert (doFn <> ship) by (intros ->; fold h in He'; congruence).
    by rewrite !lookup_insert_ne.
Qed.

Lemma init_registered (canvas : Canvas) (env : Env) (w : World) :
  env_counter env = true ->
  Forall (registered env) (systems (World_reset (init canvas) w)).
Proof. intros Hc. repeat constructor. exact Hc. Qed.

Lemma sound_new_World : sound (world_state new_World).
Proof. split; intros r e; simpl; by rewrite lookup_empty. Qed.

(** X18. A tick never throws on a well-built world. When every entity
    object that carries Position and RemovableAtBoundary also carries
    Rectangle and Boundary, every behaviour stored in an Interactable
    component belongs to a ship object that carries Blaster, Whitelist,
    Position and Rectangle whenever it carries Velocity, and every
    registered system is one of the seven classes with an [update] of
    their own (the page having its canvas and, if EntitiesCounterSystem is
    among them, the counter element), then [World.update] completes
    normally, whatever the keys, the clock and the random numbers are, and
    the world it leaves is well-built again. *)
Theorem World_update_never_throws (env : Env) (w : World) :
  sound (world_state w) ->
  Forall (registered env) (systems w) ->
  exists s', World_update env w = Normal s' /\ sound s'.
Proof. intros Hs Hl. by apply run_systems_sound. Qed.

Lemma World_update_never_throws_witness :
  exists s', World_update sample_env (World_reset (init sample_canvas) new_World)
             = Normal s' /\ sound s'.
Proof.
  apply (World_update_never_throws sample_env
           (World_reset (init sample_canvas) new_World)).
  - apply init_sound, sound_new_World.
  - by apply init_registered.
Defined.

(** X19. The game as [init] builds it never throws in a tick: after
    [world.reset(init)], on a well-built heap (the empty heap of a new
    page, or the heap any such run has left), any number of successive
    [world.update()] calls complete normally, whatever keys are held and
    whatever the clock and [Math.random()] return at each tick, as long as
    the page has its canvas and the counter element. *)
Theorem World_updates_after_init (canvas : Canvas) (envs : list Env) (w : World) :
  sound (world_state w) ->
  Forall (fun env => env_counter env = true) envs ->
  exists s', World_updates envs (World_reset (init canvas) w) = Normal s' /\ sound s'.
Proof.
  intros Hs Henvs.
  pose proof (init_sound canvas w Hs) as Hs0.
  assert (forall env, env_counter env = true ->
            Forall (registered env) (systems (World_reset (init canvas) w))) as Hreg
    by (intros env; apply init_registered).
  revert Hs0 Hreg. generalize (World_reset (init canvas) w). clear Hs w.
  induction Henvs as [|env envs Henv _ IH]; intros w Hs Hreg; simpl.
  - by exists (world_state w).
  - destruct (run_systems_sound env (systems w) (world_state w) Hs (Hreg env Henv))
      as (s1 & Hrun & Hs1).
    unfold World_update. rewrite Hrun. by apply IH.
Qed.

Lemma World_updates_after_init_witness :
  exists s', World_updates [sample_env; sample_env; sample_env]
               (World_reset (init sample_canvas) new_World) = Normal s' /\ sound s'.
Proof.
  apply (World_updates_after_init sample_canvas [sample_env; sample_env; sample_env]
           new_World).
  - apply sound_new_World.
  - repeat constructor.
Defined.

(** X20. [world.reset(init)] discards every slot and every system the
    world had: afterwards the slot array holds exactly a new player ship in
    slot 0 and a new spawner in slot 1, both entity objects that did not
    exist before; the behaviour stored in the ship's Interactable component
    is the ship's own; the seven systems are registered in the order
    Boundary, Movement, Collision, BoundaryRemoval, Interactable,
    EntitiesCounter, Spawn; and the game is not over. *)
Theorem World_reset_init_spec (canvas : Canvas) (w : World) :
  exists ship spawner,
    let w' := World_reset (init canvas) w in
    ship <> spawner /\
    heap (world_state w) !! ship = None /\
    heap (world_state w) !! spawner = None /\
    entities (world_state w') = [Some ship; Some spawner] /\
    deref (world_state w') ship = PlayerShipAssemblage canvas ship /\
    deref (world_state w') spawner = EnemySpawnerAssemblage /\
    (forall r, r <> ship -> r <> spawner ->
               heap (world_state w') !! r = heap (world_state w) !! r) /\
    systems w' = [BoundarySystem; MovementSystem; CollisionSystem; BoundaryRemovalSystem;
                  InteractableSystem; EntitiesCounterSystem; SpawnSystem] /\
    EndGameSystem_update (world_state w') = false.
Proof.
  unfold World_reset, init, World_addSystem, allocate, World_addEntity.
  cbn [world_state systems heap entities].
  set (h := heap (world_state w)).
  set (ship := fresh (dom h)).
  set (P := PlayerShipAssemblage canvas ship).
  set (spawner := fresh (dom (<[ship := P]> h))).
  assert (h !! ship = None) as Hship by apply not_elem_of_dom, is_fresh.
  assert (<[ship := P]> h !! spawner = None) as Hsp by apply not_elem_of_dom, is_fresh.
  assert (spawner <> ship) as Hne.
  { intros Heq. rewrite Heq, lookup_insert_eq in Hsp. discriminate Hsp. }
  rewrite lookup_insert_ne in Hsp by done.
  exists ship, spawner. cbv zeta.
  assert (deref (mkState (<[spawner := EnemySpawnerAssemblage]> (<[ship := P]> h))
                   [Some ship; Some spawner]) ship = P) as Hd.
  { unfold deref. cbn [heap]. rewrite lookup_insert_ne by done.
    by rewrite lookup_insert_eq. }
  repeat split; try done.
  - unfold deref. cbn [heap]. by rewrite lookup_insert_eq.
  - intros r Hr1 Hr2. by rewrite !lookup_insert_ne.
  - unfold EndGameSystem_update. cbn [entities addEntity List.find carries].
    by rewrite Hd.
Qed.

(** X21. A throw of any system aborts the tick where it happens: the
    systems registered before it have run and their effects stay, and the
    systems registered after it are not run. *)
Theorem World_update_aborts (env : Env) (before after : list System) (system : System)
    (s s1 s2 : State) :
  run_systems env before s = Normal s1 ->
  System_update env system s1 = Throw s2 ->
  World_update env (mkWorld s (before ++ system :: after)) = Throw s2.
Proof.
  unfold World_update. cbn [systems world_state].
  revert s. induction before as [|system0 before IH]; intros s Hrun Hthrow; simpl in *.
  - injection Hrun as ->. by rewrite Hthrow.
  - destruct (System_update env system0 s) as [s0|s0]; [|discriminate Hrun].
    by apply IH.
Qed.

Lemma World_update_aborts_witness :
  exists s1 s2,
    MovementSystem_update removal_no_rectangle = Normal s1 /\
    BoundaryRemovalSystem_update s1 = Throw s2 /\
    World_update sample_env
      (mkWorld removal_no_rectangle
         [MovementSystem; BoundaryRemovalSystem; SpawnSystem]) = Throw s2.
Proof.
  eexists; eexists. split; [reflexivity|]. split; [reflexivity|].
  apply (World_update_aborts sample_env [MovementSystem] [SpawnSystem]
           BoundaryRemovalSystem removal_no_rectangle _ _ eq_refl eq_refl).
Defined.

(** ** Whitelists only grow *)

Lemma exemptions_kept_refl (s : State) : exemptions_kept s s.
Proof. by intros a b. Qed.

Lemma exemptions_kept_trans (s1 s2 s3 : State) :
  exemptions_kept s1 s2 -> exemptions_kept s2 s3 -> exemptions_kept s1 s3.
Proof. intros H12 H23 a b H. by apply H23, H12. Qed.

Lemma exemptions_kept_heap (s s' : State) : heap s' = heap s -> exemptions_kept s s'.
Proof. intros Hh a b. unfold deref. by rewrite Hh. Qed.

Lemma exemptions_kept_mutate (r : ref) (f : Entity -> Entity) (s : State) :
  (forall b, includes (getComponent (deref s r) WhitelistComponent) b = true ->
             includes (getComponent (f (deref s r)) WhitelistComponent) b = true) ->
  exemptions_kept s (mutate r f s).
Proof.
  intros Hf a b. destruct (decide (r = a)) as [<-|Hne].
  - destruct (heap s !! r) as [e|] eqn:He.
    + rewrite (deref_mutate_eq _ _ _ _ He). specialize (Hf b).
      by rewrite (deref_lookup _ _ _ He) in *.
    + unfold deref. simpl. by rewrite lookup_alter_eq, He.
  - by rewrite deref_mutate_ne.
Qed.

Lemma exemptions_kept_set (r : ref) (n : ComponentName) (c : Component) (s : State) :
  n <> WhitelistComponent -> instanceof c n = true ->
  exemptions_kept s (mutate r (setComponent n c) s).
Proof.
  intros Hn Hc. apply exemptions_kept_mutate. intros b.
  by rewrite getComponent_setComponent_other.
Qed.

Lemma exemptions_kept_push (r x : ref) (w : Component) (s : State) :
  getComponent (deref s r) WhitelistComponent = Some w ->
  exemptions_kept s (mutate r (setComponent WhitelistComponent (whitelist_push x w)) s).
Proof.
  intros Hw. apply exemptions_kept_mutate. intros b.
  pose proof (getComponent_instanceof _ _ _ Hw) as Iw.
  rewrite (getComponent_setComponent_same _ _ w) by
    (done || by apply whitelist_push_includes).
  rewrite Hw. destruct w; try discriminate Iw. simpl.
  rewrite !bool_decide_eq_true. intros Hb. apply elem_of_app. by left.
Qed.

Lemma exemptions_kept_allocate (e0 : Entity) (s : State) :
  exemptions_kept s (snd (allocate e0 s)).
Proof.
  intros a b. unfold allocate, deref. simpl.
  destruct (decide (fresh (dom (heap s)) = a)) as [<-|Hne].
  - rewrite (proj1 (not_elem_of_dom _ _) (is_fresh (dom (heap s)))). done.
  - by rewrite lookup_insert_ne.
Qed.

Lemma instanceof_set_width (v : Q) (c : Component) (n : ComponentName) :
  instanceof (set_width v c) n = instanceof c n.
Proof. by destruct c. Qed.

Lemma instanceof_set_height (v : Q) (c : Component) (n : ComponentName) :
  instanceof (set_height v c) n = instanceof c n.
Proof. by destruct c. Qed.

Lemma shipInteractable_exemptions (canvas : Canvas) (keys : Keys) (now_test now_stamp : Z)
    (ship : ref) (s : State) :
  exemptions_kept s (state_of (shipInteractable canvas keys now_test now_stamp ship s)).
Proof.
  unfold shipInteractable.
  destruct (getComponent (deref s ship) VelocityComponent) as [velocity|] eqn:Hv;
    [|apply exemptions_kept_refl].
  destruct (steer_spec keys velocity (getComponent_instanceof _ _ _ Hv)) as (Iv' & _).
  set (s1 := mutate ship (setComponent VelocityComponent (steer keys velocity)) s).
  assert (exemptions_kept s s1) as G1 by by apply exemptions_kept_set.
  destruct (pressed keys "mousedown" [" "]); [|exact G1].
  destruct (getComponent (deref s1 ship) BlasterComponent) as [blaster|] eqn:Hb;
    [|exact G1].
  destruct (negb (lastFired blaster =? 0)%Z && (now_test - lastFired blaster <? 100)%Z);
    [exact G1|].
  pose proof (getComponent_instanceof _ _ _ Hb) as Ib.
  assert (instanceof (set_lastFired now_stamp blaster) BlasterComponent = true) as Ib'
    by by destruct blaster.
  set (s2 := mutate ship (setComponent BlasterComponent (set_lastFired now_stamp blaster)) s1).
  assert (exemptions_kept s s2) as G2.
  { apply (exemptions_kept_trans _ s1); [done|]. by apply exemptions_kept_set. }
  pose proof (exemptions_kept_allocate (BulletAssemblage canvas) s2) as G3.
  unfold allocate in *.
  set (bullet := fresh (dom (heap s2))) in *.
  set (s3 := mkState (<[bullet := BulletAssemblage canvas]> (heap s2)) (entities s2)) in *.
  cbv beta iota zeta. cbn [snd] in G3.
  apply (exemptions_kept_trans _ _ _ G2) in G3.
  assert (bullet <> ship) as Hne.
  { intros Heq.
    assert (heap s2 !! bullet = None) as Hfresh by apply not_elem_of_dom, is_fresh.
    rewrite Heq in Hfresh. unfold s2 in Hfresh.
    rewrite (heap_mutate_is_Some _ _ _ _ (getComponent_deref_is_Some _ _ _ _ Hb))
      in Hfresh.
    discriminate Hfresh. }
  destruct (getComponent (deref s3 bullet) WhitelistComponent) as [bulletWhitelist|] eqn:Hbw;
    [|exact G3].
  set (s4 := mutate bullet (setComponent WhitelistComponent
                              (whitelist_push ship bulletWhitelist)) s3).
  assert (exemptions_kept s s4) as G4.
  { apply (exemptions_kept_trans _ s3); [done|]. by apply exemptions_kept_push. }
  destruct (getComponent (deref s3 ship) WhitelistComponent) as [shipWhitelist|] eqn:Hsw;
    [|exact G4].
  set (s5 := mutate ship (setComponent WhitelistComponent
                            (whitelist_push bullet shipWhitelist)) s4).
  assert (exemptions_kept s s5) as G5.
  { apply (exemptions_kept_trans _ s4); [done|]. apply exemptions_kept_push.
    unfold s4. by rewrite deref_mutate_ne. }
  destruct (getComponent (deref s5 bullet) PositionComponent) as [bp|] eqn:Hbp;
    [|exact G5].
  destruct (getComponent (deref s5 bullet) VelocityComponent) as [bv|] eqn:Hbv;
    [|exact G5].
  destruct (getComponent (deref s5 bullet) RectangleComponent) as [br|] eqn:Hbr;
    [|exact G5].
  destruct (getComponent (deref s5 bullet) BoundaryComponent) as [bb|] eqn:Hbb;
    [|exact G5].
  destruct (getComponent (deref s5 ship) PositionComponent) as [sp|]; [|exact G5].
  destruct (getComponent (deref s5 ship) RectangleComponent) as [sr|]; [|exact G5].
  cbn [state_of].
  apply getComponent_instanceof in Hbp, Hbv, Hbb.
  apply (exemptions_kept_trans _ s5); [done|].
  eapply exemptions_kept_trans; [|by apply exemptions_kept_heap].
  apply exemptions_kept_mutate. intros b.
  rewrite !getComponent_setComponent_other; try done.
  - by rewrite instanceof_set_height, instanceof_set_width.
  - by rewrite instanceof_set_y, instanceof_set_x.
  - by rewrite instanceof_set_y.
Qed.

Lemma forEach_from_state_of (callback : option ref -> nat -> State -> completion)
    (I : State -> Prop) :
  (forall element k s, I s -> I (state_of (callback element k s))) ->
  forall n k s, I s -> I (state_of (forEach_from callback k n s)).
Proof.
  intros Hcb n. induction n as [|n IH]; intros k s Hs; simpl; [done|].
  destruct (entities s !! k) as [element|]; [|by apply IH].
  specialize (Hcb element k s Hs).
  destruct (callback element k s) as [s1|s1]; simpl in *; [by apply IH|done].
Qed.

Lemma System_update_exemptions (env : Env) (system : System) (s : State) :
  exemptions_kept s (state_of (System_update env system s)).
Proof.
  destruct system; simpl; try apply exemptions_kept_refl.
  - unfold BoundarySystem_update.
    rewrite (forEach_visit _ _ BoundarySystem_callback_visit). simpl.
    intros a b. by rewrite (foldl_visit_getComponent BoundarySystem_entity)
      by (intros e; by apply BoundarySystem_entity_getComponent).
  - unfold MovementSystem_update.
    rewrite (forEach_visit _ _ MovementSystem_callback_visit). simpl.
    intros a b. by rewrite (foldl_visit_getComponent MovementSystem_entity)
      by (intros e; by apply MovementSystem_entity_getComponent).
  - destruct (CollisionSystem_update_decays s) as (s' & -> & Hh & _).
    by apply exemptions_kept_heap.
  - destruct (BoundaryRemovalSystem_from_any (length (entities s)) 0 s)
      as (s' & Hrun & Hh & _).
    unfold BoundaryRemovalSystem_update, forEach.
    destruct Hrun as [-> | ->]; by apply exemptions_kept_heap.
  - apply (forEach_from_state_of _ (exemptions_kept s)); [|apply exemptions_kept_refl].
    intros element k s1 Hs1. apply (exemptions_kept_trans _ s1); [done|].
    unfold InteractableSystem_callback.
    destruct element as [entity|]; [|apply exemptions_kept_refl].
    destruct (getComponent (deref s1 entity) InteractableComponent) as [c|];
      [|apply exemptions_kept_refl].
    destruct c; try apply exemptions_kept_refl.
    apply shipInteractable_exemptions.
  - destruct (env_counter env); apply exemptions_kept_refl.
  - unfold SpawnSystem_update.
    destruct (List.find (has_spawn s) (entities s)) as [[spawner|]|];
      try apply exemptions_kept_refl.
    destruct (getComponent (deref s spawner) SpawnComponent) as [spawn|] eqn:Hs;
      [|apply exemptions_kept_refl].
    destruct (getComponent (deref s spawner) CounterComponent) as [counter|] eqn:Hc;
      [|apply exemptions_kept_refl].
    destruct (_ - lastSpawn spawn <? 100)%Z; [apply exemptions_kept_refl|].
    match goal with
    | |- context [mutate spawner ?f s] => set (s1 := mutate spawner f s)
    end.
    assert (exemptions_kept s s1) as G1.
    { apply exemptions_kept_mutate. intros b.
      apply getComponent_instanceof in Hs, Hc.
      rewrite !getComponent_setComponent_other; try done.
      - by destruct spawn.
      - by destruct counter. }
    destruct (Z.rem _ 10 =? 0)%Z; [|exact G1].
    match goal with
    | |- context [allocate ?e s1] =>
        pose proof (exemptions_kept_allocate e s1) as G2
    end.
    unfold allocate in *. cbn [snd state_of] in *.
    apply (exemptions_kept_trans _ s1); [done|].
    eapply exemptions_kept_trans; [exact G2|]. by apply exemptions_kept_heap.
Qed.

Lemma run_systems_exemptions (env : Env) (l : list System) (s : State) :
  exemptions_kept s (state_of (run_systems env l s)).
Proof.
  revert s. induction l as [|system l IH]; intros s; simpl; [apply exemptions_kept_refl|].
  pose proof (System_update_exemptions env system s) as H1.
  destruct (System_update env system s) as [s1|s1]; simpl in *; [|done].
  by apply (exemptions_kept_trans _ s1).
Qed.

(** X22. No system ever takes anyone off a whitelist: who is on an
    entity's whitelist before a tick is still on it in the state the tick
    leaves, whether [World.update] completes or throws, for any list of
    registered systems. So two entities exempt from colliding (the ship and
    a bullet it has fired) stay exempt: CollisionSystem's test fails for
    them, in either order, after the tick as before it. *)
Theorem World_update_keeps_exemptions (env : Env) (w : World) (a b : ref) :
  includes (getComponent (deref (world_state w) a) WhitelistComponent) b = true ->
  includes (getComponent (deref (state_of (World_update env w)) a) WhitelistComponent) b
    = true /\
  collides (state_of (World_update env w)) a b = false /\
  collides (state_of (World_update env w)) b a = false.
Proof.
  intros Hab.
  pose proof (run_systems_exemptions env (systems w) (world_state w) a b Hab) as H.
  split; [exact H|].
  assert (collides (state_of (World_update env w)) a b = false) as Hcol
    by (apply collides_exempt; by left).
  split; [done|]. by rewrite collides_sym.
Qed.

Lemma World_update_keeps_exemptions_witness :
  collides
    (state_of
       (World_update sample_env
          (mkWorld collision_exempt
             [BoundarySystem; MovementSystem; CollisionSystem; BoundaryRemovalSystem;
              InteractableSystem; EntitiesCounterSystem; SpawnSystem])))
    0%nat 1%nat = false.
Proof.
  apply (World_update_keeps_exemptions sample_env
           (mkWorld collision_exempt
              [BoundarySystem; MovementSystem; CollisionSystem; BoundaryRemovalSystem;
               InteractableSystem; EntitiesCounterSystem; SpawnSystem]) 0%nat 1%nat).
  reflexivity.
Defined.
